(** * Reactivity core and static-subtree optimizer: a shallow embedding

    The definitions come first, one module per source file:
    - [Dep]       : src/core/observer/dep.js (the publish/subscribe channel);
    - [Optimizer] : src/compiler/optimizer.js (static marking of the AST);
    - [Observer]  : core/observer/index.js, the second part of
                    src/platforms/web/compiler/directives/model.js
                    (observe, defineReactive, set, del);
    - [Listeners] : vdom/helpers/update-listeners.js, src/unnamed/part_000
                    (normalizeEvent, createFnInvoker, updateListeners);
    - [CreateElement] : src/core/vdom/create-element.js (applyNS).
    The properties of each follow, with the claim each theorem settles. *)

From Stdlib Require Import ZArith Floats.SpecFloat.
From stdpp Require Import gmap strings list fin_maps sorting.

Set Default Proof Using "Type".
Set Warnings "-register-all".

(** * Dep.notify (src/core/observer/dep.js) *)

Module Dep.

(** What a call of a subscriber's [update()] can do: return, or raise.
    Both leave a program state behind. *)
Inductive Outcome (St : Type) : Type :=
  | Returned (s : St)
  | Raised (s : St).
Arguments Returned {St} s.
Arguments Raised {St} s.

(** [Array.prototype.sort(cmp)]: a stable sort; an element goes before the
    first one it does not compare greater than. *)
Section sort.
Context {A : Type} (cmp : A → A → Z).

Fixpoint sort_insert (x : A) (l : list A) : list A :=
  match l with
  | [] => [x]
  | y :: l' => if (cmp x y <=? 0)%Z then x :: y :: l' else y :: sort_insert x l'
  end.

Definition js_sort (l : list A) : list A := foldr sort_insert [] l.
End sort.

Section notify.
(** The Watcher class lives in watcher.js; [Dep] only uses its [id] and its
    [update()] method, whose effect on the program state is arbitrary.  The
    state holds [this.subs], which an [update()] may change. *)
Context {Watcher St : Type}.
Variable id : Watcher → Z.
Variable subs : St → list Watcher.
Variable update : Watcher → St → Outcome St.

(** [process.env.NODE_ENV === 'production'] and [config.async]. *)
Variable production : bool.
Variable async : bool.

(** [for (let i = 0, l = subs.length; i < l; i++) subs[i].update()];
    the first component records on whom [update()] was called. *)
Fixpoint run_updates (l : list Watcher) (s : St) : list Watcher * Outcome St :=
  match l with
  | [] => ([], Returned s)
  | w :: l' =>
      match update w s with
      | Returned s' => let '(calls, out) := run_updates l' s' in (w :: calls, out)
      | Raised s' => ([w], Raised s')
      end
  end.

(** The copy of [this.subs], sorted when [NODE_ENV !== 'production' && !config.async]. *)
Definition visit_order (s : St) : list Watcher :=
  let snapshot := subs s in
  if negb production && negb async
  then js_sort (λ a b, id a - id b)%Z snapshot
  else snapshot.

Definition notify (s : St) : list Watcher * Outcome St :=
  run_updates (visit_order s) s.
End notify.

(** A concrete family of subscribers for examples: the state is the
    subscriber list itself, and an [update()] may raise, unsubscribe everyone
    or subscribe a newcomer. *)
Inductive Behaviour := Quiet | Fails | ClearsSubs | AddsSub (newcomer : Z).
Record Sub := { sub_id : Z; sub_behaviour : Behaviour }.

Definition sub_update (w : Sub) (s : list Sub) : Outcome (list Sub) :=
  match sub_behaviour w with
  | Quiet => Returned s
  | Fails => Raised s
  | ClearsSubs => Returned []
  | AddsSub n => Returned (s ++ [{| sub_id := n; sub_behaviour := Quiet |}])
  end.

Definition notify_subs (production async : bool) (s : list Sub) :=
  notify sub_id (λ s, s) sub_update production async s.

Definition quiet (i : Z) : Sub := {| sub_id := i; sub_behaviour := Quiet |}.
Definition clearing (i : Z) : Sub := {| sub_id := i; sub_behaviour := ClearsSubs |}.


(** ** The active Watcher (the second half of dep.js) *)

(** [Dep.target] and [targetStack], the module state of dep.js: the Watcher
    being evaluated, and those whose evaluation it interrupted.  A target is
    a Watcher, [null] or [undefined]. *)
Inductive Target (Watcher : Type) : Type :=
  | TUndefined
  | TNull
  | TWatcher (w : Watcher).
Arguments TUndefined {Watcher}.
Arguments TNull {Watcher}.
Arguments TWatcher {Watcher} w.

Record Targets (Watcher : Type) : Type :=
  { target : Target Watcher; targetStack : list (Target Watcher) }.
Arguments target {Watcher} _.
Arguments targetStack {Watcher} _.

(** [Dep.target = null; const targetStack = []] *)
Definition no_targets {Watcher} : Targets Watcher :=
  {| target := TNull; targetStack := [] |}.

(** [targetStack[targetStack.length - 1]], [undefined] on an empty stack. *)
Definition stack_top {Watcher} (stack : list (Target Watcher)) : Target Watcher :=
  default TUndefined (last stack).

Definition pushTarget {Watcher} (t : Target Watcher) (s : Targets Watcher)
    : Targets Watcher :=
  {| target := t; targetStack := targetStack s ++ [t] |}.

Definition popTarget {Watcher} (s : Targets Watcher) : Targets Watcher :=
  let stack := removelast (targetStack s) in
  {| target := stack_top stack; targetStack := stack |}.

(** [depend()]: the Watcher whose [addDep(this)] is called, if any. *)
Definition depend {Watcher} (s : Targets Watcher) : option Watcher :=
  match target s with TWatcher w => Some w | _ => None end.

(** A sequence of calls of [pushTarget] and [popTarget]. *)
Inductive TargetOp (Watcher : Type) : Type :=
  | Push (t : Target Watcher)
  | Pop.
Arguments Push {Watcher} t.
Arguments Pop {Watcher}.

Definition run_op {Watcher} (s : Targets Watcher) (op : TargetOp Watcher)
    : Targets Watcher :=
  match op with Push t => pushTarget t s | Pop => popTarget s end.

Definition run_ops {Watcher} (ops : list (TargetOp Watcher)) (s : Targets Watcher)
    : Targets Watcher :=
  foldl run_op s ops.

(** The calls are nested: no [popTarget] without an earlier [pushTarget]
    of its own; [depth] pushes are open at the start, the result is the
    number open at the end. *)
Fixpoint nested {Watcher} (ops : list (TargetOp Watcher)) (depth : nat) : option nat :=
  match ops with
  | [] => Some depth
  | Push _ :: ops' => nested ops' (S depth)
  | Pop :: ops' =>
      match depth with
      | 0 => None
      | S depth' => nested ops' depth'
      end
  end.

Definition balanced {Watcher} (ops : list (TargetOp Watcher)) : bool :=
  bool_decide (nested ops 0 = Some 0).

End Dep.

(** * The static-subtree optimizer (src/compiler/optimizer.js) *)

Module Optimizer.

(** One entry of [node.parent]'s chain: what [isDirectChildOfTemplateFor]
    reads of an ancestor. *)
Record Ancestor := { anc_tag : string; anc_for : option string }.

(** [{ exp, block }], an entry of [node.ifConditions]. *)
Record ASTIfCondition (N : Type) := { exp : option string; block : N }.
Arguments exp {N} _.
Arguments block {N} _.

(** An element node (type 1).  [keys] is [Object.keys(node)]; a field that
    is [undefined] until a pass sets it is an [option]. *)
Record Element (N : Type) := {
  tag : string;
  attrsMap : gmap string string;
  parent : list Ancestor;
  children : list N;
  ifConditions : option (list (ASTIfCondition N));
  pre : bool;
  hasBindings : bool;
  if_ : option string;
  for_ : option string;
  once : bool;
  keys : list string;
  static : option bool;
  staticInFor : option bool;
  staticRoot : option bool;
}.
Arguments tag {N} _.
Arguments attrsMap {N} _.
Arguments parent {N} _.
Arguments children {N} _.
Arguments ifConditions {N} _.
Arguments pre {N} _.
Arguments hasBindings {N} _.
Arguments if_ {N} _.
Arguments for_ {N} _.
Arguments once {N} _.
Arguments keys {N} _.
Arguments static {N} _.
Arguments staticInFor {N} _.
Arguments staticRoot {N} _.

(** A text node: type 2 when it holds an expression, type 3 when plain. *)
Record TextNode := { text : string; text_static : option bool }.

Inductive ASTNode :=
  | ASTElement (e : Element ASTNode)
  | ASTExpression (t : TextNode)
  | ASTText (t : TextNode).

Definition type (node : ASTNode) : Z :=
  match node with ASTElement _ => 1 | ASTExpression _ => 2 | ASTText _ => 3 end.

(** Truthiness of a flag that may be [undefined], and of a string. *)
Definition truthy (flag : option bool) : bool :=
  match flag with Some true => true | _ => false end.

Definition truthy_str (s : option string) : bool :=
  match s with Some s => negb (String.eqb s "") | None => false end.

Definition node_static (node : ASTNode) : option bool :=
  match node with
  | ASTElement e => static e
  | ASTExpression t | ASTText t => text_static t
  end.

(** An assignment to a property adds its name to the own keys when new. *)
Definition add_key (k : string) (ks : list string) : list string :=
  if bool_decide (k ∈ ks) then ks else ks ++ [k].

Definition set_static {N} (e : Element N) (b : bool) : Element N :=
  {| tag := tag e; attrsMap := attrsMap e; parent := parent e;
     children := children e; ifConditions := ifConditions e; pre := pre e;
     hasBindings := hasBindings e; if_ := if_ e; for_ := for_ e;
     once := once e; keys := add_key "static" (keys e);
     static := Some b; staticInFor := staticInFor e;
     staticRoot := staticRoot e |}.

Definition set_staticInFor {N} (e : Element N) (b : bool) : Element N :=
  {| tag := tag e; attrsMap := attrsMap e; parent := parent e;
     children := children e; ifConditions := ifConditions e; pre := pre e;
     hasBindings := hasBindings e; if_ := if_ e; for_ := for_ e;
     once := once e; keys := add_key "staticInFor" (keys e);
     static := static e; staticInFor := Some b;
     staticRoot := staticRoot e |}.

Definition set_staticRoot {N} (e : Element N) (b : bool) : Element N :=
  {| tag := tag e; attrsMap := attrsMap e; parent := parent e;
     children := children e; ifConditions := ifConditions e; pre := pre e;
     hasBindings := hasBindings e; if_ := if_ e; for_ := for_ e;
     once := once e; keys := add_key "staticRoot" (keys e);
     static := static e; staticInFor := staticInFor e;
     staticRoot := Some b |}.

(** The element after its children and conditional blocks were marked in
    place. *)
Definition set_subtrees {N} (e : Element N) (cs : list N)
    (ifs : option (list (ASTIfCondition N))) : Element N :=
  {| tag := tag e; attrsMap := attrsMap e; parent := parent e;
     children := cs; ifConditions := ifs; pre := pre e;
     hasBindings := hasBindings e; if_ := if_ e; for_ := for_ e;
     once := once e; keys := keys e;
     static := static e; staticInFor := staticInFor e;
     staticRoot := staticRoot e |}.

Definition set_text_static (t : TextNode) (b : bool) : TextNode :=
  {| text := text t; text_static := Some b |}.

Definition set_block {N} (c : ASTIfCondition N) (b : N) : ASTIfCondition N :=
  {| exp := exp c; block := b |}.

(** [no] of shared/util: the constant-false predicate. *)
Definition no (_ : string) : bool := false.

(** [options: CompilerOptions], as far as [optimize] reads it. *)
Record CompilerOptions := {
  staticKeys : option string;
  isReservedTag : option (string → bool);
}.

Section optimizer.
(** [makeMap] and [isBuiltInTag] are imported from shared/util. *)
Variable makeMap : string → string → bool.
Variable isBuiltInTag : string → bool.

Definition genStaticKeys (keys : string) : string → bool :=
  makeMap ("type,tag,attrsList,attrsMap,plain,parent,children,attrs,start,end,rawAttrsMap"
           +:+ (if String.eqb keys "" then "" else "," +:+ keys)).

(** The two module variables that [optimize] sets before the passes. *)
Variable isStaticKey : string → bool.
Variable isPlatformReservedTag : string → bool.

Fixpoint isDirectChildOfTemplateFor_chain (chain : list Ancestor) : bool :=
  match chain with
  | [] => false
  | node :: chain' =>
      if negb (String.eqb (anc_tag node) "template") then false
      else if truthy_str (anc_for node) then true
      else isDirectChildOfTemplateFor_chain chain'
  end.

Definition isDirectChildOfTemplateFor {N} (node : Element N) : bool :=
  isDirectChildOfTemplateFor_chain (parent node).

Definition isStatic (node : ASTNode) : bool :=
  match node with
  | ASTExpression _ => false
  | ASTText _ => true
  | ASTElement node =>
      pre node ||
      (negb (hasBindings node) &&
       negb (truthy_str (if_ node)) &&
       negb (truthy_str (for_ node)) &&
       negb (isBuiltInTag (tag node)) &&
       isPlatformReservedTag (tag node) &&
       negb (isDirectChildOfTemplateFor node) &&
       forallb isStaticKey (keys node))
  end.

(** [node.attrsMap['inline-template'] == null] *)
Definition no_inline_template {N} (node : Element N) : bool :=
  bool_decide (attrsMap node !! "inline-template" = None).

Fixpoint markStatic (node : ASTNode) : ASTNode :=
  match node with
  | ASTExpression t => ASTExpression (set_text_static t (isStatic node))
  | ASTText t => ASTText (set_text_static t (isStatic node))
  | ASTElement e =>
      let e1 := set_static e (isStatic node) in
      if negb (isPlatformReservedTag (tag e1)) &&
         negb (String.eqb (tag e1) "slot") &&
         no_inline_template e1
      then ASTElement e1
      else
        let fix mark_children (cs : list ASTNode) (st : bool)
            : list ASTNode * bool :=
          match cs with
          | [] => ([], st)
          | child :: cs' =>
              let child' := markStatic child in
              let st' := if negb (truthy (node_static child')) then false else st in
              let '(cs'', st'') := mark_children cs' st' in
              (child' :: cs'', st'')
          end in
        let fix mark_blocks (bs : list (ASTIfCondition ASTNode)) (st : bool)
            : list (ASTIfCondition ASTNode) * bool :=
          match bs with
          | [] => ([], st)
          | c :: bs' =>
              let block' := markStatic (block c) in
              let st' := if negb (truthy (node_static block')) then false else st in
              let '(bs'', st'') := mark_blocks bs' st' in
              (set_block c block' :: bs'', st'')
          end in
        let '(cs, st1) := mark_children (children e1) (isStatic node) in
        let '(ifs, st2) :=
          match ifConditions e1 with
          | None => (None, st1)
          | Some [] => (Some [], st1)
          | Some (first :: bs) =>
              let '(bs', st) := mark_blocks bs st1 in (Some (first :: bs'), st)
          end in
        ASTElement (set_subtrees (set_static e1 st2) cs ifs)
  end.

(** The test of [markStaticRoots] for a static root. *)
Definition qualifies {N} (type_of : N → Z) (node : Element N) : bool :=
  truthy (static node) &&
  negb (length (children node) =? 0) &&
  negb ((length (children node) =? 1) &&
        match children node with c :: _ => (type_of c =? 3)%Z | [] => false end).

(** [if (node.static || node.once) node.staticInFor = isInFor] *)
Definition mark_staticInFor {N} (node : Element N) (isInFor : bool) : Element N :=
  if truthy (static node) || once node then set_staticInFor node isInFor else node.

Fixpoint markStaticRoots (node : ASTNode) (isInFor : bool) : ASTNode :=
  match node with
  | ASTElement e =>
      let e1 := mark_staticInFor e isInFor in
      if qualifies type e1
      then ASTElement (set_staticRoot e1 true)
      else
        let e2 := set_staticRoot e1 false in
        let cs := map (λ child, markStaticRoots child (isInFor || truthy_str (for_ e)))
                      (children e) in
        let ifs :=
          match ifConditions e with
          | None => None
          | Some [] => Some []
          | Some (first :: bs) =>
              Some (first :: map (λ c, set_block c (markStaticRoots (block c) isInFor)) bs)
          end in
        ASTElement (set_subtrees e2 cs ifs)
  | _ => node
  end.
End optimizer.

(** [optimize(root, options)]; the AST is marked in place, so the marked
    root is the result. *)
Definition optimize (makeMap : string → string → bool) (isBuiltInTag : string → bool)
    (root : option ASTNode) (options : CompilerOptions) : option ASTNode :=
  match root with
  | None => None
  | Some root =>
      let isStaticKey := genStaticKeys makeMap (default "" (staticKeys options)) in
      let isPlatformReservedTag := default no (isReservedTag options) in
      Some (markStaticRoots
              (markStatic isBuiltInTag isStaticKey isPlatformReservedTag root) false)
  end.

(** What the second pass leaves: every element it was called on has
    [staticRoot] set to the outcome of the test; below a static root nothing
    is required, below any other element the children and the conditional
    blocks after the first were passed over in the same way. *)
Inductive roots_marked : ASTNode → Prop :=
  | roots_marked_text t : roots_marked (ASTText t)
  | roots_marked_expression t : roots_marked (ASTExpression t)
  | roots_marked_root e :
      qualifies type e = true → staticRoot e = Some true →
      roots_marked (ASTElement e)
  | roots_marked_inner e :
      qualifies type e = false → staticRoot e = Some false →
      Forall roots_marked (children e) →
      Forall (λ c, roots_marked (block c)) (tail (default [] (ifConditions e))) →
      roots_marked (ASTElement e).

(** Induction on the AST, through the children and the conditional blocks. *)
Section ASTNode_induction.
Variable P : ASTNode → Prop.
Hypothesis Htext : ∀ t, P (ASTText t).
Hypothesis Hexpression : ∀ t, P (ASTExpression t).
Hypothesis Helement : ∀ e,
  Forall P (children e) →
  match ifConditions e with
  | Some l => Forall (λ c, P (block c)) l
  | None => True
  end →
  P (ASTElement e).

Fixpoint ASTNode_induction (node : ASTNode) : P node :=
  match node with
  | ASTText t => Htext t
  | ASTExpression t => Hexpression t
  | ASTElement e =>
      Helement e
        ((fix nodes (l : list ASTNode) : Forall P l :=
            match l with
            | [] => @List.Forall_nil _ P
            | c :: l' => @List.Forall_cons _ P c l' (ASTNode_induction c) (nodes l')
            end) (children e))
        (match ifConditions e as o
               return match o with
                      | Some l => Forall (λ c, P (block c)) l
                      | None => True
                      end
         with
         | Some l =>
             (fix blocks (l : list (ASTIfCondition ASTNode))
                : Forall (λ c, P (block c)) l :=
                match l with
                | [] => @List.Forall_nil _ _
                | c :: l' =>
                    @List.Forall_cons _ (λ c, P (block c)) c l'
                      (ASTNode_induction (block c)) (blocks l')
                end) l
         | None => I
         end)
  end.
End ASTNode_induction.

(** ** Notions for the statements *)

(** [markStatic] goes on below the element: the negation of its test for
    slot content of a component. *)
Definition traversed (isPlatformReservedTag : string → bool) {N} (e : Element N) : bool :=
  negb (negb (isPlatformReservedTag (tag e)) &&
        negb (String.eqb (tag e) "slot") &&
        no_inline_template e).

(** [node.static] is truthy. *)
Definition marked_static (node : ASTNode) : bool := truthy (node_static node).

(** The conditional blocks that the passes visit: all but the first. *)
Definition later_blocks {N} (e : Element N) : list (ASTIfCondition N) :=
  tail (default [] (ifConditions e)).

(** A subtree that is static all the way down, as far as the first pass
    looks: below a component with [v-pre] it does not look. *)
Inductive static_subtree (isPlatformReservedTag : string → bool) : ASTNode → Prop :=
  | static_text t :
      text_static t = Some true → static_subtree isPlatformReservedTag (ASTText t)
  | static_unvisited e :
      static e = Some true → traversed isPlatformReservedTag e = false →
      static_subtree isPlatformReservedTag (ASTElement e)
  | static_element e :
      static e = Some true → traversed isPlatformReservedTag e = true →
      Forall (static_subtree isPlatformReservedTag) (children e) →
      Forall (λ c, static_subtree isPlatformReservedTag (block c)) (later_blocks e) →
      static_subtree isPlatformReservedTag (ASTElement e).

(** Every static root that the second pass marked heads a static subtree. *)
Inductive static_roots_static (isPlatformReservedTag : string → bool) : ASTNode → Prop :=
  | srs_text t : static_roots_static isPlatformReservedTag (ASTText t)
  | srs_expression t : static_roots_static isPlatformReservedTag (ASTExpression t)
  | srs_root e :
      staticRoot e = Some true →
      static_subtree isPlatformReservedTag (ASTElement e) →
      static_roots_static isPlatformReservedTag (ASTElement e)
  | srs_inner e :
      staticRoot e = Some false →
      Forall (static_roots_static isPlatformReservedTag) (children e) →
      Forall (λ c, static_roots_static isPlatformReservedTag (block c)) (later_blocks e) →
      static_roots_static isPlatformReservedTag (ASTElement e).

(** An AST as the parser leaves it: no element has a [static] flag yet. *)
Fixpoint unmarked (node : ASTNode) : bool :=
  match node with
  | ASTElement e =>
      bool_decide (static e = None) &&
      forallb unmarked (children e) &&
      match ifConditions e with
      | Some (first :: bs) => forallb (λ c, unmarked (block c)) bs
      | _ => true
      end
  | _ => true
  end.

(** The three flags that the optimizer writes. *)
Definition mark_keys : list string := ["static"; "staticInFor"; "staticRoot"].

(** The tree without the optimizer's flags. *)
Fixpoint clear_marks (node : ASTNode) : ASTNode :=
  match node with
  | ASTElement e =>
      ASTElement
        {| tag := tag e; attrsMap := attrsMap e; parent := parent e;
           children := map clear_marks (children e);
           ifConditions :=
             match ifConditions e with
             | Some (first :: bs) =>
                 Some (first :: map (λ c, set_block c (clear_marks (block c))) bs)
             | other => other
             end;
           pre := pre e; hasBindings := hasBindings e; if_ := if_ e;
           for_ := for_ e; once := once e;
           keys := filter (λ k, k ∉ mark_keys) (keys e);
           static := None; staticInFor := None; staticRoot := None |}
  | ASTExpression t => ASTExpression {| text := text t; text_static := None |}
  | ASTText t => ASTText {| text := text t; text_static := None |}
  end.

(** ** Sample trees *)

(** The web platform's reserved tags and the built-in tags, as far as the
    samples need them. *)
Definition sample_isReservedTag (t : string) : bool :=
  bool_decide (t ∈ ["div"; "p"; "span"; "template"]).

Definition sample_isBuiltInTag (t : string) : bool :=
  bool_decide (t ∈ ["slot"; "component"]).

Definition sample_isStaticKey (k : string) : bool :=
  bool_decide (k ∈ ["type"; "tag"; "attrsList"; "attrsMap"; "plain"; "parent";
                    "children"; "attrs"; "start"; "end"; "rawAttrsMap"]).

(** [makeMap(str)] of shared/util, as the samples use it: membership in a
    comma-separated list. *)
Fixpoint split_commas (word : string) (s : string) : list string :=
  match s with
  | EmptyString => [word]
  | String c s' =>
      if Ascii.eqb c (Ascii.ascii_of_nat 44) then word :: split_commas "" s'
      else split_commas (word +:+ String c "") s'
  end.

Definition sample_makeMap (str : string) (k : string) : bool :=
  bool_decide (k ∈ split_commas "" str).

Definition sample_options : CompilerOptions :=
  {| staticKeys := Some "staticClass,staticStyle";
     isReservedTag := Some sample_isReservedTag |}.

(** What the parser leaves for [<tag>children</tag>] without attributes. *)
Definition plain_element (t : string) (cs : list ASTNode) : Element ASTNode :=
  {| tag := t; attrsMap := ∅; parent := []; children := cs;
     ifConditions := None; pre := false; hasBindings := false;
     if_ := None; for_ := None; once := false;
     keys := ["type"; "tag"; "attrsList"; "attrsMap"; "rawAttrsMap"; "parent";
              "children"; "plain"];
     static := None; staticInFor := None; staticRoot := None |}.

Definition plain_text (s : string) : ASTNode :=
  ASTText {| text := s; text_static := None |}.

Definition binding_text (s : string) : ASTNode :=
  ASTExpression {| text := s; text_static := None |}.

(** [<my-panel>{{ title }}</my-panel>]: a component with slot content. *)
Definition sample_component : Element ASTNode :=
  plain_element "my-panel" [binding_text "{{ title }}"].

(** A static [<p>] already marked by the first pass. *)
Definition marked_paragraph : Element ASTNode :=
  set_static (plain_element "p" [plain_text "a"]) true.

(** [<div v-for="i in list" v-if="a"><p>a</p></div><p v-else>a</p>], after
    the first pass. *)
Definition sample_loop : Element ASTNode :=
  {| tag := "div"; attrsMap := ∅; parent := [];
     children := [ASTElement marked_paragraph];
     ifConditions :=
       Some [ {| exp := Some "a"; block := plain_text "" |};
              {| exp := None; block := ASTElement marked_paragraph |} ];
     pre := false; hasBindings := false;
     if_ := Some "a"; for_ := Some "list"; once := false;
     keys := ["type"; "tag"; "attrsList"; "attrsMap"; "rawAttrsMap"; "parent";
              "children"; "for"; "alias"; "if"; "ifConditions"; "static"];
     static := Some false; staticInFor := None; staticRoot := None |}.

End Optimizer.

(** * The observer (core/observer/index.js, the second part of
      src/platforms/web/compiler/directives/model.js) *)

Module Observer.

(** ** Values, objects and the program state *)

(** Object identity. *)
Definition Ref := nat.

(** A JavaScript value.  Numbers are IEEE 754 doubles; a function is named
    by a number; an [Observer] instance is named by the id of its [dep]. *)
Inductive JSVal :=
  | VUndef
  | VNull
  | VBool (b : bool)
  | VNum (x : spec_float)
  | VStr (s : string)
  | VObj (r : Ref)
  | VFun (f : nat)
  | VObserver (ob : nat).

(** The double that an integer denotes. *)
Definition num (z : Z) : JSVal := VNum (binary_normalize 53 1024 z 0 false).

(** [a === b] *)
Definition strict_eq (a b : JSVal) : bool :=
  match a, b with
  | VUndef, VUndef => true
  | VNull, VNull => true
  | VBool x, VBool y => Bool.eqb x y
  | VNum x, VNum y => SFeqb x y
  | VStr x, VStr y => String.eqb x y
  | VObj x, VObj y => x =? y
  | VFun x, VFun y => x =? y
  | VObserver x, VObserver y => x =? y
  | _, _ => false
  end.

(** Truthiness, as [if (v)] and [!v] see it. *)
Definition to_boolean (v : JSVal) : bool :=
  match v with
  | VUndef | VNull => false
  | VBool b => b
  | VNum (S754_zero _) | VNum S754_nan => false
  | VNum _ => true
  | VStr s => negb (String.eqb s "")
  | VObj _ | VFun _ | VObserver _ => true
  end.

(** A property key: an array index (a canonical numeric string) or any
    other name. *)
Inductive PropKey := KeyIdx (i : nat) | KeyStr (s : string).

#[global] Instance PropKey_eq_dec : EqDecision PropKey.
Proof. solve_decision. Defined.

#[global] Instance PropKey_countable : Countable PropKey.
Proof.
  refine (inj_countable'
            (λ k, match k with KeyIdx i => inl i | KeyStr s => inr s end)
            (λ x, match x with inl i => KeyIdx i | inr s => KeyStr s end) _).
  by intros [].
Defined.

(** The functions a property descriptor can hold: user code, named by a
    number, or the accessors that [defineReactive] creates, named by the id
    of the [Dep] in their closure. *)
Inductive Getter := UserGetter (f : nat) | ReactiveGetter (c : nat).
Inductive Setter := UserSetter (f : nat) | ReactiveSetter (c : nat).

Inductive Property :=
  | DataProp (v : JSVal) (writable enumerable configurable : bool)
  | AccessorProp (get : option Getter) (set : option Setter)
                 (enumerable configurable : bool).

Definition configurable (p : Property) : bool :=
  match p with DataProp _ _ _ c => c | AccessorProp _ _ _ c => c end.

Definition enumerable (p : Property) : bool :=
  match p with DataProp _ _ e _ => e | AccessorProp _ _ e _ => e end.

Definition property_get (p : Property) : option Getter :=
  match p with DataProp _ _ _ _ => None | AccessorProp g _ _ _ => g end.

Definition property_set (p : Property) : option Setter :=
  match p with DataProp _ _ _ _ => None | AccessorProp _ s _ _ => s end.

(** What kind of object it is: decides [Array.isArray], [isPlainObject]
    (a [toString] tag of [[object Object]]) and [instanceof VNode].  A list
    holds its elements here; its [length] is not kept as a property. *)
Inductive Kind := KPlain | KArray (elems : list JSVal) | KVNode | KOther.

Record Obj := {
  props : gmap PropKey Property;
  proto : option Ref;
  kind : Kind;
  extensible : bool;
}.

(** [class Observer]. *)
Record ObserverInst := { value : Ref; dep : nat; vmCount : nat }.

(** The closure of one [defineReactive] call: its parameters and local
    variables, shared by [reactiveGetter] and [reactiveSetter]. *)
Record Cell := {
  cell_obj : Ref;
  cell_key : PropKey;
  cell_val : JSVal;
  cell_getter : option Getter;
  cell_setter : option Setter;
  cell_childOb : option nat;
  cell_shallow : bool;
  cell_customSetter : option nat;
}.

(** What the code does to its collaborators.  [EvWarnValue msg v] is a
    warning whose text is [msg] followed by [String(v)]. *)
Inductive Event :=
  | EvNotify (d : nat)
  | EvAddDep (watcher d : nat)
  | EvWarn (msg : string)
  | EvWarnValue (msg : string) (v : JSVal)
  | EvCustomSetter (f : nat).

Record World := {
  objs : gmap Ref Obj;
  observers : gmap nat ObserverInst;
  cells : gmap nat Cell;
  uid : nat;
  target : option nat;
  shouldObserve : bool;
  events : list Event;
}.

Definition set_objs (w : World) (m : gmap Ref Obj) : World :=
  {| objs := m; observers := observers w; cells := cells w; uid := uid w;
     target := target w; shouldObserve := shouldObserve w; events := events w |}.

Definition set_observers (w : World) (m : gmap nat ObserverInst) : World :=
  {| objs := objs w; observers := m; cells := cells w; uid := uid w;
     target := target w; shouldObserve := shouldObserve w; events := events w |}.

Definition set_cells (w : World) (m : gmap nat Cell) : World :=
  {| objs := objs w; observers := observers w; cells := m; uid := uid w;
     target := target w; shouldObserve := shouldObserve w; events := events w |}.

Definition set_uid (w : World) (n : nat) : World :=
  {| objs := objs w; observers := observers w; cells := cells w; uid := n;
     target := target w; shouldObserve := shouldObserve w; events := events w |}.

Definition set_events (w : World) (l : list Event) : World :=
  {| objs := objs w; observers := observers w; cells := cells w; uid := uid w;
     target := target w; shouldObserve := shouldObserve w; events := l |}.

Definition set_props (o : Obj) (m : gmap PropKey Property) : Obj :=
  {| props := m; proto := proto o; kind := kind o; extensible := extensible o |}.

Definition set_proto (o : Obj) (p : option Ref) : Obj :=
  {| props := props o; proto := p; kind := kind o; extensible := extensible o |}.

Definition set_kind (o : Obj) (k : Kind) : Obj :=
  {| props := props o; proto := proto o; kind := k; extensible := extensible o |}.

Definition set_vmCount (ob : ObserverInst) (n : nat) : ObserverInst :=
  {| value := value ob; dep := dep ob; vmCount := n |}.

Definition set_cell_val (c : Cell) (v : JSVal) : Cell :=
  {| cell_obj := cell_obj c; cell_key := cell_key c; cell_val := v;
     cell_getter := cell_getter c; cell_setter := cell_setter c;
     cell_childOb := cell_childOb c; cell_shallow := cell_shallow c;
     cell_customSetter := cell_customSetter c |}.

Definition set_cell_childOb (c : Cell) (ob : option nat) : Cell :=
  {| cell_obj := cell_obj c; cell_key := cell_key c; cell_val := cell_val c;
     cell_getter := cell_getter c; cell_setter := cell_setter c;
     cell_childOb := ob; cell_shallow := cell_shallow c;
     cell_customSetter := cell_customSetter c |}.

(** ** Computations: state, exceptions, fuel *)

(** A call returns a result and a state, or throws a [TypeError], or needs
    more fuel, or leaves what is modelled here. *)
Inductive Res (A : Type) : Type :=
  | Ok (a : A) (w : World)
  | TypeError (w : World)
  | OutOfFuel
  | Stuck.
Arguments Ok {A} a w.
Arguments TypeError {A} w.
Arguments OutOfFuel {A}.
Arguments Stuck {A}.

Definition M (A : Type) : Type := World → Res A.

Definition ret {A} (a : A) : M A := λ w, Ok a w.

Definition bind {A B} (m : M A) (k : A → M B) : M B :=
  λ w, match m w with
       | Ok a w' => k a w'
       | TypeError w' => TypeError w'
       | OutOfFuel => OutOfFuel
       | Stuck => Stuck
       end.

Notation "'let*' x := m 'in' k" := (bind m (λ x, k))
  (at level 10, x name, m at level 100, k at level 200, only parsing).

Definition throw_TypeError {A} : M A := λ w, TypeError w.
Definition out_of_fuel {A} : M A := λ _, OutOfFuel.
Definition stuck {A} : M A := λ _, Stuck.
Definition when (b : bool) (m : M unit) : M unit := if b then m else ret tt.

Definition get_obj (r : Ref) : M Obj :=
  λ w, match objs w !! r with Some o => Ok o w | None => Stuck end.

Definition put_obj (r : Ref) (o : Obj) : M unit :=
  λ w, Ok tt (set_objs w (<[r := o]> (objs w))).

Definition get_observer (ob : nat) : M ObserverInst :=
  λ w, match observers w !! ob with Some i => Ok i w | None => Stuck end.

Definition get_cell (c : nat) : M Cell :=
  λ w, match cells w !! c with Some x => Ok x w | None => Stuck end.

Definition update_cell (c : nat) (f : Cell → Cell) : M unit :=
  λ w, match cells w !! c with
       | Some x => Ok tt (set_cells w (<[c := f x]> (cells w)))
       | None => Stuck
       end.

Definition log (e : Event) : M unit :=
  λ w, Ok tt (set_events w (events w ++ [e])).

(** ** Dep, as the observer uses it (dep.js) *)

(** [new Dep()]: [this.id = uid++]. *)
Definition new_Dep : M nat :=
  λ w, Ok (uid w) (set_uid w (S (uid w))).

(** [dep.notify()] *)
Definition dep_notify (d : nat) : M unit := log (EvNotify d).

(** [dep.depend()]: [if (Dep.target) Dep.target.addDep(this)] *)
Definition dep_depend (d : nat) : M unit :=
  λ w, match target w with
       | Some t => log (EvAddDep t d) w
       | None => Ok tt w
       end.

(** [warn(msg)] of util/debug. *)
Definition warn (msg : string) : M unit := log (EvWarn msg).

(** [warn(`msg${v}`)] *)
Definition warn_value (msg : string) (v : JSVal) : M unit := log (EvWarnValue msg v).

(** ** Object primitives of the language *)

Definition isArray (o : Obj) : bool :=
  match kind o with KArray _ => true | _ => false end.

Definition isPlainObject (o : Obj) : bool :=
  match kind o with KPlain | KVNode => true | _ => false end.

Definition isVNode (o : Obj) : bool :=
  match kind o with KVNode => true | _ => false end.

Definition elems_of (o : Obj) : list JSVal :=
  match kind o with KArray l => l | _ => [] end.

(** [Object.getOwnPropertyDescriptor(o, k)]; an array element is a plain
    data property.  The [length] of a list is not among its properties
    here. *)
Definition getOwnPropertyDescriptor (o : Obj) (k : PropKey) : option Property :=
  match kind o, k with
  | KArray l, KeyIdx i =>
      match l !! i with
      | Some v => Some (DataProp v true true true)
      | None => None
      end
  | _, _ => props o !! k
  end.

(** [hasOwn(o, k)] of shared/util. *)
Definition hasOwn (o : Obj) (k : PropKey) : bool :=
  bool_decide (is_Some (getOwnPropertyDescriptor o k)).

(** [Object.keys(o)]: the enumerable own keys, the names in the order of
    the map (not that of their creation). *)
Definition keys (o : Obj) : list PropKey :=
  (KeyIdx <$> seq 0 (length (elems_of o))) ++
  (map_to_list (filter (λ kp, enumerable kp.2 = true) (props o))).*1.

(** [isValidArrayIndex(key)] of shared/util, for an index and for a name
    that is no number.  The function of shared/util parses its argument, so
    it also accepts names such as '1.0' or '01': [set] and [del] leave a list
    with a name for key out. *)
Definition isValidArrayIndex (k : PropKey) : bool :=
  match k with KeyIdx _ => true | KeyStr _ => false end.

(** [v instanceof Observer], with the instance. *)
Definition instanceof_Observer (v : JSVal) : option nat :=
  match v with VObserver ob => Some ob | _ => None end.

(** [isUndef(v)], [isPrimitive(v)], [isObject(v)] of shared/util. *)
Definition isUndef (v : JSVal) : bool :=
  match v with VUndef | VNull => true | _ => false end.

Definition isPrimitive (v : JSVal) : bool :=
  match v with VStr _ | VNum _ | VBool _ => true | _ => false end.

Definition isObject (v : JSVal) : bool :=
  match v with VObj _ | VObserver _ => true | _ => false end.

(** The property that [k] names on [r] or on its prototype chain. *)
Fixpoint find_property (n : nat) (r : Ref) (k : PropKey) : M (option Property) :=
  match n with
  | 0 => out_of_fuel
  | S n =>
      let* o := get_obj r in
      match getOwnPropertyDescriptor o k with
      | Some p => ret (Some p)
      | None =>
          match proto o with
          | Some r' => find_property n r' k
          | None => ret None
          end
      end
  end.

Arguments find_property : simpl never.

(** [k in r] *)
Definition has_property (n : nat) (r : Ref) (k : PropKey) : M bool :=
  let* p := find_property n r k in ret (bool_decide (is_Some p)).

Arguments has_property : simpl never.

(** [Object.defineProperty(r, k, p)] where [p] is configurable: refused on
    an own property that is not configurable, and on a new key when the
    object is not extensible. *)
Definition defineProperty (r : Ref) (k : PropKey) (p : Property) : M unit :=
  let* o := get_obj r in
  match kind o, k with
  | KArray _, KeyIdx _ => stuck
  | _, _ =>
      match props o !! k with
      | Some old =>
          if configurable old then put_obj r (set_props o (<[k := p]> (props o)))
          else throw_TypeError
      | None =>
          if extensible o then put_obj r (set_props o (<[k := p]> (props o)))
          else throw_TypeError
      end
  end.

(** [def(obj, key, val)] of util/lang: a writable, configurable,
    non-enumerable data property. *)
Definition def (r : Ref) (k : PropKey) (v : JSVal) : M unit :=
  defineProperty r k (DataProp v true false true).

Fixpoint for_each {A} (l : list A) (body : A → M unit) : M unit :=
  match l with
  | [] => ret tt
  | x :: l' => let* _ := body x in for_each l' body
  end.

(** ** The reactive core *)

(** The build and the surroundings of the observer:
    [process.env.NODE_ENV === 'production'], [isServerRendering()] and
    [hasProto] of util/env; the objects [arrayMethods] (observer/array.js) and
    [Object.prototype]; and what the user's accessor functions do: a getter
    computes a value from the state, a setter changes the state. *)
Record Env := {
  production : bool;
  serverRendering : bool;
  hasProto : bool;
  arrayMethods : Ref;
  objectPrototype : Ref;
  getter_sem : nat → Ref → World → JSVal;
  setter_sem : nat → Ref → JSVal → World → World;
}.

Section observer.
Variable env : Env.

(** [g.call(this)] and [s.call(this, v)] *)
Definition call_getter (reactiveGetter : nat → M JSVal) (g : Getter) (this : Ref)
    : M JSVal :=
  match g with
  | UserGetter f => λ w, Ok (getter_sem env f this w) w
  | ReactiveGetter c => reactiveGetter c
  end.

Definition call_setter (reactiveSetter : nat → JSVal → M unit) (s : Setter)
    (this : Ref) (v : JSVal) : M unit :=
  match s with
  | UserSetter f => λ w, Ok tt (setter_sem env f this v w)
  | ReactiveSetter c => reactiveSetter c v
  end.

(** [getter ? getter.call(obj) : val] in the closure of [defineReactive]. *)
Definition current_value (reactiveGetter : nat → M JSVal) (cell : Cell) : M JSVal :=
  match cell_getter cell with
  | Some g => call_getter reactiveGetter g (cell_obj cell)
  | None => ret (cell_val cell)
  end.

(** [newVal === value || (newVal !== newVal && value !== value)] *)
Definition same_value (newVal value : JSVal) : bool :=
  strict_eq newVal value ||
  (negb (strict_eq newVal newVal) && negb (strict_eq value value)).

(** [target.__proto__ = src] *)
Definition protoAugment (target src : Ref) : M unit :=
  let* o := get_obj target in put_obj target (set_proto o (Some src)).

(** [Observer.prototype.walk] and [observeArray], over the functions they
    call back. *)
Definition walk (defineReactive : Ref → PropKey → M unit) (obj : Ref) : M unit :=
  let* o := get_obj obj in
  for_each (keys o) (λ k, defineReactive obj k).

Definition observeArray (observe : JSVal → M (option nat)) (items : Ref) : M unit :=
  let* o := get_obj items in
  for_each (seq 0 (length (elems_of o)))
    (λ i, let* o := get_obj items in
          let* _ := observe (default VUndef (elems_of o !! i)) in ret tt).

(** [new Observer(value)].  Of the two ways to augment a list only
    [protoAugment] is modelled; [copyAugment], for engines without
    [__proto__], is left out. *)
Definition Observer_new (observe : JSVal → M (option nat))
    (defineReactive : Ref → PropKey → M unit) (value : Ref) : M nat :=
  let* d := new_Dep in
  let* _ := (λ w, Ok tt (set_observers w
               (<[d := {| value := value; dep := d; vmCount := 0 |}]> (observers w)))) in
  let* _ := def value (KeyStr "__ob__") (VObserver d) in
  let* o := get_obj value in
  if isArray o then
    let* _ := (if (hasProto env) then protoAugment value (arrayMethods env) else stuck) in
    let* _ := observeArray observe value in ret d
  else
    let* _ := walk defineReactive value in ret d.

(** [v[k]] for any value [v]: a primitive has none of the keys read here. *)
Definition get_member (get : Ref → PropKey → M JSVal) (v : JSVal) (k : PropKey)
    : M JSVal :=
  match v with
  | VObj r => get r k
  | VUndef | VNull => throw_TypeError
  | VObserver _ | VFun _ => stuck
  | _ => ret VUndef
  end.

(** Reading a property: [r[k]], the accessor that [defineReactive]
    installs, and [dependArray]. *)
Fixpoint get (n : nat) (r : Ref) (k : PropKey) {struct n} : M JSVal :=
  match n with
  | 0 => out_of_fuel
  | S n =>
      let* p := find_property (S n) r k in
      match p with
      | Some (DataProp v _ _ _) => ret v
      | Some (AccessorProp (Some g) _ _ _) => call_getter (reactiveGetter n) g r
      | Some (AccessorProp None _ _ _) => ret VUndef
      | None => ret VUndef
      end
  end

with reactiveGetter (n : nat) (c : nat) {struct n} : M JSVal :=
  match n with
  | 0 => out_of_fuel
  | S n =>
      let* cell := get_cell c in
      let* value := current_value (reactiveGetter n) cell in
      let* t := (λ w, Ok (target w) w) in
      let* _ :=
        match t with
        | Some _ =>
            let* _ := dep_depend c in
            let* cell := get_cell c in
            match cell_childOb cell with
            | Some ob =>
                let* inst := get_observer ob in
                let* _ := dep_depend (dep inst) in
                match value with
                | VObj r =>
                    let* o := get_obj r in
                    if isArray o then dependArray n r else ret tt
                | _ => ret tt
                end
            | None => ret tt
            end
        | None => ret tt
        end in
      ret value
  end

with dependArray (n : nat) (value : Ref) {struct n} : M unit :=
  match n with
  | 0 => out_of_fuel
  | S n =>
      let* o := get_obj value in
      for_each (seq 0 (length (elems_of o)))
        (λ i, let* o := get_obj value in
              let e := default VUndef (elems_of o !! i) in
              let* _ :=
                if to_boolean e then
                  let* ob := get_member (get n) e (KeyStr "__ob__") in
                  match ob with
                  | VObserver i => let* inst := get_observer i in dep_depend (dep inst)
                  | _ => if to_boolean ob then stuck else ret tt
                  end
                else ret tt in
              match e with
              | VObj r =>
                  let* o' := get_obj r in
                  if isArray o' then dependArray n r else ret tt
              | _ => ret tt
              end)
  end.

Fixpoint observe (n : nat) (v : JSVal) (asRootData : bool) {struct n}
    : M (option nat) :=
  match n with
  | 0 => out_of_fuel
  | S n =>
      match v with
      | VObj r =>
          let* o := get_obj r in
          if isVNode o then ret None else
          let* cur := (if hasOwn o (KeyStr "__ob__")
                       then get n r (KeyStr "__ob__") else ret VUndef) in
          let* ob :=
            match instanceof_Observer cur with
            | Some ob => ret (Some ob)
            | None =>
                let* should := (λ w, Ok (shouldObserve w) w) in
                if should && negb (serverRendering env) &&
                   (isArray o || isPlainObject o) && extensible o
                then
                  let* isVue := get n r (KeyStr "_isVue") in
                  if to_boolean isVue then ret None
                  else
                    let* ob := Observer_new (λ v, observe n v false)
                                 (λ obj k, defineReactive n obj k None None false) r in
                    ret (Some ob)
                else ret None
            end in
          match ob with
          | Some i =>
              if asRootData then
                let* inst := get_observer i in
                let* _ := (λ w, Ok tt (set_observers w
                             (<[i := set_vmCount inst (S (vmCount inst))]> (observers w)))) in
                ret ob
              else ret ob
          | None => ret ob
          end
      | VObserver _ => stuck
      | _ => ret None
      end
  end

with defineReactive (n : nat) (obj : Ref) (key : PropKey) (val : option JSVal)
    (customSetter : option nat) (shallow : bool) {struct n} : M unit :=
  match n with
  | 0 => out_of_fuel
  | S n =>
      let* d := new_Dep in
      let* o := get_obj obj in
      let property := getOwnPropertyDescriptor o key in
      if bool_decide (configurable <$> property = Some false) then ret tt else
      let getter := property ≫= property_get in
      let setter := property ≫= property_set in
      let* val :=
        match val with
        | Some v => ret v
        | None =>
            if negb (bool_decide (is_Some getter)) || bool_decide (is_Some setter)
            then get n obj key else ret VUndef
        end in
      let* childOb := (if shallow then ret None else observe n val false) in
      let* _ := defineProperty obj key
                  (AccessorProp (Some (ReactiveGetter d)) (Some (ReactiveSetter d))
                                true true) in
      λ w, Ok tt (set_cells w
                    (<[d := {| cell_obj := obj; cell_key := key; cell_val := val;
                               cell_getter := getter; cell_setter := setter;
                               cell_childOb := childOb; cell_shallow := shallow;
                               cell_customSetter := customSetter |}]> (cells w)))
  end.

Fixpoint reactiveSetter (n : nat) (c : nat) (newVal : JSVal) {struct n} : M unit :=
  match n with
  | 0 => out_of_fuel
  | S n =>
      let* cell := get_cell c in
      let* value := current_value (reactiveGetter n) cell in
      if same_value newVal value then ret tt else
      let* _ :=
        match cell_customSetter cell with
        | Some f => when (negb (production env)) (log (EvCustomSetter f))
        | None => ret tt
        end in
      if bool_decide (is_Some (cell_getter cell)) &&
         negb (bool_decide (is_Some (cell_setter cell)))
      then ret tt else
      let* _ :=
        match cell_setter cell with
        | Some s => call_setter (reactiveSetter n) s (cell_obj cell) newVal
        | None => update_cell c (λ x, set_cell_val x newVal)
        end in
      let* childOb := (if cell_shallow cell then ret None else observe n newVal false) in
      let* _ := update_cell c (λ x, set_cell_childOb x childOb) in
      dep_notify c
  end.

(** [r[k] = v] in strict code. *)
Definition assign (n : nat) (r : Ref) (k : PropKey) (v : JSVal) : M unit :=
  let* o := get_obj r in
  match kind o, k with
  | KArray l, KeyIdx i =>
      if i <? length l then put_obj r (set_kind o (KArray (<[i := v]> l)))
      else stuck
  | _, _ =>
      let* p := find_property n r k in
      match p with
      | Some (AccessorProp _ (Some s) _ _) => call_setter (reactiveSetter n) s r v
      | Some (AccessorProp _ None _ _) => throw_TypeError
      | Some (DataProp _ false _ _) => throw_TypeError
      | Some (DataProp _ true e c) =>
          match props o !! k with
          | Some _ => put_obj r (set_props o (<[k := DataProp v true e c]> (props o)))
          | None =>
              if extensible o
              then put_obj r (set_props o (<[k := DataProp v true true true]> (props o)))
              else throw_TypeError
          end
      | None =>
          if extensible o
          then put_obj r (set_props o (<[k := DataProp v true true true]> (props o)))
          else throw_TypeError
      end
  end.

(** Modelled from the spec: the intercepted [splice] of an observed list
    (observer/array.js is not part of the sources), which after the
    underlying mutation observes the inserted elements and notifies the
    wrapper's whole-object Dependency.  The list dispatches to it when its
    prototype is [arrayMethods env]. *)
Definition splice_interceptor (n : nat) (r : Ref) (inserted : JSVal) : M unit :=
  let* ob := get n r (KeyStr "__ob__") in
  match ob with
  | VObserver i =>
      let* inst := get_observer i in
      let* _ := observe n inserted false in
      dep_notify (dep inst)
  | _ => stuck
  end.

(** [target.length = Math.max(target.length, key); target.splice(key, 1, val)] *)
Definition splice_at (l : list JSVal) (i : nat) (v : JSVal) : list JSVal :=
  if i <? length l then <[i := v]> l
  else l ++ replicate (i - length l) VUndef ++ [v].

(** The warnings of [set]: for a target that is no object (the target
    follows the text), and on a Vue instance or on root data. *)
Definition set_target_warning : string :=
  "Cannot set reactive property on undefined, null, or primitive value: ".

Definition root_warning : string :=
  "Avoid adding reactive properties to a Vue instance or its root $data at runtime - declare it upfront in the data option.".

(** [set(target, key, val)].  A list with a name for key is left out
    ([stuck]): there the code depends on how [isValidArrayIndex] parses the
    name and on the list's own [length]. *)
Definition set (n : nat) (target : JSVal) (key : PropKey) (val : JSVal) : M JSVal :=
  let* _ := when (negb (production env) && (isUndef target || isPrimitive target))
              (warn_value set_target_warning target) in
  match target with
  | VObj r =>
      let* o := get_obj r in
      if isArray o && isValidArrayIndex key then
        match key with
        | KeyIdx i =>
            let* _ := put_obj r (set_kind o (KArray (splice_at (elems_of o) i val))) in
            let* _ := (if bool_decide (proto o = Some (arrayMethods env))
                       then splice_interceptor n r val else ret tt) in
            ret val
        | KeyStr _ => stuck
        end
      else if isArray o then stuck
      else
      let* in_target := has_property n r key in
      let* in_Object_prototype :=
        (if in_target then has_property n (objectPrototype env) key else ret false) in
      if in_target && negb in_Object_prototype then
        let* _ := assign n r key val in ret val
      else
      let* ob := get n r (KeyStr "__ob__") in
      let* isVue := get n r (KeyStr "_isVue") in
      let* inst :=
        if to_boolean isVue then ret None else
        match ob with
        | VObserver i => let* inst := get_observer i in ret (Some inst)
        | _ => if to_boolean ob then stuck else ret None
        end in
      if to_boolean isVue ||
         match inst with Some i => negb (vmCount i =? 0) | None => false end
      then
        let* _ := when (negb (production env))
                    (warn root_warning) in
        ret val
      else
      match inst with
      | None => let* _ := assign n r key val in ret val
      | Some i =>
          let* _ := defineReactive n (value i) key (Some val) None false in
          let* _ := dep_notify (dep i) in
          ret val
      end
  | VObserver _ | VFun _ => stuck
  | _ => throw_TypeError
  end.
End observer.

(** ** Switching observation off, and deleting a property *)

Definition set_shouldObserve (w : World) (b : bool) : World :=
  {| objs := objs w; observers := observers w; cells := cells w; uid := uid w;
     target := target w; shouldObserve := b; events := events w |}.

(** [toggleObserving(value)] *)
Definition toggleObserving (value : bool) : M unit :=
  λ w, Ok tt (set_shouldObserve w value).

(** [delete r[k]] in strict code: refused on an own property that is not
    configurable.  An element of a list is not deleted this way here. *)
Definition delete_property (r : Ref) (k : PropKey) : M unit :=
  let* o := get_obj r in
  match kind o, k with
  | KArray _, KeyIdx _ => stuck
  | _, _ =>
      match props o !! k with
      | Some p =>
          if configurable p then put_obj r (set_props o (delete k (props o)))
          else throw_TypeError
      | None => ret tt
      end
  end.

(** [l.splice(i, 1)] *)
Definition splice_out (l : list JSVal) (i : nat) : list JSVal :=
  take i l ++ drop (S i) l.

(** The warnings of [del]: for a target that is no object (the target
    follows the text), and on a Vue instance or on root data. *)
Definition del_target_warning : string :=
  "Cannot delete reactive property on undefined, null, or primitive value: ".

Definition del_warning : string :=
  "Avoid deleting properties on a Vue instance or its root $data - just set it to null.".

Section deletion.
Variable env : Env.

(** Modelled from the spec: the intercepted [splice] of an observed list
    (observer/array.js is not part of the sources) with nothing inserted
    notifies the wrapper's whole-object Dependency after the mutation. *)
Definition splice_removal_interceptor (n : nat) (r : Ref) : M unit :=
  let* ob := get env n r (KeyStr "__ob__") in
  match ob with
  | VObserver i => let* inst := get_observer i in dep_notify (dep inst)
  | _ => stuck
  end.

(** [del(target, key)]; a list with a name for key is left out, as in
    [set]. *)
Definition del (n : nat) (target : JSVal) (key : PropKey) : M unit :=
  let* _ := when (negb (production env) && (isUndef target || isPrimitive target))
              (warn_value del_target_warning target) in
  match target with
  | VObj r =>
      let* o := get_obj r in
      if isArray o && isValidArrayIndex key then
        match key with
        | KeyIdx i =>
            let* _ := put_obj r (set_kind o (KArray (splice_out (elems_of o) i))) in
            if bool_decide (proto o = Some (arrayMethods env))
            then splice_removal_interceptor n r else ret tt
        | KeyStr _ => stuck
        end
      else if isArray o then stuck
      else
      let* ob := get env n r (KeyStr "__ob__") in
      let* isVue := get env n r (KeyStr "_isVue") in
      let* inst :=
        if to_boolean isVue then ret None else
        match ob with
        | VObserver i => let* inst := get_observer i in ret (Some inst)
        | _ => if to_boolean ob then stuck else ret None
        end in
      if to_boolean isVue ||
         match inst with Some i => negb (vmCount i =? 0) | None => false end
      then when (negb (production env)) (warn del_warning)
      else
      let* o := get_obj r in
      if negb (hasOwn o key) then ret tt else
      let* _ := delete_property r key in
      match inst with
      | None => ret tt
      | Some i => dep_notify (dep i)
      end
  | VUndef | VNull => throw_TypeError
  | VBool _ | VNum _ => ret tt
  | VStr _ | VObserver _ | VFun _ => stuck
  end.
End deletion.
(** ** Notions for the statements *)

Definition ob_key : PropKey := KeyStr "__ob__".

(** The object carries the wrapper [i], as [def] attaches it. *)
Definition marked_with (i : nat) (o : Obj) : Prop :=
  ∃ wr en cf, props o !! ob_key = Some (DataProp (VObserver i) wr en cf).

Definition marked (o : Obj) : Prop := ∃ i, marked_with i o.

(** The value is an object that is no VNode and carries the wrapper [i],
    an instance that exists. *)
Definition carries (i : nat) (v : JSVal) (w : World) : Prop :=
  ∃ r o, v = VObj r ∧ objs w !! r = Some o ∧ isVNode o = false ∧
         marked_with i o ∧ is_Some (observers w !! i).

(** The value's own [__ob__], when it has one, is a data property, and an
    Observer held there exists. *)
Definition data_ob (v : JSVal) (w : World) : Prop :=
  ∀ r o p, v = VObj r → objs w !! r = Some o → props o !! ob_key = Some p →
           ∃ x wr en cf, p = DataProp x wr en cf ∧
             ∀ i, x = VObserver i → is_Some (observers w !! i).

(** Two states that differ in the events only, or in the Observer
    instances only. *)
Definition events_only (w w' : World) : Prop := w' = set_events w (events w').

Definition observers_only (w w' : World) : Prop :=
  w' = set_observers w (observers w').

(** What every call keeps: ids are only handed out, closures below the id
    counter stay as they are, and no Observer instance disappears. *)
Definition grows (w w' : World) : Prop :=
  uid w ≤ uid w' ∧
  (∀ c, c < uid w → cells w' !! c = cells w !! c) ∧
  (∀ i, is_Some (observers w !! i) → is_Some (observers w' !! i)).

(** What [observe] keeps: an object that carries a wrapper is not touched. *)
Definition frame_observe (w w' : World) : Prop :=
  grows w w' ∧ ∀ r o, objs w !! r = Some o → marked o → objs w' !! r = Some o.

(** What [defineReactive(obj, key)] keeps for a key other than [__ob__]:
    the other wrapped objects, and on [obj] the wrapper, the kind and
    the extensibility. *)
Definition frame_define (obj : Ref) (w w' : World) : Prop :=
  grows w w' ∧
  (∀ r o, r ≠ obj → objs w !! r = Some o → marked o → objs w' !! r = Some o) ∧
  (∀ o, objs w !! obj = Some o → marked o →
        ∃ o', objs w' !! obj = Some o' ∧ props o' !! ob_key = props o !! ob_key ∧
              kind o' = kind o ∧ extensible o' = extensible o).

(** The steps of [reactiveSetter] after the comparison: [customSetter()],
    the write, the observation of the new value, and the state after
    [childOb] is set and [dep.notify()] is called. *)
Definition custom_logged (env : Env) (cell : Cell) (w : World) : World :=
  match cell_customSetter cell with
  | Some f => if production env then w else set_events w (events w ++ [EvCustomSetter f])
  | None => w
  end.

Definition store_step (env : Env) (n c : nat) (cell : Cell) (newVal : JSVal) : M unit :=
  match cell_setter cell with
  | Some s => call_setter env (reactiveSetter env n) s (cell_obj cell) newVal
  | None => update_cell c (λ x, set_cell_val x newVal)
  end.

Definition reobserve (env : Env) (n : nat) (cell : Cell) (newVal : JSVal)
    : M (option nat) :=
  if cell_shallow cell then ret None else observe env n newVal false.

Definition notified (c : nat) (cell : Cell) (childOb : option nat) (w : World) : World :=
  set_events (set_cells w (<[c := set_cell_childOb cell childOb]> (cells w)))
             (events w ++ [EvNotify c]).

(** [m'] does what [m] does wherever [m] has fuel enough. *)
Definition refines {A} (m m' : M A) : Prop :=
  ∀ w, m w = OutOfFuel ∨ m' w = m w.

(** The closure and the accessor that [set] installs for a new key. *)
Definition new_cell (r : Ref) (key : PropKey) (val : JSVal) (childOb : option nat) : Cell :=
  {| cell_obj := r; cell_key := key; cell_val := val; cell_getter := None;
     cell_setter := None; cell_childOb := childOb; cell_shallow := false;
     cell_customSetter := None |}.

Definition reactive_accessor (d : nat) : Property :=
  AccessorProp (Some (ReactiveGetter d)) (Some (ReactiveSetter d)) true true.



(** ** Sample states *)

(** A development build in a browser; user getter 0 reads 1, and user
    setters do nothing. *)
Definition sample_env : Env :=
  {| production := false; serverRendering := false; hasProto := true;
     arrayMethods := 1; objectPrototype := 0;
     getter_sem := λ _ _ _, num 1;
     setter_sem := λ _ _ _ w, w |}.

Definition data (v : JSVal) : Property := DataProp v true true true.
Definition method (f : nat) : Property := DataProp (VFun f) true false true.

Definition plain_object (ps : list (PropKey * Property)) (p : option Ref) : Obj :=
  {| props := list_to_map ps; proto := p; kind := KPlain; extensible := true |}.

(** Object 0 is [Object.prototype] and object 1 is [arrayMethods].
    Object 10 is [{ a: 1, get b() { .. } }] and inherits [x] from object 11;
    object 12 is [{ a: 1 }]; object 13 has a property [fixed] that is not
    configurable. *)
Definition initial_world : World :=
  {| objs :=
       list_to_map
         [ (0, plain_object [ (KeyStr "constructor", method 0);
                              (KeyStr "toString", method 1);
                              (KeyStr "hasOwnProperty", method 2);
                              (KeyStr "valueOf", method 3) ] None);
           (1, plain_object [ (KeyStr "push", method 4);
                              (KeyStr "splice", method 5) ] (Some 0));
           (10, plain_object
                  [ (KeyStr "a", data (num 1));
                    (KeyStr "b", AccessorProp (Some (UserGetter 0)) None true true) ]
                  (Some 11));
           (11, plain_object [ (KeyStr "x", data (num 0)) ] (Some 0));
           (12, plain_object [ (KeyStr "a", data (num 1)) ] (Some 0));
           (13, plain_object [ (KeyStr "fixed", DataProp (num 1) true true false) ]
                  (Some 0)) ];
     observers := ∅; cells := ∅; uid := 0; target := None;
     shouldObserve := true; events := [] |}.

Definition run {A} (m : M A) (w : World) : World :=
  match m w with Ok _ w' => w' | _ => w end.

(** After [observe(object 10)] and [observe(object 12, true)]. *)
Definition sample_world : World :=
  Eval vm_compute in
    run (observe sample_env 8 (VObj 12) true)
        (run (observe sample_env 8 (VObj 10) false) initial_world).



End Observer.

(** * Event listeners (src/unnamed/part_000: vdom/helpers/update-listeners.js) *)

Module Listeners.

(** ** normalizeEvent *)

(** [{ name, once, capture, passive }] *)
Record NormalizedEvent := {
  name : string;
  once : bool;
  capture : bool;
  passive : bool;
}.

(** [name.charAt(0) === c] and [name.slice(1)] *)
Definition charAt0_is (c : Ascii.ascii) (s : string) : bool :=
  match s with
  | String a _ => Ascii.eqb a c
  | EmptyString => false
  end.

Definition slice1 (s : string) : string :=
  match s with
  | String _ s' => s'
  | EmptyString => EmptyString
  end.

(** The characters '&', '~' and '!'. *)
Definition amp : Ascii.ascii := Ascii.ascii_of_nat 38.
Definition tilde : Ascii.ascii := Ascii.ascii_of_nat 126.
Definition bang : Ascii.ascii := Ascii.ascii_of_nat 33.

(** The function under [cached]: the cache returns the same result for the
    same name. *)
Definition normalizeEvent (name : string) : NormalizedEvent :=
  let passive := charAt0_is amp name in
  let name := if passive then slice1 name else name in
  let once := charAt0_is tilde name in
  let name := if once then slice1 name else name in
  let capture := charAt0_is bang name in
  let name := if capture then slice1 name else name in
  {| name := name; once := once; capture := capture; passive := passive |}.

(** The name that carries the markers of an event: '&' before '~' before
    '!'. *)
Definition marked_name (e : NormalizedEvent) : string :=
  (if passive e then String amp "" else "") +:+
  (if once e then String tilde "" else "") +:+
  (if capture e then String bang "" else "") +:+ name e.

(** ** Values and objects, as far as this file looks at them *)

(** undefined, null, another primitive, or a reference to an object. *)
Inductive Val :=
  | VUndef
  | VNull
  | VPrim (p : nat)
  | VRef (r : nat).

#[global] Instance Val_eq_dec : EqDecision Val.
Proof. solve_decision. Defined.

(** What an object is: a function, an invoker made by [createFnInvoker], an
    array, a plain object (Weex passes [{ handler, params }]), or another
    object. *)
Inductive Shape :=
  | SFunction
  | SInvoker
  | SArray (elems : list Val)
  | SPlain (handler params : Val)
  | SOther.

(** An object with its [fns] property, [VUndef] when it has none. *)
Record HObj := { shape : Shape; fns : Val }.

(** The calls to the functions passed in ([add], [remove]) and to [warn], in
    the order they are made.  These functions are taken to leave the listener
    objects and the [fns] of the handlers as they are. *)
Inductive Call :=
  | Add (name : string) (handler : Val) (capture passive : bool) (params : Val)
  | Remove (name : string) (handler : Val) (capture : bool)
  | Warn (msg : string).

(** The objects, the [params] that earlier calls stored on the cached event
    objects, and the calls made. *)
Record State := {
  heap : gmap nat HObj;
  event_params : gmap string Val;
  calls : list Call;
}.

Definition set_heap (s : State) (h : gmap nat HObj) : State :=
  {| heap := h; event_params := event_params s; calls := calls s |}.

Definition set_event_params (s : State) (m : gmap string Val) : State :=
  {| heap := heap s; event_params := m; calls := calls s |}.

Definition log (c : Call) (s : State) : State :=
  {| heap := heap s; event_params := event_params s; calls := calls s ++ [c] |}.

(** [isUndef(v)] and [isTrue(v)] of shared/util. *)
Definition isUndef (v : Val) : bool :=
  match v with VUndef | VNull => true | _ => false end.

(** [v.fns] for a value that is not [undefined] or [null]. *)
Definition fns_of (s : State) (v : Val) : Val :=
  match v with
  | VRef r => match heap s !! r with Some o => fns o | None => VUndef end
  | _ => VUndef
  end.

(** [isPlainObject(v)] of shared/util. *)
Definition plain_object (s : State) (v : Val) : option (Val * Val) :=
  match v with
  | VRef r =>
      match heap s !! r with
      | Some {| shape := SPlain h p |} => Some (h, p)
      | _ => None
      end
  | _ => None
  end.

(** [Array.isArray(v)], with the elements. *)
Definition array_elems (s : State) (v : Val) : option (list Val) :=
  match v with
  | VRef r =>
      match heap s !! r with
      | Some {| shape := SArray elems |} => Some elems
      | _ => None
      end
  | _ => None
  end.

(** [String(v)] for [undefined] and [null]. *)
Definition String_of_undef (v : Val) : string :=
  match v with VNull => "null" | _ => "undefined" end.

(** An object of listeners: its own properties, all enumerable, in the
    order of [for (name in on)].  [on] and [oldOn] are two objects. *)
Definition Listeners := list (string * Val).

(** The own property [name], undefined when there is none. *)
Fixpoint prop (on : Listeners) (name : string) : Val :=
  match on with
  | [] => VUndef
  | (k, v) :: on' => if String.eqb k name then v else prop on' name
  end.

(** [on[name] = v] for a property that exists. *)
Fixpoint assign (on : Listeners) (name : string) (v : Val) : Listeners :=
  match on with
  | [] => []
  | (k, x) :: on' =>
      if String.eqb k name then (k, v) :: on' else (k, x) :: assign on' name v
  end.

(** ** createFnInvoker *)

(** [createFnInvoker(fns, vm)]: a new function object whose [fns] property
    is [fns]. *)
Definition createFnInvoker (fns0 : Val) (s : State) : Val * State :=
  let r := fresh (dom (heap s)) in
  (VRef r, set_heap s (<[r := {| shape := SInvoker; fns := fns0 |}]> (heap s))).

(** What a call returns or throws, with the state it leaves. *)
Inductive Outcome (A : Type) : Type :=
  | Returned (a : A) (s : State)
  | Raised (s : State).
Arguments Returned {A} a s.
Arguments Raised {A} s.

Section invoker.
(** [invokeWithErrorHandling(handler, null, arguments, vm, 'v-on handler')]
    of core/util, for the arguments of the call at hand. *)
Variable invokeWithErrorHandling : Val → State → Outcome Val.

(** [for (let i = 0; i < cloned.length; i++) invokeWithErrorHandling(cloned[i], ..)];
    the first component records the handlers that were invoked. *)
Fixpoint invoke_all (cloned : list Val) (s : State) : list Val * Outcome Val :=
  match cloned with
  | [] => ([], Returned VUndef s)
  | h :: cloned' =>
      match invokeWithErrorHandling h s with
      | Returned _ s' =>
          let '(invoked, out) := invoke_all cloned' s' in (h :: invoked, out)
      | Raised s' => ([h], Raised s')
      end
  end.

(** A call of the invoker [r]. *)
Definition invoker (r : nat) (s : State) : list Val * Outcome Val :=
  let fns := fns_of s (VRef r) in
  match array_elems s fns with
  | Some cloned => invoke_all cloned s
  | None => ([fns], invokeWithErrorHandling fns s)
  end.
End invoker.

(** ** updateListeners *)

Section updateListeners.
(** [__WEEX__] and [process.env.NODE_ENV === 'production']. *)
Variable weex : bool.
Variable production : bool.
(** The [createOnceHandler] passed in, as far as its result goes. *)
Variable createOnceHandler : string → Val → bool → Val.
(** What [on] and [oldOn] inherit: the properties of Object.prototype
    ([constructor], [toString], [valueOf], ...), none of them enumerable. *)
Variable inherited : Listeners.

(** [o[name]]: the own property, or else the inherited one. *)
Definition member (o : Listeners) (name0 : string) : Val :=
  if bool_decide (name0 ∈ o.*1) then prop o name0 else prop inherited name0.

(** The double quote character. *)
Definition dquote : string := String (Ascii.ascii_of_nat 34) "".

Definition invalid_handler (event_name : string) (cur : Val) : string :=
  "Invalid handler for event " +:+ dquote +:+ event_name +:+ dquote +:+ ": got " +:+
  String_of_undef cur.

(** A failed run: [old.fns = cur] on a primitive throws a TypeError. *)
Inductive Result :=
  | Done (on : Listeners) (s : State)
  | TypeError (on : Listeners) (s : State).

(** The body of [for (name in on)]. *)
Definition update_one (oldOn : Listeners) (name0 : string) (on : Listeners) (s : State)
    : Result :=
  let def := member on name0 in
  let old := member oldOn name0 in
  let event := normalizeEvent name0 in
  let '(cur, s) :=
    match (if weex then plain_object s def else None) with
    | Some (h, p) => (h, set_event_params s (<[name0 := p]> (event_params s)))
    | None => (def, s)
    end in
  if isUndef cur then
    Done on (if production then s else log (Warn (invalid_handler (name event) cur)) s)
  else if isUndef old then
    let '(cur, on, s) :=
      if isUndef (fns_of s cur) then
        let '(inv, s') := createFnInvoker cur s in (inv, assign on name0 inv, s')
      else (cur, on, s) in
    let '(cur, on) :=
      if once event then
        let h := createOnceHandler (name event) cur (capture event) in
        (h, assign on name0 h)
      else (cur, on) in
    Done on (log (Add (name event) cur (capture event) (passive event)
                    (default VUndef (event_params s !! name0))) s)
  else if bool_decide (cur ≠ old) then
    match old with
    | VRef r =>
        let o := default {| shape := SOther; fns := VUndef |} (heap s !! r) in
        Done (assign on name0 old)
             (set_heap s (<[r := {| shape := shape o; fns := cur |}]> (heap s)))
    | _ => TypeError on s
    end
  else Done on s.

Fixpoint update_all (oldOn : Listeners) (names : list string) (on : Listeners) (s : State)
    : Result :=
  match names with
  | [] => Done on s
  | name0 :: names' =>
      match update_one oldOn name0 on s with
      | Done on' s' => update_all oldOn names' on' s'
      | TypeError on' s' => TypeError on' s'
      end
  end.

(** The body of [for (name in oldOn)]. *)
Definition remove_one (on oldOn : Listeners) (name0 : string) (s : State) : State :=
  if isUndef (member on name0) then
    let event := normalizeEvent name0 in
    log (Remove (name event) (member oldOn name0) (capture event)) s
  else s.

(** What is registered for a new listener whose handler was wrapped in the
    invoker [r]: the invoker, or the once-handler made of it. *)
Definition registered (name0 : string) (r : nat) : Val :=
  let event := normalizeEvent name0 in
  if once event then createOnceHandler (name event) (VRef r) (capture event)
  else VRef r.

Definition updateListeners (on oldOn : Listeners) (s : State) : Result :=
  match update_all oldOn on.*1 on s with
  | Done on' s' => Done on' (foldl (λ s name0, remove_one on' oldOn name0 s) s' oldOn.*1)
  | TypeError on' s' => TypeError on' s'
  end.
End updateListeners.

(** ** Sample listeners *)

(** Two handler functions (0 and 1), an array of both (2), two invokers
    from an earlier run (3 for the function 0, 4 for the function 1), and
    the functions [Object] (5) and [Object.prototype.toString] (6). *)
Definition sample_state : State :=
  {| heap := list_to_map
       [(0, {| shape := SFunction; fns := VUndef |});
        (1, {| shape := SFunction; fns := VUndef |});
        (2, {| shape := SArray [VRef 0; VRef 1]; fns := VUndef |});
        (3, {| shape := SInvoker; fns := VRef 0 |});
        (4, {| shape := SInvoker; fns := VRef 1 |});
        (5, {| shape := SFunction; fns := VUndef |});
        (6, {| shape := SFunction; fns := VUndef |})];
     event_params := ∅;
     calls := [] |}.

(** [{ click: f0, '~!focus': f1 }], the same names with the array and the
    other function, and the listeners kept by an earlier run. *)
Definition sample_on : Listeners := [("click", VRef 0); ("~!focus", VRef 1)].
Definition sample_on2 : Listeners := [("click", VRef 2); ("~!focus", VRef 0)].
Definition sample_oldOn : Listeners := [("click", VRef 3); ("~!focus", VRef 4)].

(** What a plain object inherits, as far as the samples go. *)
Definition sample_inherited : Listeners := [("constructor", VRef 5); ("toString", VRef 6)].

(** A [createOnceHandler] that answers with a function of its own. *)
Definition sample_createOnceHandler (_ : string) (h : Val) (_ : bool) : Val :=
  match h with VRef r => VRef (r + 100) | _ => h end.

(** Handlers that return their own reference and leave everything as it is. *)
Definition sample_invoke (h : Val) (s : State) : Outcome Val := Returned h s.

End Listeners.

(** * Namespaces of vnodes (src/core/vdom/create-element.js) *)

Module CreateElement.

(** A vnode, with the fields [applyNS] reads or writes: [tag] and [ns]
    ([None] for undefined) and [children] ([None] for undefined).  Vnodes
    form a tree: no vnode object occurs twice in it. *)
Inductive VNode :=
  mkVNode (tag : option string) (ns : option string) (children : option (list VNode)).

Definition tag (v : VNode) : option string := let 'mkVNode t _ _ := v in t.
Definition ns (v : VNode) : option string := let 'mkVNode _ n _ := v in n.
Definition children (v : VNode) : option (list VNode) := let 'mkVNode _ _ c := v in c.

(** [isDef], [isUndef] of shared/util, on a field. *)
Definition isDef {A} (x : option A) : bool := match x with Some _ => true | None => false end.
Definition isUndef {A} (x : option A) : bool := negb (isDef x).

Definition tag_is (v : VNode) (t : string) : bool := bool_decide (tag v = Some t).

(** [isDef(child.tag) && (isUndef(child.ns) || (isTrue(force) && child.tag !== 'svg'))] *)
Definition descends (child : VNode) (force : bool) : bool :=
  isDef (tag child) && (isUndef (ns child) || (force && negb (tag_is child "svg"))).

(** [applyNS(vnode, ns, force)]; [force] is [true] or undefined ([false]).
    The vnode after the call. *)
Fixpoint applyNS (vnode : VNode) (ns0 : option string) (force : bool) : VNode :=
  match vnode with
  | mkVNode t _ cs =>
      let foreign := bool_decide (t = Some "foreignObject") in
      let ns1 := if foreign then None else ns0 in
      let force1 := if foreign then true else force in
      mkVNode t ns0
        (match cs with
         | Some cs =>
             Some (map (λ child,
                          if descends child force1 then applyNS child ns1 force1
                          else child) cs)
         | None => None
         end)
  end.

(** ** Notions for the statements *)

Section VNode_induction.
Variable P : VNode → Prop.
Hypothesis step : ∀ t n cs, Forall P (default [] cs) → P (mkVNode t n cs).

Fixpoint VNode_induction (v : VNode) : P v :=
  match v with
  | mkVNode t n cs =>
      step t n cs
        (match cs as o return Forall P (default [] o) with
         | Some l0 =>
             (fix go (l : list VNode) : Forall P l :=
                match l with
                | [] => @List.Forall_nil _ P
                | c :: l' => @List.Forall_cons _ P c l' (VNode_induction c) (go l')
                end) l0
         | None => @List.Forall_nil _ P
         end)
  end.
End VNode_induction.

(** The tree with [ns] on every vnode, and undefined below a
    foreignObject. *)
Fixpoint spread (ns0 : option string) (v : VNode) : VNode :=
  match v with
  | mkVNode t _ cs =>
      let ns1 := if bool_decide (t = Some "foreignObject") then None else ns0 in
      mkVNode t ns0 (option_map (map (spread ns1)) cs)
  end.

(** The tree without any namespace. *)
Fixpoint erase (v : VNode) : VNode :=
  match v with
  | mkVNode t _ cs => mkVNode t None (option_map (map erase) cs)
  end.

(** Every vnode below the root satisfies [p]. *)
Fixpoint below (p : VNode → bool) (v : VNode) : bool :=
  match v with
  | mkVNode _ _ cs =>
      match cs with
      | Some cs => forallb (λ c, p c && below p c) cs
      | None => true
      end
  end.

(** An element without a namespace; an element that is not [svg]. *)
Definition new_element (v : VNode) : bool := isDef (tag v) && isUndef (ns v).
Definition plain_element (v : VNode) : bool := isDef (tag v) && negb (tag_is v "svg").

(** ** Sample trees *)

(** [<svg><g><circle/></g><foreignObject><div><p/></div></foreignObject></svg>],
    as created bottom up: the inner elements have no namespace yet. *)
Definition sample_svg : VNode :=
  mkVNode (Some "svg") None
    (Some [mkVNode (Some "g") None (Some [mkVNode (Some "circle") None None]);
           mkVNode (Some "foreignObject") None
             (Some [mkVNode (Some "div") None (Some [mkVNode (Some "p") None None])])]).

(** [<foreignObject><div><math/></div></foreignObject>] whose elements carry
    namespaces. *)
Definition sample_foreign : VNode :=
  mkVNode (Some "foreignObject") (Some "svg")
    (Some [mkVNode (Some "div") (Some "svg")
             (Some [mkVNode (Some "math") (Some "math") None])]).

End CreateElement.

(** ** Properties of [Dep.notify] *)

Section sort_facts.
Context {A : Type} (key : A → Z).
Local Abbreviation cmp := (λ a b, key a - key b)%Z.
Local Abbreviation le := (λ a b, key a ≤ key b)%Z.

Lemma sort_insert_perm x l : Dep.sort_insert cmp x l ≡ₚ x :: l.
Proof.
  induction l as [|y l IH]; simpl; [done|].
  destruct (cmp x y <=? 0)%Z; [done|].
  rewrite IH. apply Permutation_swap.
Qed.

Lemma js_sort_perm l : Dep.js_sort cmp l ≡ₚ l.
Proof.
  induction l as [|x l IH]; simpl; [done|].
  by rewrite sort_insert_perm, IH.
Qed.

Lemma sort_insert_sorted x l :
  StronglySorted le l → StronglySorted le (Dep.sort_insert cmp x l).
Proof.
  induction 1 as [|y l Hl IH Hy]; simpl.
  - repeat constructor.
  - destruct (cmp x y <=? 0)%Z eqn:E.
    + apply Z.leb_le in E. constructor; [by constructor|].
      constructor; [lia|].
      eapply Forall_impl; [exact Hy|]. simpl. intros; lia.
    + apply Z.leb_gt in E. constructor; [done|].
      rewrite sort_insert_perm. constructor; [|done]. lia.
Qed.

Lemma js_sort_sorted l : StronglySorted le (Dep.js_sort cmp l).
Proof.
  induction l as [|x l IH]; simpl; [constructor|].
  by apply sort_insert_sorted.
Qed.
End sort_facts.


Section notify_facts.
Context {Watcher St : Type}.
Variable id : Watcher → Z.
Variable subs : St → list Watcher.
Variable update : Watcher → St → Dep.Outcome St.

Lemma run_updates_prefix l s calls out :
  Dep.run_updates update l s = (calls, out) →
  calls `prefix_of` l ∧ (∀ s', out = Dep.Returned s' → calls = l).
Proof.
  revert s calls out. induction l as [|w l IH]; intros s calls out; simpl.
  - intros [= <- <-]. split; [done|auto].
  - destruct (update w s) as [s1|s1].
    + destruct (Dep.run_updates update l s1) as [calls1 out1] eqn:E.
      intros [= <- <-]. destruct (IH _ _ _ E) as [Hp Hr]. split.
      * by apply prefix_cons.
      * intros s' ->. f_equal. by eapply Hr.
    + intros [= <- <-]. split; [|done].
      apply prefix_cons, prefix_nil.
Qed.


Lemma visit_order_sync s :
  Dep.visit_order id subs false false s = Dep.js_sort (λ a b, id a - id b)%Z (subs s).
Proof. done. Qed.

(** C1 (amended): in a build that is not the production build and with
    config.async off, notify() visits the subscribers of its snapshot in
    ascending id order, each entry once: the calls made are an initial part
    of the sorted snapshot, and all of it when no update() raises. *)
Theorem notify_sync_order production async s calls out :
  production = false → async = false →
  Dep.notify id subs update production async s = (calls, out) →
  ∃ order,
    order ≡ₚ subs s ∧
    StronglySorted (λ a b, id a ≤ id b)%Z order ∧
    calls `prefix_of` order ∧
    (∀ s', out = Dep.Returned s' → calls = order).
Proof.
  intros -> -> Hn. unfold Dep.notify in Hn. rewrite visit_order_sync in Hn.
  exists (Dep.js_sort (λ a b, id a - id b)%Z (subs s)).
  destruct (run_updates_prefix _ _ _ _ Hn) as [Hp Hr].
  split; [apply js_sort_perm|]. split; [apply js_sort_sorted|]. done.
Qed.

End notify_facts.

Lemma notify_sync_order_witness :
  ∃ order,
    order ≡ₚ [Dep.quiet 3; Dep.clearing 1; Dep.quiet 2] ∧
    StronglySorted (λ a b, Dep.sub_id a ≤ Dep.sub_id b)%Z order ∧
    [Dep.clearing 1; Dep.quiet 2; Dep.quiet 3] `prefix_of` order ∧
    (∀ s', Dep.Returned (@nil Dep.Sub) = Dep.Returned s' →
           [Dep.clearing 1; Dep.quiet 2; Dep.quiet 3] = order).
Proof.
  exact (notify_sync_order Dep.sub_id (λ s, s) Dep.sub_update false false
           [Dep.quiet 3; Dep.clearing 1; Dep.quiet 2]
           [Dep.clearing 1; Dep.quiet 2; Dep.quiet 3] (Dep.Returned [])
           eq_refl eq_refl eq_refl).
Defined.

(** C1 as stated fails in the production build: with config.async off the
    snapshot is visited as it is, here in descending id order. *)
Lemma notify_production_sync_unsorted :
  Dep.notify_subs true false [Dep.quiet 2; Dep.quiet 1]
    = ([Dep.quiet 2; Dep.quiet 1], Dep.Returned [Dep.quiet 2; Dep.quiet 1]) ∧
  ¬ StronglySorted (λ a b, Dep.sub_id a ≤ Dep.sub_id b)%Z
      (Dep.notify_subs true false [Dep.quiet 2; Dep.quiet 1]).1.
Proof.
  split; [reflexivity|]. simpl. intros H.
  apply StronglySorted_inv in H as [_ H].
  apply Forall_inv in H. simpl in H. lia.
Qed.




(** ** Properties of the optimizer *)

(** [<div>a b</div>] with two plain-text children: all three nodes are
    static and the [<div>] is a static root. *)
Example optimize_static_div :
  ∃ e a b,
    Optimizer.optimize Optimizer.sample_makeMap Optimizer.sample_isBuiltInTag
      (Some (Optimizer.ASTElement
               (Optimizer.plain_element "div"
                  [Optimizer.plain_text "a"; Optimizer.plain_text "b"])))
      Optimizer.sample_options
      = Some (Optimizer.ASTElement e) ∧
    Optimizer.children e = [Optimizer.ASTText a; Optimizer.ASTText b] ∧
    Optimizer.static e = Some true ∧
    Optimizer.text_static a = Some true ∧ Optimizer.text_static b = Some true ∧
    Optimizer.staticRoot e = Some true.
Proof. do 3 eexists. split; [vm_compute; reflexivity|]. by repeat split. Qed.

(** The same [<div>] with a binding in one text child: the subtree is not
    static and the [<div>] is no static root. *)
Example optimize_div_with_binding :
  ∃ e a b,
    Optimizer.optimize Optimizer.sample_makeMap Optimizer.sample_isBuiltInTag
      (Some (Optimizer.ASTElement
               (Optimizer.plain_element "div"
                  [Optimizer.plain_text "a"; Optimizer.binding_text "{{ b }}"])))
      Optimizer.sample_options
      = Some (Optimizer.ASTElement e) ∧
    Optimizer.children e = [Optimizer.ASTText a; Optimizer.ASTExpression b] ∧
    Optimizer.static e = Some false ∧
    Optimizer.text_static b = Some false ∧
    Optimizer.staticRoot e = Some false.
Proof. do 3 eexists. split; [vm_compute; reflexivity|]. by repeat split. Qed.

(** A static [<p>] with one plain-text child is static and no static root. *)
Example optimize_single_text_child :
  ∃ e,
    Optimizer.optimize Optimizer.sample_makeMap Optimizer.sample_isBuiltInTag
      (Some (Optimizer.ASTElement
               (Optimizer.plain_element "p" [Optimizer.plain_text "a"])))
      Optimizer.sample_options
      = Some (Optimizer.ASTElement e) ∧
    Optimizer.static e = Some true ∧ Optimizer.staticRoot e = Some false.
Proof. eexists. split; [vm_compute; reflexivity|]. by split. Qed.

Section optimizer_facts.
Import Optimizer.
Variable isBuiltInTag : string → bool.
Variable isStaticKey : string → bool.
Variable isPlatformReservedTag : string → bool.

Local Abbreviation markStatic :=
  (Optimizer.markStatic isBuiltInTag isStaticKey isPlatformReservedTag).
Local Abbreviation isStatic :=
  (Optimizer.isStatic isBuiltInTag isStaticKey isPlatformReservedTag).

(** C4: for an element whose tag is neither a platform-reserved tag nor
    'slot' and that has no inline-template attribute, markStatic only sets
    the node's own static flag, to the node's own isStatic result: the
    children and the conditional blocks are returned as they were, unvisited. *)
Theorem markStatic_component_own_flag (e : Element ASTNode) :
  isPlatformReservedTag (tag e) = false →
  tag e ≠ "slot" →
  attrsMap e !! "inline-template" = None →
  ∃ e',
    markStatic (ASTElement e) = ASTElement e' ∧
    e' = set_static e (isStatic (ASTElement e)) ∧
    static e' = Some (isStatic (ASTElement e)) ∧
    children e' = children e ∧
    ifConditions e' = ifConditions e.
Proof.
  intros Hres Hslot Hinline. eexists. split; [|done].
  simpl. rewrite Hres. simpl.
  apply String.eqb_neq in Hslot. rewrite Hslot. simpl.
  unfold no_inline_template. simpl. by rewrite bool_decide_eq_true_2.
Qed.

Lemma qualifies_set_staticInFor (e : Element ASTNode) b :
  qualifies type (set_staticInFor e b) = qualifies type e.
Proof. done. Qed.

Lemma qualifies_mark_staticInFor (e : Element ASTNode) b :
  qualifies type (mark_staticInFor e b) = qualifies type e.
Proof. unfold mark_staticInFor. by destruct (truthy (static e) || once e). Qed.

Lemma qualifies_spec (e : Element ASTNode) :
  qualifies type e = true ↔
  truthy (static e) = true ∧ children e ≠ [] ∧ ¬ (∃ t, children e = [ASTText t]).
Proof.
  unfold qualifies. destruct (truthy (static e)); simpl.
  - destruct (children e) as [|c [|c' cs]]; simpl.
    + split; [done|]. by intros (_ & ? & _).
    + destruct c as [x|t|t]; simpl.
      * split; [|done]. intros _. split; [done|]. split; [done|]. by intros [t [=]].
      * split; [|done]. intros _. split; [done|]. split; [done|]. by intros [t' [=]].
      * split; [done|]. intros (_ & _ & H). destruct H. by exists t.
    + split; [|done]. intros _. split; [done|]. split; [done|]. by intros [t [=]].
  - split; [done|]. by intros [? _].
Qed.

Lemma type_markStaticRoots node b : type (markStaticRoots node b) = type node.
Proof.
  destruct node as [e|t|t]; [|done..]. simpl.
  by destruct (qualifies type (mark_staticInFor e b)).
Qed.

Lemma qualifies_map_children (e e' : Element ASTNode) (f : ASTNode → ASTNode) :
  static e' = static e →
  children e' = map f (children e) →
  (∀ c, type (f c) = type c) →
  qualifies type e' = qualifies type e.
Proof.
  intros Hs Hc Hf. unfold qualifies. rewrite Hs, Hc, length_map.
  destruct (children e) as [|c cs]; [done|]. simpl. by rewrite Hf.
Qed.

Lemma markStaticRoots_marks_tree node isInFor :
  roots_marked (markStaticRoots node isInFor).
Proof.
  revert isInFor. induction node as [t|t|e IHc IHb] using ASTNode_induction;
    intros isInFor; [constructor..|].
  simpl. destruct (qualifies type (mark_staticInFor e isInFor)) eqn:Hq.
  - by apply roots_marked_root.
  - apply roots_marked_inner.
    + rewrite qualifies_mark_staticInFor in Hq. rewrite <- Hq.
      eapply qualifies_map_children; [|reflexivity|].
      * simpl. unfold mark_staticInFor. by destruct (_ || _).
      * intros c. apply type_markStaticRoots.
    + done.
    + simpl. apply Forall_map. eapply Forall_impl; [exact IHc|]. auto.
    + simpl. destruct (ifConditions e) as [[|first bs]|]; simpl in *; [done| |done].
      apply List.Forall_inv_tail in IHb. apply Forall_map.
      eapply Forall_impl; [exact IHb|]. simpl. auto.
Qed.

(** C5: markStaticRoots marks an element a static root exactly when it is
    static, has a child, and its children are not one single plain-text
    node; a node marked so keeps its children and conditional blocks as they
    were (nothing below it is visited).  Every other element that the pass
    is called on gets staticRoot = false, and what it has below afterwards
    are the results of the pass on its children and on its conditional
    blocks after the first, so the same holds further down the tree. *)
Theorem markStaticRoots_root_iff (e : Element ASTNode) (isInFor : bool) :
  ∃ e',
    markStaticRoots (ASTElement e) isInFor = ASTElement e' ∧
    (staticRoot e' = Some true ↔
       truthy (static e) = true ∧ children e ≠ [] ∧
       ¬ (∃ t, children e = [ASTText t])) ∧
    (staticRoot e' = Some true ∨ staticRoot e' = Some false) ∧
    (staticRoot e' = Some true →
       children e' = children e ∧ ifConditions e' = ifConditions e) ∧
    (staticRoot e' = Some false →
       children e' =
         map (λ child, markStaticRoots child (isInFor || truthy_str (for_ e)))
             (children e) ∧
       ifConditions e' =
         match ifConditions e with
         | Some (first :: blocks) =>
             Some (first ::
                   map (λ c, set_block c (markStaticRoots (block c) isInFor)) blocks)
         | other => other
         end) ∧
    roots_marked (ASTElement e').
Proof.
  pose proof (qualifies_spec e) as Hspec.
  pose proof (markStaticRoots_marks_tree (ASTElement e) isInFor) as Htree.
  revert Htree.
  simpl. rewrite qualifies_mark_staticInFor.
  destruct (qualifies type e) eqn:Hq; intros Htree; eexists;
    (split; [reflexivity|]); simpl.
  - split; [split; [intros _; by apply Hspec | done]|].
    split; [by left|]. split; [|split; [done|exact Htree]]. intros _.
    unfold mark_staticInFor. by destruct (truthy (static e) || once e).
  - split; [split; [done | intros H; apply Hspec in H; done]|].
    split; [by right|]. split; [done|]. split; [|exact Htree].
    intros _. split; [done|]. by destruct (ifConditions e) as [[|first blocks]|].
Qed.

(** C9 (amended): when a node does not qualify as a static root, its
    ordinary children are visited with the flag (isInFor or the node has a
    loop directive), and its conditional blocks after the first are visited
    with the incoming isInFor as it is. *)
Theorem markStaticRoots_recursion (e : Element ASTNode) (isInFor : bool) :
  qualifies type e = false →
  ∃ e',
    markStaticRoots (ASTElement e) isInFor = ASTElement e' ∧
    staticRoot e' = Some false ∧
    children e' =
      map (λ child, markStaticRoots child (isInFor || truthy_str (for_ e)))
          (children e) ∧
    ifConditions e' =
      match ifConditions e with
      | Some (first :: blocks) =>
          Some (first ::
                map (λ c, set_block c (markStaticRoots (block c) isInFor)) blocks)
      | other => other
      end.
Proof.
  intros Hq. simpl. rewrite qualifies_mark_staticInFor, Hq.
  eexists. split; [reflexivity|]. simpl. split; [done|]. split; [done|].
  by destruct (ifConditions e) as [[|first blocks]|].
Qed.
End optimizer_facts.

Lemma markStatic_component_own_flag_witness :
  ∃ e',
    Optimizer.markStatic Optimizer.sample_isBuiltInTag Optimizer.sample_isStaticKey
      Optimizer.sample_isReservedTag (Optimizer.ASTElement Optimizer.sample_component)
      = Optimizer.ASTElement e' ∧
    e' = Optimizer.set_static Optimizer.sample_component
           (Optimizer.isStatic Optimizer.sample_isBuiltInTag Optimizer.sample_isStaticKey
              Optimizer.sample_isReservedTag
              (Optimizer.ASTElement Optimizer.sample_component)) ∧
    Optimizer.static e' =
      Some (Optimizer.isStatic Optimizer.sample_isBuiltInTag Optimizer.sample_isStaticKey
              Optimizer.sample_isReservedTag
              (Optimizer.ASTElement Optimizer.sample_component)) ∧
    Optimizer.children e' = Optimizer.children Optimizer.sample_component ∧
    Optimizer.ifConditions e' = Optimizer.ifConditions Optimizer.sample_component.
Proof.
  apply (markStatic_component_own_flag Optimizer.sample_isBuiltInTag
           Optimizer.sample_isStaticKey Optimizer.sample_isReservedTag
           Optimizer.sample_component).
  - reflexivity.
  - discriminate.
  - reflexivity.
Defined.

Lemma markStaticRoots_recursion_witness :
  ∃ e',
    Optimizer.markStaticRoots (Optimizer.ASTElement Optimizer.sample_loop) false
      = Optimizer.ASTElement e' ∧
    Optimizer.staticRoot e' = Some false ∧
    Optimizer.children e' =
      map (λ child, Optimizer.markStaticRoots child
                      (false || Optimizer.truthy_str (Optimizer.for_ Optimizer.sample_loop)))
          (Optimizer.children Optimizer.sample_loop) ∧
    Optimizer.ifConditions e' =
      match Optimizer.ifConditions Optimizer.sample_loop with
      | Some (first :: blocks) =>
          Some (first ::
                map (λ c, Optimizer.set_block c
                            (Optimizer.markStaticRoots (Optimizer.block c) false)) blocks)
      | other => other
      end.
Proof.
  apply (markStaticRoots_recursion Optimizer.sample_loop false). reflexivity.
Defined.

(** C9 as stated fails for the conditional blocks: under a node with a loop
    directive and an incoming flag of false, the child is visited with true
    and the v-else block with false. *)
Lemma markStaticRoots_block_flag_not_loop :
  Optimizer.truthy_str (Optimizer.for_ Optimizer.sample_loop) = true ∧
  ∃ e' first c,
    Optimizer.markStaticRoots (Optimizer.ASTElement Optimizer.sample_loop) false
      = Optimizer.ASTElement e' ∧
    Optimizer.children e' =
      [Optimizer.markStaticRoots (Optimizer.ASTElement Optimizer.marked_paragraph) true] ∧
    Optimizer.ifConditions e' = Some [first; c] ∧
    Optimizer.block c =
      Optimizer.markStaticRoots (Optimizer.ASTElement Optimizer.marked_paragraph) false ∧
    Optimizer.block c ≠
      Optimizer.markStaticRoots (Optimizer.ASTElement Optimizer.marked_paragraph)
        (false || Optimizer.truthy_str (Optimizer.for_ Optimizer.sample_loop)).
Proof.
  split; [reflexivity|]. do 3 eexists.
  split; [reflexivity|]. split; [reflexivity|]. split; [reflexivity|].
  split; [reflexivity|]. discriminate.
Qed.


(** ** Properties of the observer *)

Import Observer.


Lemma bind_Ok_inv {A B} (m : M A) (k : A → M B) w b w' :
  bind m k w = Ok b w' → ∃ a w1, m w = Ok a w1 ∧ k a w1 = Ok b w'.
Proof. unfold bind. destruct (m w) as [a w1| | |]; [|done..]. eauto. Qed.

Tactic Notation "bind_inv" hyp(H) "as" simple_intropattern(a) ident(w1) ident(E) :=
  apply bind_Ok_inv in H as (a & w1 & E & H); cbv beta in E, H.

Lemma events_only_refl w : events_only w w.
Proof. by destruct w. Qed.

Lemma events_only_trans w1 w2 w3 :
  events_only w1 w2 → events_only w2 w3 → events_only w1 w3.
Proof. unfold events_only. intros -> ->. done. Qed.

Lemma events_only_log e w u w' : log e w = Ok u w' → events_only w w'.
Proof. intros [= _ <-]. done. Qed.

Lemma events_only_depend d w u w' : dep_depend d w = Ok u w' → events_only w w'.
Proof.
  unfold dep_depend. destruct (target w); [apply events_only_log|].
  intros [= _ <-]. apply events_only_refl.
Qed.

Lemma get_obj_Ok r w o w' : get_obj r w = Ok o w' → w' = w ∧ objs w !! r = Some o.
Proof. unfold get_obj. destruct (objs w !! r); [|done]. by intros [= <- <-]. Qed.

Lemma get_cell_Ok c w x w' : get_cell c w = Ok x w' → w' = w ∧ cells w !! c = Some x.
Proof. unfold get_cell. destruct (cells w !! c); [|done]. by intros [= <- <-]. Qed.

Lemma get_observer_Ok i w x w' :
  get_observer i w = Ok x w' → w' = w ∧ observers w !! i = Some x.
Proof. unfold get_observer. destruct (observers w !! i); [|done]. by intros [= <- <-]. Qed.

Lemma ret_Ok {A} (a b : A) w w' : ret a w = Ok b w' → b = a ∧ w' = w.
Proof. by intros [= <- <-]. Qed.

Lemma find_property_pure n r k w p w' :
  find_property n r k w = Ok p w' → w' = w.
Proof.
  revert r w. induction n as [|n IH]; intros r w; [done|].
  unfold find_property; fold find_property.
  unfold bind, get_obj. destruct (objs w !! r) as [o|]; [|done].
  destruct (getOwnPropertyDescriptor o k) as [q|].
  - by intros [= _ <-].
  - destruct (proto o) as [r'|]; [apply IH|by intros [= _ <-]].
Qed.

Lemma for_each_events_only {A} (l : list A) (body : A → M unit) :
  (∀ x w u w', body x w = Ok u w' → events_only w w') →
  ∀ w u w', for_each l body w = Ok u w' → events_only w w'.
Proof.
  intros Hb. induction l as [|x l IH]; intros w u w'; simpl.
  - intros [= _ <-]. apply events_only_refl.
  - intros H. bind_inv H as ? w1 E. eapply events_only_trans; eauto.
Qed.

Ltac ret_inv H := apply ret_Ok in H as [? ->]; subst.

Section observer_facts.
Variable env : Observer.Env.

Lemma read_frame n :
  (∀ r k w v w', get env n r k w = Ok v w' → events_only w w') ∧
  (∀ c w v w', reactiveGetter env n c w = Ok v w' → events_only w w') ∧
  (∀ r w u w', dependArray env n r w = Ok u w' → events_only w w').
Proof.
  induction n as [|n (IHget & IHrg & IHda)]; [done|].
  assert (Hcg : ∀ g this w v w',
             call_getter env (reactiveGetter env n) g this w = Ok v w' →
             events_only w w').
  { intros [f|c] this w v w'; simpl; [|apply IHrg].
    intros [= _ <-]. apply events_only_refl. }
  split; [|split].
  - intros r k w v w' H. simpl in H. bind_inv H as p w1 E.
    apply find_property_pure in E as ->.
    destruct p as [[v0 ? ? ?|[g|] ? ? ?]|].
    + ret_inv H. apply events_only_refl.
    + eauto.
    + ret_inv H. apply events_only_refl.
    + ret_inv H. apply events_only_refl.
  - intros c w v w' H. simpl in H. bind_inv H as cell w0 E.
    apply get_cell_Ok in E as [-> Hc].
    bind_inv H as value w1 E.
    assert (events_only w w1) as Hw1.
    { unfold current_value in E. destruct (cell_getter cell); [eauto|].
      ret_inv E. apply events_only_refl. }
    bind_inv H as t w2 E2. injection E2 as <- <-.
    bind_inv H as u w3 E3. ret_inv H.
    eapply events_only_trans; [exact Hw1|].
    destruct (target w1); [|ret_inv E3; apply events_only_refl].
    bind_inv E3 as u1 w4 E4. apply events_only_depend in E4.
    eapply events_only_trans; [exact E4|].
    bind_inv E3 as cell' w5 E5. apply get_cell_Ok in E5 as [-> _].
    destruct (cell_childOb cell'); [|ret_inv E3; apply events_only_refl].
    bind_inv E3 as inst w6 E6. apply get_observer_Ok in E6 as [-> _].
    bind_inv E3 as u2 w7 E7. apply events_only_depend in E7.
    eapply events_only_trans; [exact E7|].
    destruct value; try (ret_inv E3; apply events_only_refl).
    bind_inv E3 as o w8 E8. apply get_obj_Ok in E8 as [-> _].
    destruct (isArray o); [eauto|].
    ret_inv E3; apply events_only_refl.
  - intros r w u w' H. simpl in H. bind_inv H as o w0 E.
    apply get_obj_Ok in E as [-> _].
    revert H. apply for_each_events_only. clear -IHget IHda.
    intros i w u w' H. bind_inv H as o w0 E. apply get_obj_Ok in E as [-> _].
    bind_inv H as u1 w1 E1.
    assert (events_only w w1) as Hw1.
    { destruct (to_boolean _); [|ret_inv E1; apply events_only_refl].
      bind_inv E1 as ob w2 E2.
      assert (events_only w w2) as Hw2.
      { destruct (default VUndef (elems_of o !! i)); simpl in E2;
          try (ret_inv E2; apply events_only_refl); try done. eauto. }
      eapply events_only_trans; [exact Hw2|].
      destruct ob; simpl in E1; try (ret_inv E1; apply events_only_refl); try done.
      - destruct b; [done|]. ret_inv E1; apply events_only_refl.
      - destruct x; try done; ret_inv E1; apply events_only_refl.
      - destruct (negb _); [done|]. ret_inv E1; apply events_only_refl.
      - bind_inv E1 as inst w3 E3. apply get_observer_Ok in E3 as [-> _].
        by apply events_only_depend in E1. }
    eapply events_only_trans; [exact Hw1|].
    destruct (default VUndef (elems_of o !! i)); try (ret_inv H; apply events_only_refl).
    bind_inv H as o' w2 E2. apply get_obj_Ok in E2 as [-> _].
    destruct (isArray o'); [eauto|]. ret_inv H; apply events_only_refl.
Qed.

Lemma grows_refl w : grows w w.
Proof. split; [done|]. split; auto. Qed.

Lemma grows_trans w1 w2 w3 : grows w1 w2 → grows w2 w3 → grows w1 w3.
Proof.
  intros (H1 & H2 & H5) (H3 & H4 & H6). split; [lia|]. split; [|auto].
  intros c Hc. rewrite H4 by lia. by apply H2.
Qed.

Lemma frame_observe_refl w : frame_observe w w.
Proof. split; [apply grows_refl|auto]. Qed.

Lemma frame_observe_trans w1 w2 w3 : frame_observe w1 w2 → frame_observe w2 w3 → frame_observe w1 w3.
Proof.
  intros [B1 M1] [B2 M2]. split; [by eapply grows_trans|]. eauto.
Qed.

Lemma frame_define_refl obj w : frame_define obj w w.
Proof. split; [apply grows_refl|]. split; [auto|]. eauto. Qed.

Lemma frame_define_trans obj w1 w2 w3 : frame_define obj w1 w2 → frame_define obj w2 w3 → frame_define obj w1 w3.
Proof.
  intros (B1 & M1 & O1) (B2 & M2 & O2). split; [by eapply grows_trans|].
  split; [eauto|]. intros o Ho Hm.
  destruct (O1 o Ho Hm) as (o1 & Ho1 & Hp1 & Hk1 & He1).
  destruct (O2 o1 Ho1) as (o2 & Ho2 & Hp2 & Hk2 & He2).
  { destruct Hm as (i & wr & en & cf & Hm). exists i, wr, en, cf. by rewrite Hp1. }
  exists o2. split; [done|]. split; [congruence|]. split; congruence.
Qed.

Lemma frame_observe_define obj w w' : frame_observe w w' → frame_define obj w w'.
Proof.
  intros [B Hm]. split; [done|]. split; [eauto|].
  intros o Ho Hmo. exists o. by rewrite (Hm _ _ Ho Hmo).
Qed.

Lemma events_only_R_obs w w' : events_only w w' → frame_observe w w'.
Proof. intros ->. split; [|auto]. split; [done|]. split; auto. Qed.

Lemma for_each_R_def {A} obj (l : list A) (body : A → M unit) :
  (∀ x w u w', x ∈ l → body x w = Ok u w' → frame_define obj w w') →
  ∀ w u w', for_each l body w = Ok u w' → frame_define obj w w'.
Proof.
  induction l as [|x l IH]; intros Hb w u w'; simpl.
  - intros [= _ <-]. apply frame_define_refl.
  - intros H. bind_inv H as ? w1 E. eapply frame_define_trans.
    + eapply Hb; [|exact E]. set_solver.
    + eapply IH; [|exact H]. intros; eapply Hb; [|eauto]. set_solver.
Qed.

Lemma for_each_R_obs {A} (l : list A) (body : A → M unit) :
  (∀ x w u w', body x w = Ok u w' → frame_observe w w') →
  ∀ w u w', for_each l body w = Ok u w' → frame_observe w w'.
Proof.
  intros Hb. induction l as [|x l IH]; intros w u w'; simpl.
  - intros [= _ <-]. apply frame_observe_refl.
  - intros H. bind_inv H as ? w1 E. eapply frame_observe_trans; eauto.
Qed.

Lemma defineProperty_Ok r k p w u w' :
  defineProperty r k p w = Ok u w' →
  ∃ o, objs w !! r = Some o ∧
       w' = set_objs w (<[r := set_props o (<[k := p]> (props o))]> (objs w)).
Proof.
  unfold defineProperty. intros H. bind_inv H as o w1 E.
  apply get_obj_Ok in E as [-> Ho]. exists o. split; [done|].
  assert (match props o !! k with
          | Some old =>
              if configurable old
              then put_obj r (set_props o (<[k:=p]> (props o)))
              else throw_TypeError
          | None =>
              if extensible o
              then put_obj r (set_props o (<[k:=p]> (props o)))
              else throw_TypeError
          end w = Ok u w') as H'.
  { destruct (kind o); try done. by destruct k. }
  clear H. destruct (props o !! k) as [old|].
  - destruct (configurable old); [|done]. by injection H' as _ <-.
  - destruct (extensible o); [|done]. by injection H' as _ <-.
Qed.

Lemma keys_enumerable o s :
  KeyStr s ∈ keys o → ∃ p, props o !! KeyStr s = Some p ∧ enumerable p = true.
Proof.
  unfold keys. rewrite elem_of_app. intros [H|H].
  - apply list_elem_of_fmap in H as (i & [=] & _).
  - apply list_elem_of_fmap in H as ([k p] & -> & H). simpl.
    apply elem_of_map_to_list in H. apply map_lookup_filter_Some in H as [H1 H2].
    eauto.
Qed.

Lemma get_own_data n r k w o v wr en cf :
  objs w !! r = Some o →
  getOwnPropertyDescriptor o k = Some (DataProp v wr en cf) →
  get env (S n) r k w = Ok v w.
Proof.
  intros Ho Hp. simpl. unfold bind.
  unfold find_property, bind, get_obj. by rewrite Ho, Hp.
Qed.

Lemma get_own_data_inv n r k w o v wr en cf v' w' :
  objs w !! r = Some o →
  getOwnPropertyDescriptor o k = Some (DataProp v wr en cf) →
  get env n r k w = Ok v' w' → v' = v ∧ w' = w.
Proof.
  intros Ho Hp H. destruct n as [|n]; [done|].
  erewrite get_own_data in H by eauto. by injection H as <- <-.
Qed.

Lemma Observer_new_frame (obs : JSVal → M (option nat))
    (defR : Ref → PropKey → M unit) r w d w' o :
  (∀ v w res w', obs v w = Ok res w' → frame_observe w w') →
  (∀ obj key w u w', key ≠ ob_key → defR obj key w = Ok u w' → frame_define obj w w') →
  objs w !! r = Some o → ¬ marked o →
  Observer_new env obs defR r w = Ok d w' →
  frame_observe w w' ∧ is_Some (observers w' !! d) ∧
  ∃ o', objs w' !! r = Some o' ∧ marked_with d o' ∧ kind o' = kind o.
Proof.
  intros Hobs HdefR Ho Hunmarked H. unfold Observer_new in H.
  bind_inv H as d0 w1 E1. injection E1 as <- <-.
  bind_inv H as u2 w2 E2. injection E2 as _ <-.
  bind_inv H as u3 w3 E3. apply defineProperty_Ok in E3 as (o2 & Ho2 & ->).
  simpl in Ho2. rewrite Ho in Ho2. injection Ho2 as <-.
  set (oa := set_props o (<[KeyStr "__ob__":=DataProp (VObserver (uid w)) true false true]> (props o))) in *.
  assert (marked_with (uid w) oa) as Hoa.
  { exists true, false, true. unfold oa, ob_key. simpl. by rewrite lookup_insert_eq. }
  bind_inv H as o' w4 E4. apply get_obj_Ok in E4 as [-> Ho'].
  simpl in Ho'. rewrite lookup_insert_eq in Ho'. injection Ho' as <-.
  match type of H with (if _ then ?a else ?b) ?w0 = _ => set (w3 := w0) in * end.
  assert (∀ r' o', objs w !! r' = Some o' → marked o' →
                   r' ≠ r ∧ objs w3 !! r' = Some o') as Hothers.
  { intros r' o' Hr' Hm'. assert (r' ≠ r) by (intros ->; congruence).
    split; [done|]. unfold w3. simpl. by rewrite lookup_insert_ne. }
  assert (grows w w3) as Hbase.
  { split; simpl; [lia|]. split; [done|]. intros i [x Hi].
    destruct (decide (uid w = i)) as [->|];
      [by rewrite lookup_insert_eq|by rewrite lookup_insert_ne]. }
  assert (is_Some (observers w3 !! uid w)) as Hinst3.
  { unfold w3. simpl. by rewrite lookup_insert_eq. }
  assert (objs w3 !! r = Some oa) as Hr3.
  { unfold w3. simpl. by rewrite lookup_insert_eq. }
  clearbody w3.
  destruct (isArray oa) eqn:Harr.
  - bind_inv H as u5 w5 E5. destruct (hasProto env); [|done].
    unfold protoAugment in E5. bind_inv E5 as ob w6 E6.
    apply get_obj_Ok in E6 as [-> Hob]. rewrite Hr3 in Hob. injection Hob as <-.
    injection E5 as _ <-.
    bind_inv H as u7 w7 E7. ret_inv H.
    unfold observeArray in E7. bind_inv E7 as ox w8 E8.
    apply get_obj_Ok in E8 as [-> _].
    eapply for_each_R_obs in E7; last first.
    { intros i w0 u w0' Hb. bind_inv Hb as oy w9 E9.
      apply get_obj_Ok in E9 as [-> _]. bind_inv Hb as res w10 E10. ret_inv Hb.
      eauto. }
    destruct E7 as [B7 M7]. split; [|split].
    + split; [eapply grows_trans; [exact Hbase|exact B7]|].
      intros r' o' Hr' Hm'. destruct (Hothers _ _ Hr' Hm') as [Hne H3].
      apply M7; [|done]. simpl. by rewrite lookup_insert_ne.
    + by apply B7.
    + exists (set_proto oa (Some (arrayMethods env))). split; [|done].
      apply M7; [simpl; by rewrite lookup_insert_eq|]. by exists (uid w).
  - bind_inv H as u5 w5 E5. ret_inv H.
    unfold walk in E5. bind_inv E5 as ob w6 E6.
    apply get_obj_Ok in E6 as [-> Hob]. rewrite Hr3 in Hob. injection Hob as <-.
    eapply (for_each_R_def r) in E5; last first.
    { intros k w0 u w0' Hk Hb. eapply HdefR; [|exact Hb].
      intros ->. apply keys_enumerable in Hk as (p & Hp & Hen).
      unfold oa in Hp. simpl in Hp. rewrite lookup_insert_eq in Hp.
      by injection Hp as <-. }
    destruct E5 as (B5 & M5 & O5). split; [|split].
    + split; [eapply grows_trans; [exact Hbase|exact B5]|].
      intros r' o' Hr' Hm'. destruct (Hothers _ _ Hr' Hm') as [Hne H3]. eauto.
    + by apply B5.
    + destruct (O5 oa Hr3) as (o' & Ho' & Hp' & Hk' & _); [by exists (uid w)|].
      exists o'. split; [done|]. split; [|done].
      destruct Hoa as (wr & en & cf & Hoa). exists wr, en, cf. by rewrite Hp'.
Qed.

Lemma gopd_str o s : getOwnPropertyDescriptor o (KeyStr s) = props o !! KeyStr s.
Proof. unfold getOwnPropertyDescriptor. by destruct (kind o). Qed.

Lemma gopd_ob o : getOwnPropertyDescriptor o ob_key = props o !! ob_key.
Proof. apply gopd_str. Qed.

Lemma count_root_Ok (ob : option nat) (b : bool) w res w' :
  match ob with
  | Some i =>
      if b then
        bind (get_observer i)
          (λ inst, bind (λ w, Ok tt (set_observers w
                           (<[i := set_vmCount inst (S (vmCount inst))]> (observers w))))
                     (λ _, ret ob))
      else ret ob
  | None => ret ob
  end w = Ok res w' →
  res = ob ∧ observers_only w w' ∧
  (∀ i, is_Some (observers w !! i) → is_Some (observers w' !! i)) ∧
  (∀ i, b = true → ob = Some i → is_Some (observers w' !! i)).
Proof.
  destruct ob as [i|]; [destruct b|]; intros H.
  - bind_inv H as inst w1 E1. apply get_observer_Ok in E1 as [-> Hi].
    bind_inv H as u w2 E2. injection E2 as _ <-. ret_inv H.
    split; [done|]. split; [done|]. simpl. split.
    + intros j Hj. destruct (decide (i = j)) as [->|];
        [by rewrite lookup_insert_eq|by rewrite lookup_insert_ne].
    + intros j _ [= <-]. by rewrite lookup_insert_eq.
  - ret_inv H. split; [done|]. split; [by destruct w|]. split; [auto|done].
  - ret_inv H. split; [done|]. split; [by destruct w|]. split; [auto|done].
Qed.

Lemma observers_only_R_obs w w' :
  observers_only w w' →
  (∀ i, is_Some (observers w !! i) → is_Some (observers w' !! i)) →
  frame_observe w w'.
Proof. intros Hw Hi. rewrite Hw. split; [|auto]. split; [done|]. split; [auto|]. by rewrite <- Hw. Qed.

Lemma read_own_ob n r o w cur w1 :
  objs w !! r = Some o →
  (if hasOwn o (KeyStr "__ob__") then get env n r (KeyStr "__ob__") else ret VUndef) w
    = Ok cur w1 →
  events_only w w1 ∧
  (∀ i, marked_with i o → cur = VObserver i) ∧
  ((∀ p, props o !! ob_key = Some p → ∃ x wr en cf, p = DataProp x wr en cf) →
   ∀ i, cur = VObserver i → marked_with i o).
Proof.
  intros Ho H. unfold hasOwn in H. rewrite gopd_str in H.
  fold ob_key in H. destruct (props o !! ob_key) as [p|] eqn:Hp.
  - rewrite bool_decide_eq_true_2 in H by eauto.
    split; [by apply (proj1 (read_frame n)) in H|]. split.
    + intros i (wr & en & cf & Hi). rewrite Hp in Hi. injection Hi as ->.
      rewrite <- gopd_ob in Hp.
      by destruct (get_own_data_inv _ _ _ _ _ _ _ _ _ _ _ Ho Hp H) as [-> _].
    + intros Hdata i ->. destruct (Hdata p eq_refl) as (x & wr & en & cf & ->).
      pose proof Hp as Hp'. rewrite <- gopd_ob in Hp'.
      destruct (get_own_data_inv _ _ _ _ _ _ _ _ _ _ _ Ho Hp' H) as [<- _].
      by exists wr, en, cf.
  - rewrite bool_decide_eq_false_2 in H by (by intros [? ?]).
    ret_inv H. split; [apply events_only_refl|]. split.
    + intros i (wr & en & cf & Hi). by rewrite Hp in Hi.
    + done.
Qed.

Lemma observe_frame n :
  (∀ v b w res w', observe env n v b w = Ok res w' →
      frame_observe w w' ∧ (data_ob v w → ∀ i, res = Some i → carries i v w')) ∧
  (∀ obj key val cs sh w u w', key ≠ ob_key →
      defineReactive env n obj key val cs sh w = Ok u w' → frame_define obj w w').
Proof.
  induction n as [|n [IHo IHd]]; [done|]. split.
  - intros v b w res w' H. simpl in H.
    destruct v as [| | | | |r| |]; try (ret_inv H; split; [apply frame_observe_refl|done]); [|done].
    bind_inv H as o w0 E. apply get_obj_Ok in E as [-> Ho].
    destruct (isVNode o) eqn:HV; [ret_inv H; split; [apply frame_observe_refl|done]|].
    bind_inv H as cur w1 Ecur.
    bind_inv H as ob w2 Eob.
    apply count_root_Ok in H as (-> & Hfin & Hpers & _).
    pose proof (observers_only_R_obs _ _ Hfin Hpers) as HRfin.
    destruct (read_own_ob _ _ _ _ _ _ Ho Ecur) as (Hev & Hcur1 & Hcur2).
    pose proof (events_only_R_obs _ _ Hev) as HRev.
    assert (objs w1 !! r = Some o) as Ho1 by (rewrite Hev; exact Ho).
    assert (∀ i, carries i (VObj r) w2 → carries i (VObj r) w') as Hcarry.
    { assert (objs w' = objs w2) as Hobjs by (by rewrite Hfin).
      intros i (r' & o' & ? & ? & ? & ? & ?). exists r', o'.
      rewrite Hobjs. auto 10. }
    destruct (instanceof_Observer cur) as [i0|] eqn:Hinst.
    + assert (cur = VObserver i0) as -> by (destruct cur; simpl in Hinst; congruence).
      ret_inv Eob. split; [by eapply frame_observe_trans|].
      intros Hdata i [= <-]. apply Hcarry. exists r, o.
      split; [done|]. split; [done|]. split; [done|].
      assert (marked_with i0 o) as Hm.
      { apply Hcur2; [|done]. intros p Hp.
        destruct (Hdata r o p eq_refl Ho Hp) as (x & wr & en & cf & -> & _). eauto. }
      split; [done|]. destruct Hm as (wr & en & cf & Hm).
      destruct (Hdata r o _ eq_refl Ho Hm) as (x & wr' & en' & cf' & [= <- _ _ _] & Hx).
      apply HRev. by apply Hx.
    + assert (¬ marked o) as Hunmarked.
      { intros [i Hm]. rewrite (Hcur1 i Hm) in Hinst. discriminate. }
      bind_inv Eob as should w3 E3. injection E3 as <- <-.
      destruct (_ && extensible o); last first.
      { ret_inv Eob. split; [|done]. by eapply frame_observe_trans. }
      bind_inv Eob as isVue w3 E3. apply (proj1 (read_frame n)) in E3.
      pose proof (events_only_R_obs _ _ E3) as HR3.
      assert (objs w3 !! r = Some o) as Ho3 by (rewrite E3; exact Ho1).
      destruct (to_boolean isVue).
      { ret_inv Eob. split; [|done].
        eapply frame_observe_trans; [exact HRev|]. by eapply frame_observe_trans. }
      bind_inv Eob as d w4 E4. ret_inv Eob.
      eapply Observer_new_frame in E4 as (HR & Hd & o' & Ho' & Hm' & Hk');
        [|intros; by eapply IHo|intros; by eapply IHd|exact Ho3|exact Hunmarked].
      split.
      * eapply frame_observe_trans; [exact HRev|].
        eapply frame_observe_trans; [exact HR3|]. by eapply frame_observe_trans.
      * intros _ i [= <-]. apply Hcarry. exists r, o'.
        split; [done|]. split; [done|]. split; [|done].
        unfold isVNode in *. by rewrite Hk'.
  - intros obj key val cs sh w u w' Hkey H. simpl in H.
    bind_inv H as d w1 E1. injection E1 as <- <-.
    bind_inv H as o w2 E2. apply get_obj_Ok in E2 as [-> Ho]. simpl in Ho.
    assert (grows w (set_uid w (S (uid w)))) as B0
      by (split; simpl; [lia|]; split; auto).
    destruct (bool_decide _).
    { ret_inv H. split; [done|]. split; [auto|]. eauto. }
    bind_inv H as v w3 E3.
    assert (events_only (set_uid w (S (uid w))) w3) as Hev3.
    { destruct val; [ret_inv E3; apply events_only_refl|].
      destruct (_ || _); [by apply (proj1 (read_frame n)) in E3|].
      ret_inv E3; apply events_only_refl. }
    bind_inv H as childOb w4 E4.
    assert (frame_observe w3 w4) as HR4.
    { destruct sh; [ret_inv E4; apply frame_observe_refl|]. by apply IHo in E4 as [? _]. }
    bind_inv H as u5 w5 E5. apply defineProperty_Ok in E5 as (o4 & Ho4 & ->).
    injection H as _ <-.
    assert (frame_observe w w4) as [B4 M4].
    { eapply frame_observe_trans; [|exact HR4].
      eapply frame_observe_trans; [|by apply events_only_R_obs].
      split; [done|]. auto. }
    split; [|split].
    + destruct B4 as (Hu & Hc & Hi). split; simpl; [done|]. split; [|done].
      intros c Hlt. rewrite lookup_insert_ne by lia. by apply Hc.
    + intros r o' Hne Hr Hm. simpl. rewrite lookup_insert_ne by done. eauto.
    + intros o' Hr Hm. simpl. rewrite lookup_insert_eq.
      rewrite (M4 _ _ Hr Hm) in Ho4. injection Ho4 as <-.
      eexists. split; [done|]. simpl. by rewrite lookup_insert_ne.
Qed.

Lemma custom_step cell w :
  match cell_customSetter cell with
  | Some f => when (negb (production env)) (log (EvCustomSetter f))
  | None => ret tt
  end w = Ok tt (custom_logged env cell w).
Proof.
  unfold custom_logged. destruct (cell_customSetter cell); [|done].
  by destruct (production env).
Qed.

Lemma reactiveSetter_same n c cell newVal w value w0 :
  cells w !! c = Some cell →
  current_value env (reactiveGetter env n) cell w = Ok value w0 →
  same_value newVal value = true →
  reactiveSetter env (S n) c newVal w = Ok tt w0.
Proof.
  intros Hc Hv Hs. simpl. unfold bind at 1. unfold get_cell. rewrite Hc.
  unfold bind at 1. rewrite Hv. by rewrite Hs.
Qed.

Lemma reactiveSetter_ignored n c cell newVal w value w0 :
  cells w !! c = Some cell →
  current_value env (reactiveGetter env n) cell w = Ok value w0 →
  same_value newVal value = false →
  is_Some (cell_getter cell) → cell_setter cell = None →
  reactiveSetter env (S n) c newVal w = Ok tt (custom_logged env cell w0).
Proof.
  intros Hc Hv Hs Hg Hset. simpl. unfold bind at 1. unfold get_cell. rewrite Hc.
  unfold bind at 1. rewrite Hv. rewrite Hs.
  unfold bind at 1. rewrite custom_step.
  rewrite bool_decide_eq_true_2 by done. rewrite Hset.
  rewrite bool_decide_eq_false_2 by (by intros [? ?]). done.
Qed.

Lemma reactiveSetter_store n c cell newVal w value w0 w1 childOb w2 cell2 :
  cells w !! c = Some cell →
  current_value env (reactiveGetter env n) cell w = Ok value w0 →
  same_value newVal value = false →
  (cell_getter cell = None ∨ is_Some (cell_setter cell)) →
  store_step env n c cell newVal (custom_logged env cell w0) = Ok tt w1 →
  reobserve env n cell newVal w1 = Ok childOb w2 →
  cells w2 !! c = Some cell2 →
  reactiveSetter env (S n) c newVal w = Ok tt (notified c cell2 childOb w2).
Proof.
  intros Hc Hv Hs Hgs Hstore Hobs Hc2. simpl. unfold bind at 1. unfold get_cell. rewrite Hc.
  unfold bind at 1. rewrite Hv. rewrite Hs.
  unfold bind at 1. rewrite custom_step.
  assert (bool_decide (is_Some (cell_getter cell)) &&
          negb (bool_decide (is_Some (cell_setter cell))) = false) as ->.
  { destruct Hgs as [->|Hset].
    - by rewrite bool_decide_eq_false_2 by (by intros [? ?]).
    - rewrite (bool_decide_eq_true_2 (is_Some (cell_setter cell))) by done.
      apply andb_false_r. }
  unfold store_step in Hstore. unfold bind at 1. rewrite Hstore.
  unfold reobserve in Hobs. unfold bind at 1. rewrite Hobs.
  unfold bind at 1. unfold update_cell. rewrite Hc2. done.
Qed.

Lemma reobserve_frame n cell newVal w childOb w' :
  reobserve env n cell newVal w = Ok childOb w' → frame_observe w w'.
Proof.
  unfold reobserve. destruct (cell_shallow cell).
  - intros H. ret_inv H. apply frame_observe_refl.
  - intros H. by apply (proj1 (observe_frame n)) in H as [? _].
Qed.

Lemma reactiveSetter_plain n c cell newVal w childOb w2 :
  cells w !! c = Some cell →
  cell_getter cell = None → cell_setter cell = None →
  c < uid w →
  same_value newVal (cell_val cell) = false →
  reobserve env n cell newVal
    (set_cells (custom_logged env cell w)
       (<[c := set_cell_val cell newVal]> (cells w))) = Ok childOb w2 →
  reactiveSetter env (S n) c newVal w
    = Ok tt (notified c (set_cell_val cell newVal) childOb w2).
Proof.
  intros Hc Hg Hset Hlt Hs Hobs.
  assert (cells (custom_logged env cell w) = cells w ∧ uid (custom_logged env cell w) = uid w)
    as [Hcc Hcu].
  { unfold custom_logged. destruct (cell_customSetter cell); [|done].
    by destruct (production env). }
  eapply reactiveSetter_store; try done.
  - unfold current_value. rewrite Hg. reflexivity.
  - by left.
  - unfold store_step, update_cell. rewrite Hset, Hcc, Hc. reflexivity.
  - apply reobserve_frame in Hobs as [(_ & Hcells & _) _].
    rewrite Hcells by (simpl; lia). simpl. by rewrite lookup_insert_eq.
Qed.

Lemma has_property_Ok n r k w b w' :
  has_property n r k w = Ok b w' → w' = w.
Proof.
  unfold has_property. intros H. bind_inv H as p w1 E.
  apply find_property_pure in E as ->. by ret_inv H.
Qed.

Lemma gopd_record o key :
  isArray o && isValidArrayIndex key = false →
  getOwnPropertyDescriptor o key = props o !! key.
Proof.
  unfold getOwnPropertyDescriptor, isArray, isValidArrayIndex.
  destruct (kind o); try done. by destruct key.
Qed.



End observer_facts.

Lemma SFeqb_refl_iff x : SFeqb x x = false ↔ x = S754_nan.
Proof.
  unfold SFeqb. destruct x as [s|s| |s m e]; simpl.
  - done.
  - by destruct s.
  - done.
  - rewrite Z.compare_refl, Pos.compare_cont_refl. by destruct s.
Qed.

(** [v !== v] holds of NaN only. *)
Lemma strict_eq_irrefl v : strict_eq v v = false ↔ v = VNum S754_nan.
Proof.
  destruct v as [| |b|x|s|r|f|ob]; simpl; try done.
  - by destruct b.
  - rewrite SFeqb_refl_iff. split; [by intros ->|by intros [= ->]].
  - by rewrite String.eqb_refl.
  - by rewrite Nat.eqb_refl.
  - by rewrite Nat.eqb_refl.
  - by rewrite Nat.eqb_refl.
Qed.

(** The test of [reactiveSetter]: strictly equal, or both NaN. *)
Lemma same_value_iff a b :
  same_value a b = true ↔
  strict_eq a b = true ∨ (a = VNum S754_nan ∧ b = VNum S754_nan).
Proof.
  unfold same_value. rewrite orb_true_iff, andb_true_iff, !negb_true_iff.
  by rewrite !strict_eq_irrefl.
Qed.

Section observer_claims.
Variable env : Observer.Env.

Lemma find_property_own n r k w o p :
  objs w !! r = Some o → getOwnPropertyDescriptor o k = Some p →
  find_property (S n) r k w = Ok (Some p) w.
Proof.
  intros Ho Hp. unfold find_property, bind, get_obj. by rewrite Ho, Hp.
Qed.

Lemma observe_own_wrapper n r o i inst b w w1 :
  objs w !! r = Some o → isVNode o = false →
  hasOwn o ob_key = true →
  get env (S n) r ob_key w = Ok (VObserver i) w1 →
  observers w1 !! i = Some inst →
  observe env (S (S n)) (VObj r) b w =
    Ok (Some i)
       (if b then set_observers w1 (<[i := set_vmCount inst (S (vmCount inst))]> (observers w1))
        else w1).
Proof.
  intros Ho HV Hown Hget Hi. unfold ob_key in *. simpl in Hget. simpl.
  unfold bind at 1. unfold get_obj. rewrite Ho, HV, Hown.
  unfold bind at 1. rewrite Hget.
  simpl. unfold bind at 1. simpl. destruct b; [|done].
  unfold bind at 1. unfold get_observer. rewrite Hi. done.
Qed.

(** C8: observe is idempotent.  For a value that carries a wrapper (an own
    [__ob__] that reads as an Observer; VNode instances never carry one,
    observe refuses them first), observe returns that wrapper and makes no
    Observer, Dep or closure.  And after an observe call that returned a
    wrapper, a second observe of the same value returns the same wrapper,
    again without making one. *)
Theorem observe_idempotent n v b w :
  (∀ r o i inst w1,
     v = VObj r → objs w !! r = Some o → isVNode o = false →
     hasOwn o ob_key = true →
     get env (S n) r ob_key w = Ok (VObserver i) w1 →
     observers w !! i = Some inst →
     ∃ w', observe env (S (S n)) v b w = Ok (Some i) w' ∧
           objs w' = objs w ∧ uid w' = uid w ∧ cells w' = cells w ∧
           dom (observers w') = dom (observers w)) ∧
  (∀ m b0 w0 i,
     data_ob v w0 → observe env m v b0 w0 = Ok (Some i) w →
     ∃ w', observe env (S (S n)) v b w = Ok (Some i) w' ∧
           objs w' = objs w ∧ uid w' = uid w ∧ cells w' = cells w ∧
           dom (observers w') = dom (observers w)).
Proof.
  assert (Hfirst : ∀ r o i inst w1,
     v = VObj r → objs w !! r = Some o → isVNode o = false →
     hasOwn o ob_key = true →
     get env (S n) r ob_key w = Ok (VObserver i) w1 →
     observers w !! i = Some inst →
     ∃ w', observe env (S (S n)) v b w = Ok (Some i) w' ∧
           objs w' = objs w ∧ uid w' = uid w ∧ cells w' = cells w ∧
           dom (observers w') = dom (observers w)).
  { intros r o i inst w1 -> Ho HV Hown Hget Hi.
    pose proof (proj1 (read_frame env (S n)) _ _ _ _ _ Hget) as Hev.
    assert (observers w1 !! i = Some inst) as Hi1 by (by rewrite Hev).
    eexists. split; [by eapply observe_own_wrapper|].
    assert (objs w1 = objs w ∧ uid w1 = uid w ∧ cells w1 = cells w ∧
            observers w1 = observers w) as (? & ? & ? & Hobs) by (by rewrite Hev).
    destruct b; [|by rewrite Hobs]. simpl.
    split; [done|]. split; [done|]. split; [done|].
    rewrite dom_insert_L, Hobs. apply elem_of_dom_2 in Hi.
    by apply subseteq_union_1_L, singleton_subseteq_l. }
  split; [exact Hfirst|].
  intros m b0 w0 i Hdata H.
  apply (proj1 (observe_frame env m)) in H as [_ Hc].
  destruct (Hc Hdata i eq_refl) as (r & o & -> & Ho & HV & (wr & en & cf & Hm) & [inst Hi]).
  eapply (Hfirst r o i inst w); try done.
  - unfold hasOwn. rewrite gopd_ob, Hm. by apply bool_decide_eq_true_2.
  - eapply get_own_data; [exact Ho|]. by rewrite gopd_ob.
Qed.
(** C10: when [obj] has an own property [key] whose descriptor says
    configurable: false, defineReactive returns at once: no object, closure,
    Observer or event changes, so the property is not redefined and no
    accessor is installed.  The Dep made on entry has taken one id. *)
Theorem defineReactive_non_configurable n obj key val customSetter shallow w o p :
  objs w !! obj = Some o →
  getOwnPropertyDescriptor o key = Some p →
  configurable p = false →
  ∃ w', defineReactive env (S n) obj key val customSetter shallow w = Ok tt w' ∧
        objs w' = objs w ∧ cells w' = cells w ∧ observers w' = observers w ∧
        events w' = events w ∧ w' = set_uid w (S (uid w)).
Proof.
  intros Ho Hp Hc. exists (set_uid w (S (uid w))). split; [|done].
  simpl. unfold bind, new_Dep, get_obj. simpl.
  rewrite Ho, Hp. simpl. by rewrite Hc.
Qed.

Lemma observe_non_object n v b w :
  isObject v = false → observe env (S n) v b w = Ok None w.
Proof. by destruct v. Qed.

(** With fuel for one call of [observe], a write of a value that is no
    object to a property without earlier accessors returns. *)
Lemma reactiveSetter_plain_primitive n c cell newVal w :
  cells w !! c = Some cell →
  cell_getter cell = None → cell_setter cell = None →
  c < uid w →
  same_value newVal (cell_val cell) = false →
  isObject newVal = false →
  ∃ w', reactiveSetter env (S (S n)) c newVal w = Ok tt w' ∧
        cells w' !! c = Some (set_cell_childOb (set_cell_val cell newVal) None) ∧
        events w' = events (custom_logged env cell w) ++ [EvNotify c].
Proof.
  intros Hc Hg Hset Hlt Hs Hobj. eexists. split.
  - eapply reactiveSetter_plain; try done.
    unfold reobserve. destruct (cell_shallow cell); [reflexivity|].
    by apply observe_non_object.
  - simpl. by rewrite lookup_insert_eq.
Qed.

(** C2 (amended): the setter that defineReactive installs compares the new
    value with the current one (the closure's value, or what the property's
    earlier getter returns).  When they are strictly equal, or both NaN,
    nothing is stored and nothing is notified.  When the property had a
    getter and no setter, any other write is ignored too.  Otherwise the
    write is applied (to the closure, or through the earlier setter), the
    new value is observed, and the property's Dep is notified; for a
    property without earlier accessors the closure then holds the new value. *)
Theorem reactiveSetter_write n c cell newVal w value w0 :
  cells w !! c = Some cell →
  current_value env (reactiveGetter env n) cell w = Ok value w0 →
  (strict_eq newVal value = true ∨
   (newVal = VNum S754_nan ∧ value = VNum S754_nan) →
     reactiveSetter env (S n) c newVal w = Ok tt w0) ∧
  (same_value newVal value = false →
     is_Some (cell_getter cell) → cell_setter cell = None →
     reactiveSetter env (S n) c newVal w = Ok tt (custom_logged env cell w0)) ∧
  (same_value newVal value = false →
     cell_getter cell = None ∨ is_Some (cell_setter cell) →
     ∀ w1 childOb w2 cell2,
       store_step env n c cell newVal (custom_logged env cell w0) = Ok tt w1 →
       reobserve env n cell newVal w1 = Ok childOb w2 →
       cells w2 !! c = Some cell2 →
       reactiveSetter env (S n) c newVal w = Ok tt (notified c cell2 childOb w2)) ∧
  (same_value newVal value = false →
     cell_getter cell = None → cell_setter cell = None → c < uid w →
     ∀ childOb w2,
       reobserve env n cell newVal
         (set_cells (custom_logged env cell w)
            (<[c := set_cell_val cell newVal]> (cells w))) = Ok childOb w2 →
       reactiveSetter env (S n) c newVal w
         = Ok tt (notified c (set_cell_val cell newVal) childOb w2)) ∧
  (same_value newVal value = false →
     cell_getter cell = None → cell_setter cell = None → c < uid w →
     isObject newVal = false → 0 < n →
     ∃ w', reactiveSetter env (S n) c newVal w = Ok tt w' ∧
           cells w' !! c = Some (set_cell_childOb (set_cell_val cell newVal) None) ∧
           events w' = events (custom_logged env cell w) ++ [EvNotify c]).
Proof.
  intros Hc Hv.
  assert (Hplain : cell_getter cell = None → value = cell_val cell).
  { intros Hg. unfold current_value in Hv. rewrite Hg in Hv. by injection Hv as <- _. }
  split; [|split; [|split; [|split]]].
  - intros Hsame. apply same_value_iff in Hsame. by eapply reactiveSetter_same.
  - intros. by eapply reactiveSetter_ignored.
  - intros. by eapply reactiveSetter_store.
  - intros Hs Hg Hset Hlt childOb w2 Hobs.
    rewrite (Hplain Hg) in Hs. by eapply reactiveSetter_plain.
  - intros Hs Hg Hset Hlt Hobj Hn. destruct n as [|n]; [lia|].
    rewrite (Hplain Hg) in Hs. by eapply reactiveSetter_plain_primitive.
Qed.

Lemma assign_accessor m r o key v w g s e c :
  objs w !! r = Some o →
  isArray o && isValidArrayIndex key = false →
  props o !! key = Some (AccessorProp g (Some s) e c) →
  assign env (S m) r key v w = call_setter env (reactiveSetter env (S m)) s r v w.
Proof.
  intros Ho Hrec Hk. unfold assign. unfold bind at 1. unfold get_obj. rewrite Ho.
  assert (find_property (S m) r key w = Ok (Some (AccessorProp g (Some s) e c)) w) as Hf.
  { eapply find_property_own; [exact Ho|]. by rewrite gopd_record. }
  unfold isArray, isValidArrayIndex in Hrec.
  destruct (kind o), key; try discriminate Hrec; unfold bind; by rewrite Hf.
Qed.



End observer_claims.

(** ** Fuel

    The fuel of the recursive definitions only bounds the depth of calls:
    a call that returns, or throws, with some fuel does the same with more. *)

Lemma refines_refl {A} (m : M A) : refines m m.
Proof. intros w. by right. Qed.

Lemma refines_out_of_fuel {A} (m : M A) : refines out_of_fuel m.
Proof. intros w. by left. Qed.

Lemma refines_bind {A B} (m m' : M A) (k k' : A → M B) :
  refines m m' → (∀ a, refines (k a) (k' a)) → refines (bind m k) (bind m' k').
Proof.
  intros Hm Hk w. unfold bind. destruct (Hm w) as [->| ->]; [by left|].
  destruct (m w) as [a w1| | |]; [apply Hk|by right..].
Qed.

Lemma refines_for_each {A} (l : list A) (f g : A → M unit) :
  (∀ x, refines (f x) (g x)) → refines (for_each l f) (for_each l g).
Proof.
  intros Hfg. induction l as [|x l IH]; simpl; [apply refines_refl|].
  apply refines_bind; [apply Hfg|]. intros _. exact IH.
Qed.

Ltac refines_step :=
  first
    [ apply refines_out_of_fuel
    | apply refines_refl
    | solve [eauto with nocore lia]
    | apply refines_bind; [|intros ?]
    | apply refines_for_each; intros ?
    | match goal with
      | |- refines (match ?x with _ => _ end) _ => destruct x
      | |- refines (if ?b then _ else _) _ => destruct b
      end
    | progress unfold call_getter, call_setter, current_value, get_member, walk,
        observeArray, Observer_new ].

Section fuel.
Variable env : Observer.Env.

Lemma find_property_mono n m r k :
  n ≤ m → refines (find_property n r k) (find_property m r k).
Proof.
  revert m r. induction n as [|n IH]; intros m r Hle; [apply refines_out_of_fuel|].
  destruct m as [|m]; [lia|].
  unfold find_property; fold find_property.
  apply refines_bind; [apply refines_refl|]. intros o.
  destruct (getOwnPropertyDescriptor o k); [apply refines_refl|].
  destruct (proto o); [|apply refines_refl]. apply IH. lia.
Qed.

Lemma read_mono n :
  ∀ m, n ≤ m →
    (∀ r k, refines (get env n r k) (get env m r k)) ∧
    (∀ c, refines (reactiveGetter env n c) (reactiveGetter env m c)) ∧
    (∀ r, refines (dependArray env n r) (dependArray env m r)).
Proof.
  induction n as [|n IH]; intros m Hle.
  { repeat split; intros; apply refines_out_of_fuel. }
  destruct m as [|m]; [lia|].
  destruct (IH m ltac:(lia)) as (IHget & IHrg & IHda).
  assert (Hfp : ∀ r k, refines (find_property (S n) r k) (find_property (S m) r k))
    by (intros; apply find_property_mono; lia).
  split; [|split].
  - intros r k. simpl. repeat refines_step.
  - intros c. simpl. repeat refines_step.
  - intros r. simpl. repeat refines_step.
Qed.

Lemma observe_mono n :
  ∀ m, n ≤ m →
    (∀ v b, refines (observe env n v b) (observe env m v b)) ∧
    (∀ obj key val cs sh,
       refines (defineReactive env n obj key val cs sh)
               (defineReactive env m obj key val cs sh)).
Proof.
  induction n as [|n IH]; intros m Hle.
  { split; intros; apply refines_out_of_fuel. }
  destruct m as [|m]; [lia|].
  destruct (IH m ltac:(lia)) as (IHo & IHd).
  destruct (read_mono n m ltac:(lia)) as (IHget & IHrg & IHda).
  split.
  - intros v b. simpl. repeat refines_step.
  - intros obj key val cs sh. simpl. repeat refines_step.
Qed.

Lemma reactiveSetter_mono n :
  ∀ m, n ≤ m → ∀ c v, refines (reactiveSetter env n c v) (reactiveSetter env m c v).
Proof.
  induction n as [|n IH]; intros m Hle c v; [apply refines_out_of_fuel|].
  destruct m as [|m]; [lia|].
  pose proof (IH m ltac:(lia)) as IHrs.
  destruct (observe_mono n m ltac:(lia)) as (IHo & IHd).
  destruct (read_mono n m ltac:(lia)) as (IHget & IHrg & IHda).
  simpl. repeat refines_step.
Qed.

(** More fuel never changes what a call of [set] does. *)
Theorem set_fuel_monotone n m target key val :
  n ≤ m → refines (set env n target key val) (set env m target key val).
Proof.
  intros Hle.
  destruct (observe_mono n m Hle) as (IHo & IHd).
  destruct (read_mono n m Hle) as (IHget & IHrg & IHda).
  pose proof (reactiveSetter_mono n m Hle) as IHrs.
  assert (Hfp : ∀ r k, refines (find_property n r k) (find_property m r k))
    by (intros; by apply find_property_mono).
  unfold set, assign, has_property, splice_interceptor. repeat refines_step.
Qed.
End fuel.

(** ** The observer on the sample states *)

Lemma sample_world_observed :
  observe sample_env 8 (VObj 10) false initial_world
    = Ok (Some 0) (run (observe sample_env 8 (VObj 10) false) initial_world) ∧
  observe sample_env 8 (VObj 12) true
      (run (observe sample_env 8 (VObj 10) false) initial_world)
    = Ok (Some 3) sample_world.
Proof. split; vm_compute; reflexivity. Qed.

(** In the sample state, writing 2 to property [a] of object 10, which
    holds 1, stores 2 in the closure and notifies the property's Dep. *)
Lemma reactiveSetter_write_witness :
  reactiveSetter sample_env 4 1 (num 2) sample_world
    = Ok tt (notified 1 (set_cell_val (new_cell 10 (KeyStr "a") (num 1) None) (num 2))
               None
               (set_cells sample_world
                  (<[1 := set_cell_val (new_cell 10 (KeyStr "a") (num 1) None) (num 2)]>
                     (cells sample_world)))).
Proof.
  apply (reactiveSetter_write sample_env 3 1 (new_cell 10 (KeyStr "a") (num 1) None)
           (num 2) sample_world (num 1) sample_world).
  - vm_compute. reflexivity.
  - vm_compute. reflexivity.
  - vm_compute. reflexivity.
  - reflexivity.
  - reflexivity.
  - vm_compute. lia.
  - vm_compute. reflexivity.
Defined.

(** C2 as stated fails for a property that had a getter and no setter:
    property [b] of object 10 reads 1, and writing 2 to it stores nothing
    and notifies nobody. *)
Lemma reactiveSetter_getter_only_ignored :
  ∃ cell,
    cells sample_world !! 2 = Some cell ∧
    current_value sample_env (reactiveGetter sample_env 3) cell sample_world
      = Ok (num 1) sample_world ∧
    same_value (num 2) (num 1) = false ∧
    reactiveSetter sample_env 4 2 (num 2) sample_world = Ok tt sample_world.
Proof.
  eexists. split; [vm_compute; reflexivity|].
  split; [vm_compute; reflexivity|]. split; [vm_compute; reflexivity|].
  vm_compute. reflexivity.
Qed.

Lemma defineReactive_non_configurable_witness :
  ∃ w', defineReactive sample_env 3 13 (KeyStr "fixed") None None false sample_world
          = Ok tt w' ∧
        objs w' = objs sample_world ∧ cells w' = cells sample_world ∧
        observers w' = observers sample_world ∧ events w' = events sample_world ∧
        w' = set_uid sample_world (S (uid sample_world)).
Proof.
  apply (defineReactive_non_configurable sample_env 2 13 (KeyStr "fixed") None None false
           sample_world
           (plain_object [ (KeyStr "fixed", DataProp (num 1) true true false) ] (Some 0))
           (DataProp (num 1) true true false)).
  - vm_compute. reflexivity.
  - vm_compute. reflexivity.
  - reflexivity.
Defined.





(** observe on the sample objects: the first call wraps, the second
    returns the same wrapper and hands out no id. *)
Example observe_twice_sample :
  ∃ w1 w2,
    observe sample_env 8 (VObj 10) false initial_world = Ok (Some 0) w1 ∧
    observe sample_env 8 (VObj 10) false w1 = Ok (Some 0) w2 ∧
    w2 = w1 ∧ uid w1 = 3.
Proof.
  do 2 eexists. split; [vm_compute; reflexivity|].
  split; [vm_compute; reflexivity|]. split; reflexivity.
Qed.


(** ** The active Watcher, and notify() without sorting *)

Section dep_more.
Import Dep.

Section target_facts.
Context {Watcher : Type}.
Implicit Types (s : Targets Watcher) (t : Target Watcher) (ops : list (TargetOp Watcher)).

Lemma removelast_snoc {A} (l : list A) x : removelast (l ++ [x]) = l.
Proof. apply removelast_last. Qed.

Lemma run_ops_nested ops : ∀ base ext target0 depth',
  nested ops (length ext) = Some depth' →
  ∃ ext', length ext' = depth' ∧
    targetStack (run_ops ops {| target := target0; targetStack := base ++ ext |})
      = base ++ ext' ∧
    (ops ≠ [] →
     target (run_ops ops {| target := target0; targetStack := base ++ ext |})
       = stack_top (base ++ ext')).
Proof.
  induction ops as [|op ops IH]; intros base ext target0 depth' H; simpl in H.
  - injection H as <-. exists ext. by split.
  - destruct op as [t|].
    + destruct (IH base (ext ++ [t]) t depth') as (ext' & Hl & Hs & Ht).
      { by rewrite length_app, Nat.add_1_r. }
      exists ext'. split; [done|].
      change (run_ops (Push t :: ops) {| target := target0; targetStack := base ++ ext |})
        with (run_ops ops {| target := t; targetStack := (base ++ ext) ++ [t] |}).
      rewrite <- (assoc_L (++)). split; [done|]. intros _.
      destruct ops as [|op' ops']; [|by apply Ht].
      simpl in *. injection H as <-. rewrite <- Hs.
      unfold stack_top. by rewrite (assoc_L (++)), last_snoc.
    + destruct ext as [|x ext _] using rev_ind; [done|].
      rewrite length_app, Nat.add_1_r in H.
      destruct (IH base ext (stack_top (base ++ ext)) depth' H) as (ext' & Hl & Hs & Ht).
      exists ext'. split; [done|].
      assert (run_ops (Pop :: ops)
                {| target := target0; targetStack := base ++ ext ++ [x] |}
              = run_ops ops {| target := stack_top (base ++ ext);
                               targetStack := base ++ ext |}) as ->.
      { unfold run_ops. simpl. unfold popTarget. simpl.
        by rewrite (assoc_L (++)), removelast_snoc. }
      split; [done|]. intros _.
      destruct ops as [|op' ops']; [|by apply Ht].
      simpl in *. injection H as <-. by rewrite Hs.
Qed.

(** X1: while a Watcher is evaluated, between its pushTarget and its
    popTarget, nested evaluations that are complete leave it the target; and
    its popTarget puts the stack back and makes the target the top of that
    stack, [undefined] when the stack is empty. *)
Theorem evaluation_restores_target t ops s :
  balanced ops = true →
  target (run_ops ops (pushTarget t s)) = t ∧
  depend (run_ops ops (pushTarget t s))
    = match t with TWatcher w => Some w | _ => None end ∧
  targetStack (run_ops ops (pushTarget t s)) = targetStack s ++ [t] ∧
  popTarget (run_ops ops (pushTarget t s))
    = {| target := stack_top (targetStack s); targetStack := targetStack s |}.
Proof.
  intros H. apply bool_decide_eq_true in H.
  destruct (run_ops_nested ops (targetStack s ++ [t]) [] t 0 H) as (ext' & Hl & Hs & Ht).
  destruct ext'; [|done]. rewrite app_nil_r in *.
  assert (target (run_ops ops (pushTarget t s)) = t) as Htarget.
  { unfold pushTarget. destruct ops as [|op ops]; [done|]. rewrite Ht by done.
    unfold stack_top. by rewrite last_snoc. }
  unfold pushTarget in *. split; [done|]. split; [|split].
  - unfold depend. by rewrite Htarget.
  - done.
  - unfold popTarget. by rewrite Hs, removelast_snoc.
Qed.
End target_facts.

Lemma evaluation_restores_target_witness :
  target (run_ops [Push (TWatcher 2); Push TUndefined; Pop; Pop]
            (pushTarget (TWatcher 1) no_targets)) = TWatcher 1 ∧
  depend (run_ops [Push (TWatcher 2); Push TUndefined; Pop; Pop]
            (pushTarget (TWatcher 1) no_targets)) = Some 1 ∧
  targetStack (run_ops [Push (TWatcher 2); Push TUndefined; Pop; Pop]
                 (pushTarget (TWatcher 1) no_targets))
    = targetStack (@no_targets nat) ++ [TWatcher 1] ∧
  popTarget (run_ops [Push (TWatcher 2); Push TUndefined; Pop; Pop]
               (pushTarget (TWatcher 1) no_targets))
    = {| target := stack_top (targetStack (@no_targets nat));
         targetStack := targetStack (@no_targets nat) |}.
Proof.
  apply (evaluation_restores_target (TWatcher 1)
           [Push (TWatcher 2); Push TUndefined; Pop; Pop] no_targets).
  reflexivity.
Defined.

Section notify_more.
Context {Watcher St : Type}.
Variable id : Watcher → Z.
Variable subs : St → list Watcher.
Variable update : Watcher → St → Dep.Outcome St.

End notify_more.

End dep_more.


(** ** More on the optimizer: what the two passes guarantee *)

Section optimizer_passes.
Import Optimizer.

Section optimizer_more.
Variable isBuiltInTag : string → bool.
Variable isStaticKey : string → bool.
Variable isPlatformReservedTag : string → bool.

Local Abbreviation markStatic :=
  (Optimizer.markStatic isBuiltInTag isStaticKey isPlatformReservedTag).
Local Abbreviation isStatic :=
  (Optimizer.isStatic isBuiltInTag isStaticKey isPlatformReservedTag).
Local Abbreviation traversed := (Optimizer.traversed isPlatformReservedTag).
Local Abbreviation static_subtree := (Optimizer.static_subtree isPlatformReservedTag).
Local Abbreviation static_roots_static := (Optimizer.static_roots_static isPlatformReservedTag).
#[local] Arguments Optimizer.isStatic : simpl never.

Local Abbreviation marked_blocks ifs :=
  (match ifs with
   | Some (first :: bs) =>
       Some (first :: map (λ c, set_block c (markStatic (block c))) bs)
   | other => other
   end).

Lemma markStatic_element e :
  markStatic (ASTElement e) =
    if traversed e then
      ASTElement
        (set_subtrees
           (set_static (set_static e (isStatic (ASTElement e)))
              (isStatic (ASTElement e) &&
               forallb marked_static (map markStatic (children e)) &&
               forallb (λ c, marked_static (block c))
                 (tail (default [] (marked_blocks (ifConditions e))))))
           (map markStatic (children e))
           (marked_blocks (ifConditions e)))
    else ASTElement (set_static e (isStatic (ASTElement e))).
Proof.
  unfold traversed, Optimizer.traversed. simpl.
  change (no_inline_template (set_static e (isStatic (ASTElement e))))
    with (no_inline_template e).
  destruct (negb (isPlatformReservedTag (tag e)) && negb (String.eqb (tag e) "slot") &&
            no_inline_template e) eqn:E; [done|]. simpl.
  lazymatch goal with
  | |- context [?f (children e) (isStatic (ASTElement e))] => set (mc := f)
  end.
  assert (Hmc : ∀ cs st, mc cs st =
            (map markStatic cs, st && forallb marked_static (map markStatic cs))).
  { induction cs as [|c cs IH]; intros st; simpl.
    - by rewrite andb_true_r.
    - rewrite IH. f_equal. unfold marked_static.
      destruct (truthy (node_static (markStatic c))); simpl; [done|].
      by rewrite andb_false_r. }
  rewrite Hmc. clear Hmc mc.
  destruct (ifConditions e) as [[|first bs]|]; simpl; try by rewrite andb_true_r.
  lazymatch goal with
  | |- context [?f bs (isStatic (ASTElement e) && _)] => set (mb := f)
  end.
  assert (Hmb : ∀ bs st, mb bs st =
            (map (λ c, set_block c (markStatic (block c))) bs,
             st && forallb (λ c, marked_static (block c))
                     (map (λ c, set_block c (markStatic (block c))) bs))).
  { clear. induction bs as [|c bs IH]; intros st; simpl.
    - by rewrite andb_true_r.
    - rewrite IH. f_equal. unfold marked_static.
      destruct (truthy (node_static (markStatic (block c)))); simpl; [done|].
      by rewrite andb_false_r. }
  by rewrite Hmb.
Qed.


Lemma Forall_mp {A} (P Q R : A → Prop) (l : list A) :
  Forall P l → Forall Q l → (∀ x, P x → Q x → R x) → Forall R l.
Proof. induction 1; inversion 1; subst; intros; constructor; auto. Qed.

Lemma truthy_Some_true (x : option bool) : truthy x = true ↔ x = Some true.
Proof. destruct x as [[]|]; simpl; split; congruence. Qed.

Lemma forallb_Forall' {A} (f : A → bool) (l : list A) :
  forallb f l = true ↔ Forall (λ x, f x = true) l.
Proof. rewrite forallb_forall, Forall_forall. split; intros H x Hx; apply H; by apply list_elem_of_In. Qed.

(** X3: for an element that is no slot content of a component, markStatic
    marks the children and the later conditional blocks, and the element ends
    static exactly when its own isStatic test holds and each of them ended
    static. *)
Theorem markStatic_static_iff e :
  traversed e = true →
  ∃ e',
    markStatic (ASTElement e) = ASTElement e' ∧
    children e' = map markStatic (children e) ∧
    later_blocks e' =
      map (λ c, set_block c (markStatic (block c))) (later_blocks e) ∧
    (static e' = Some true ↔
       isStatic (ASTElement e) = true ∧
       Forall (λ c, node_static c = Some true) (children e') ∧
       Forall (λ c, node_static (block c) = Some true) (later_blocks e')) ∧
    (static e' = Some true ∨ static e' = Some false).
Proof.
  intros Ht. rewrite markStatic_element, Ht. eexists. split; [reflexivity|].
  simpl. split; [done|].
  assert (later_blocks (set_subtrees
            (set_static (set_static e (isStatic (ASTElement e))) true)
            (map markStatic (children e)) (marked_blocks (ifConditions e)))
          = map (λ c, set_block c (markStatic (block c))) (later_blocks e)) as Hl.
  { unfold later_blocks. simpl. by destruct (ifConditions e) as [[|first bs]|]. }
  unfold later_blocks in *. simpl in *. rewrite Hl. split; [|split].
  - done.
  - split.
    + intros [= H]. apply andb_prop in H as [H H3]. apply andb_prop in H as [H1 H2].
      split; [done|]. split.
      * apply forallb_Forall' in H2. eapply Forall_impl; [exact H2|].
        intros c. apply truthy_Some_true.
      * apply forallb_Forall' in H3. eapply Forall_impl; [exact H3|].
        intros c. apply truthy_Some_true.
    + intros (H1 & H2 & H3). f_equal. rewrite H1. simpl.
      apply andb_true_intro. split.
      * apply forallb_Forall'. eapply Forall_impl; [exact H2|].
        intros c. apply truthy_Some_true.
      * apply forallb_Forall'. eapply Forall_impl; [exact H3|].
        intros c. apply truthy_Some_true.
  - match goal with |- Some ?b = _ ∨ _ => destruct b; [by left|by right] end.
Qed.

Lemma markStatic_static_closed node :
  node_static (markStatic node) = Some true → static_subtree (markStatic node).
Proof.
  induction node as [t|t|e IHc IHb] using ASTNode_induction.
  - intros _. by constructor.
  - done.
  - rewrite markStatic_element. destruct (traversed e) eqn:Ht.
    + simpl. intros [= H]. apply andb_prop in H as [H H3]. apply andb_prop in H as [H1 H2].
      apply static_element; simpl.
      * by rewrite H1, H2, H3.
      * done.
      * apply Forall_map. apply forallb_Forall' in H2. apply Forall_map in H2.
        eapply Forall_mp; [exact IHc|exact H2|]. simpl.
        intros c Hc1 Hc2. apply Hc1. by apply truthy_Some_true.
      * unfold later_blocks in *. simpl.
        destruct (ifConditions e) as [[|first bs]|]; simpl in *; [done| |done].
        apply List.Forall_inv_tail in IHb. apply Forall_map.
        apply forallb_Forall' in H3. apply Forall_map in H3.
        eapply Forall_mp; [exact IHb|exact H3|]. simpl.
        intros c Hc1 Hc2. apply Hc1. by apply truthy_Some_true.
    + simpl. intros H. by apply static_unvisited.
Qed.

End optimizer_more.

Section optimizer_roots.
Variable isPlatformReservedTag : string → bool.
Local Abbreviation traversed := (Optimizer.traversed isPlatformReservedTag).
Local Abbreviation static_subtree := (Optimizer.static_subtree isPlatformReservedTag).
Local Abbreviation static_roots_static := (Optimizer.static_roots_static isPlatformReservedTag).

Lemma static_subtree_same e1 e2 :
  static_subtree (ASTElement e1) →
  static e2 = static e1 → tag e2 = tag e1 → attrsMap e2 = attrsMap e1 →
  children e2 = children e1 → ifConditions e2 = ifConditions e1 →
  static_subtree (ASTElement e2).
Proof.
  intros H Hs Ht Ha Hc Hi.
  assert (traversed e2 = traversed e1) as Htr.
  { unfold traversed, Optimizer.traversed, no_inline_template. by rewrite Ht, Ha. }
  inversion H; subst.
  - apply static_unvisited; congruence.
  - apply static_element; [congruence|congruence| |].
    + by rewrite Hc.
    + unfold later_blocks. by rewrite Hi.
Qed.

Lemma mark_staticInFor_fields (e : Element ASTNode) f :
  static (mark_staticInFor e f) = static e ∧
  tag (mark_staticInFor e f) = tag e ∧
  attrsMap (mark_staticInFor e f) = attrsMap e ∧
  children (mark_staticInFor e f) = children e ∧
  ifConditions (mark_staticInFor e f) = ifConditions e.
Proof. unfold mark_staticInFor. by destruct (truthy (static e) || once e). Qed.

Lemma markStaticRoots_unmarked node :
  unmarked node = true → ∀ f, static_roots_static (markStaticRoots node f).
Proof.
  induction node as [t|t|e IHc IHb] using ASTNode_induction;
    intros Hu f; [constructor..|].
  simpl in Hu. apply andb_prop in Hu as [Hu H3]. apply andb_prop in Hu as [H1 H2].
  apply bool_decide_eq_true in H1.
  simpl. rewrite qualifies_mark_staticInFor.
  assert (qualifies type e = false) as -> by (unfold qualifies; by rewrite H1).
  apply srs_inner; simpl.
  - done.
  - apply Forall_map. apply forallb_Forall' in H2.
    eapply Forall_mp; [exact IHc|exact H2|]. simpl. auto.
  - unfold later_blocks. simpl.
    destruct (ifConditions e) as [[|first bs]|]; simpl in *; [done| |done].
    apply List.Forall_inv_tail in IHb. apply Forall_map. apply forallb_Forall' in H3.
    eapply Forall_mp; [exact IHb|exact H3|]. simpl. auto.
Qed.

Variable isBuiltInTag : string → bool.
Variable isStaticKey : string → bool.
Local Abbreviation markStatic :=
  (Optimizer.markStatic isBuiltInTag isStaticKey isPlatformReservedTag).
Local Abbreviation isStatic :=
  (Optimizer.isStatic isBuiltInTag isStaticKey isPlatformReservedTag).
#[local] Arguments Optimizer.isStatic : simpl never.

Lemma qualifies_static (e : Element ASTNode) :
  qualifies type e = true → static e = Some true.
Proof.
  unfold qualifies. intros H. apply andb_prop in H as [H _].
  apply andb_prop in H as [H _]. by apply truthy_Some_true.
Qed.

Lemma passes_static_roots node :
  unmarked node = true → ∀ f, static_roots_static (markStaticRoots (markStatic node) f).
Proof.
  induction node as [t|t|e IHc IHb] using ASTNode_induction;
    intros Hu f; [constructor..|].
  pose proof (markStatic_static_closed isBuiltInTag isStaticKey isPlatformReservedTag
                (ASTElement e)) as Hclosed.
  revert Hclosed. rewrite markStatic_element.
  simpl in Hu. apply andb_prop in Hu as [Hu H3]. apply andb_prop in Hu as [H1 H2].
  destruct (Optimizer.traversed isPlatformReservedTag e) eqn:Ht; intros Hclosed.
  - match type of Hclosed with _ → Optimizer.static_subtree _ (ASTElement ?x) => set (e1 := x) in * end.
    simpl. rewrite qualifies_mark_staticInFor.
    destruct (qualifies type e1) eqn:Hq.
    + apply srs_root; [done|].
      destruct (mark_staticInFor_fields e1 f) as (F1 & F2 & F3 & F4 & F5).
      eapply static_subtree_same; [apply Hclosed; exact (qualifies_static _ Hq)|done..].
    + apply srs_inner; [done| |].
      * simpl. apply Forall_map, Forall_map. apply forallb_Forall' in H2.
        eapply Forall_mp; [exact IHc|exact H2|]. simpl. auto.
      * unfold later_blocks. simpl.
        destruct (ifConditions e) as [[|first bs]|]; simpl in *; [done| |done].
        apply List.Forall_inv_tail in IHb. apply Forall_map, Forall_map.
        apply forallb_Forall' in H3.
        eapply Forall_mp; [exact IHb|exact H3|]. simpl. auto.
  - match type of Hclosed with _ → Optimizer.static_subtree _ (ASTElement ?x) => set (e1 := x) in * end.
    simpl. rewrite qualifies_mark_staticInFor.
    destruct (qualifies type e1) eqn:Hq.
    + apply srs_root; [done|].
      destruct (mark_staticInFor_fields e1 f) as (F1 & F2 & F3 & F4 & F5).
      eapply static_subtree_same; [apply Hclosed; exact (qualifies_static _ Hq)|done..].
    + apply srs_inner; [done| |].
      * simpl. apply Forall_map. apply forallb_Forall' in H2.
        eapply Forall_impl; [exact H2|]. intros c Hc. by apply markStaticRoots_unmarked.
      * unfold later_blocks. simpl.
        destruct (ifConditions e) as [[|first bs]|]; simpl in *; [done| |done].
        apply Forall_map. apply forallb_Forall' in H3.
        eapply Forall_impl; [exact H3|]. intros c Hc. by apply markStaticRoots_unmarked.
Qed.
End optimizer_roots.

(** X4: after optimize of an AST without static flags, every node marked a
    static root heads a subtree whose nodes are all static (the content of a
    component with v-pre apart, which the first pass does not visit). *)
Theorem optimize_static_roots makeMap isBuiltInTag root options root' :
  unmarked root = true →
  optimize makeMap isBuiltInTag (Some root) options = Some root' →
  static_roots_static (default no (isReservedTag options)) root'.
Proof.
  intros Hu [= <-]. by apply passes_static_roots.
Qed.

Lemma optimize_static_roots_witness :
  static_roots_static sample_isReservedTag
    (markStaticRoots
       (Optimizer.markStatic sample_isBuiltInTag
          (genStaticKeys sample_makeMap "staticClass,staticStyle") sample_isReservedTag
          (ASTElement (plain_element "div"
             [ASTElement (plain_element "p" [plain_text "a"; plain_text "b"]);
              binding_text "{{ c }}"])))
       false).
Proof.
  apply (optimize_static_roots sample_makeMap sample_isBuiltInTag
           (ASTElement (plain_element "div"
             [ASTElement (plain_element "p" [plain_text "a"; plain_text "b"]);
              binding_text "{{ c }}"]))
           sample_options).
  - reflexivity.
  - reflexivity.
Defined.

(** ** Running the passes again, and what they leave alone *)

Lemma elem_of_add_key k ks : k ∈ add_key k ks.
Proof.
  unfold add_key. destruct (bool_decide (k ∈ ks)) eqn:E.
  - by apply bool_decide_eq_true in E.
  - set_solver.
Qed.

Lemma add_key_elem k ks : k ∈ ks → add_key k ks = ks.
Proof. intros H. unfold add_key. by rewrite bool_decide_eq_true_2. Qed.

Lemma elem_of_add_key_other k k' ks : k ∈ ks → k ∈ add_key k' ks.
Proof. unfold add_key. destruct (bool_decide (k' ∈ ks)); set_solver. Qed.

Lemma filter_add_key (P : string → Prop) `{∀ x, Decision (P x)} k ks :
  ¬ P k → filter P (add_key k ks) = filter P ks.
Proof.
  intros Hk. unfold add_key. destruct (bool_decide (k ∈ ks)); [done|].
  rewrite filter_app. rewrite filter_cons_False by done.
  by rewrite filter_nil, app_nil_r.
Qed.

Section optimizer_again.
Variable isBuiltInTag : string → bool.
Variable isStaticKey : string → bool.
Variable isPlatformReservedTag : string → bool.
Local Abbreviation markStatic :=
  (Optimizer.markStatic isBuiltInTag isStaticKey isPlatformReservedTag).
Local Abbreviation isStatic :=
  (Optimizer.isStatic isBuiltInTag isStaticKey isPlatformReservedTag).
#[local] Arguments Optimizer.isStatic : simpl never.

Lemma isStatic_marked_key (e : Element ASTNode) :
  isStaticKey "static" = false → pre e = false → "static" ∈ keys e →
  isStatic (ASTElement e) = false.
Proof.
  intros Hk Hpre Hin. unfold Optimizer.isStatic. rewrite Hpre. simpl.
  destruct (forallb isStaticKey (keys e)) eqn:E; [|by rewrite andb_false_r].
  apply forallb_Forall' in E. rewrite Forall_forall in E.
  rewrite (E _ Hin) in Hk. discriminate.
Qed.

(** X5: the first pass is not to be run twice: it tests the node's own keys,
    and it adds the key "static" itself.  When "static" is no static key, an
    element without v-pre that was marked once is marked not static by a second
    run, whatever the first run found. *)
Theorem markStatic_again_not_static (e : Element ASTNode) :
  isStaticKey "static" = false → pre e = false →
  ∃ e1 e2,
    markStatic (ASTElement e) = ASTElement e1 ∧
    markStatic (ASTElement e1) = ASTElement e2 ∧
    static e2 = Some false.
Proof.
  intros Hk Hpre.
  assert (∃ e1, markStatic (ASTElement e) = ASTElement e1 ∧ pre e1 = false ∧
                "static" ∈ keys e1) as (e1 & H1 & Hpre1 & Hin1).
  { rewrite markStatic_element.
    destruct (Optimizer.traversed isPlatformReservedTag e); eexists; (split; [reflexivity|]);
      simpl; (split; [done|]).
    - apply elem_of_add_key.
    - apply elem_of_add_key. }
  exists e1. rewrite H1, markStatic_element.
  rewrite (isStatic_marked_key e1 Hk Hpre1 Hin1).
  destruct (Optimizer.traversed isPlatformReservedTag e1); eexists; (split; [reflexivity|]);
    by split.
Qed.

(** X6: the second pass can be run again: a second run with the same flag
    leaves the tree as the first run left it. *)
Theorem markStaticRoots_idempotent node isInFor :
  markStaticRoots (markStaticRoots node isInFor) isInFor = markStaticRoots node isInFor.
Proof.
  revert isInFor. induction node as [t|t|e IHc IHb] using ASTNode_induction;
    intros isInFor; [done..|].
  assert (Hm : ∀ e0 : Element ASTNode,
            static e0 = static e → once e0 = once e →
            "staticInFor" ∈ keys e0 ∨ (truthy (static e) || once e = false) →
            (truthy (static e) || once e = true → staticInFor e0 = Some isInFor) →
            mark_staticInFor e0 isInFor = e0).
  { intros e0 Hs Ho Hkey Hval. unfold mark_staticInFor. rewrite Hs, Ho.
    destruct (truthy (static e) || once e) eqn:E; [|done].
    destruct Hkey as [Hkey|?]; [|done].
    destruct e0. unfold set_staticInFor. simpl in *.
    rewrite (add_key_elem _ _ Hkey). by rewrite (Hval eq_refl). }
  simpl. rewrite qualifies_mark_staticInFor.
  destruct (qualifies type e) eqn:Hq.
  - simpl. rewrite qualifies_mark_staticInFor.
    assert (mark_staticInFor (set_staticRoot (mark_staticInFor e isInFor) true) isInFor
            = set_staticRoot (mark_staticInFor e isInFor) true) as ->.
    { apply Hm; simpl.
      - unfold mark_staticInFor. by destruct (_ || _).
      - unfold mark_staticInFor. by destruct (_ || _).
      - unfold mark_staticInFor. destruct (truthy (static e) || once e); [left|by right].
        simpl. apply elem_of_add_key_other, elem_of_add_key.
      - intros E. unfold mark_staticInFor. by rewrite E. }
    assert (qualifies type (set_staticRoot (mark_staticInFor e isInFor) true) = true) as ->.
    { change (qualifies type (mark_staticInFor e isInFor) = true).
      by rewrite qualifies_mark_staticInFor. }
    f_equal. unfold set_staticRoot. simpl. f_equal.
    apply add_key_elem, elem_of_add_key.
  - match goal with |- markStaticRoots (ASTElement ?x) _ = _ => set (e1 := x) end.
    simpl. rewrite qualifies_mark_staticInFor.
    assert (mark_staticInFor e1 isInFor = e1) as ->.
    { apply Hm; simpl.
      - unfold mark_staticInFor. by destruct (_ || _).
      - unfold mark_staticInFor. by destruct (_ || _).
      - unfold mark_staticInFor. destruct (truthy (static e) || once e); [left|by right].
        simpl. apply elem_of_add_key_other, elem_of_add_key.
      - intros E. unfold mark_staticInFor. by rewrite E. }
    assert (qualifies type e1 = false) as ->.
    { rewrite <- Hq. eapply qualifies_map_children; [|reflexivity|].
      - simpl. unfold mark_staticInFor. by destruct (_ || _).
      - intros c. apply type_markStaticRoots. }
    f_equal. unfold e1, set_subtrees, set_staticRoot. simpl.
    assert (for_ (mark_staticInFor e isInFor) = for_ e) as Hfor.
    { unfold mark_staticInFor. by destruct (_ || _). }
    rewrite ?Hfor. f_equal.
    + rewrite <- list_fmap_compose. apply Forall_fmap_ext.
      eapply Forall_impl; [exact IHc|]. simpl. intros c Hc. apply Hc.
    + destruct (ifConditions e) as [[|first bs]|]; simpl in *; [done| |done].
      f_equal. f_equal. apply List.Forall_inv_tail in IHb.
      rewrite <- list_fmap_compose. apply Forall_fmap_ext.
      eapply Forall_impl; [exact IHb|]. simpl. intros c Hc. unfold set_block. simpl.
      f_equal. apply Hc.
    + apply add_key_elem, elem_of_add_key.
Qed.

(** X7: an element right below a [<template v-for>], also through templates
    without a loop, is static only by v-pre: isDirectChildOfTemplateFor holds
    exactly when the chain of parents starts with templates without a loop up
    to a template with one. *)
Theorem isDirectChildOfTemplateFor_iff (e : Element ASTNode) :
  (isDirectChildOfTemplateFor e = true ↔
     ∃ before a after,
       parent e = before ++ a :: after ∧
       Forall (λ x, anc_tag x = "template" ∧ truthy_str (anc_for x) = false) before ∧
       anc_tag a = "template" ∧ truthy_str (anc_for a) = true) ∧
  (isDirectChildOfTemplateFor e = true → isStatic (ASTElement e) = pre e).
Proof.
  split.
  - unfold isDirectChildOfTemplateFor. induction (parent e) as [|x chain IH]; simpl.
    + split; [done|]. intros (b & a & c & H & _). by destruct b.
    + destruct (String.eqb (anc_tag x) "template") eqn:Etag; simpl.
      * apply String.eqb_eq in Etag. destruct (truthy_str (anc_for x)) eqn:Efor.
        -- split; [|done]. intros _. by exists [], x, chain.
        -- rewrite IH. split.
           ++ intros (b & a & c & -> & Hb & Ha1 & Ha2).
              exists (x :: b), a, c. split; [done|]. split; [|done].
              by constructor.
           ++ intros (b & a & c & Heq & Hb & Ha1 & Ha2).
              destruct b as [|y b]; simpl in Heq; injection Heq as -> ->.
              { congruence. }
              apply Forall_cons in Hb as [_ Hb]. by exists b, a, c.
      * apply String.eqb_neq in Etag. split; [done|].
        intros (b & a & c & Heq & Hb & Ha1 & Ha2).
        destruct b as [|y b]; simpl in Heq; injection Heq as -> ->.
        { congruence. }
        apply Forall_cons in Hb as [[Hy _] _]. congruence.
  - intros H. unfold Optimizer.isStatic. rewrite H. simpl.
    rewrite !andb_false_r. simpl. apply orb_false_r.
Qed.
End optimizer_again.

Lemma markStatic_again_not_static_witness :
  ∃ e1 e2,
    Optimizer.markStatic sample_isBuiltInTag sample_isStaticKey sample_isReservedTag
      (ASTElement (plain_element "p" [plain_text "a"])) = ASTElement e1 ∧
    Optimizer.markStatic sample_isBuiltInTag sample_isStaticKey sample_isReservedTag
      (ASTElement e1) = ASTElement e2 ∧
    static e2 = Some false.
Proof.
  apply (markStatic_again_not_static sample_isBuiltInTag sample_isStaticKey
           sample_isReservedTag (plain_element "p" [plain_text "a"])).
  - reflexivity.
  - reflexivity.
Defined.

Section optimizer_marks.
Variable isBuiltInTag : string → bool.
Variable isStaticKey : string → bool.
Variable isPlatformReservedTag : string → bool.
Local Abbreviation markStatic :=
  (Optimizer.markStatic isBuiltInTag isStaticKey isPlatformReservedTag).
#[local] Arguments Optimizer.isStatic : simpl never.

Lemma not_mark_key_static : ¬ ("static" ∉ mark_keys).
Proof. intros H. apply H. set_solver. Qed.
Lemma not_mark_key_staticInFor : ¬ ("staticInFor" ∉ mark_keys).
Proof. intros H. apply H. set_solver. Qed.
Lemma not_mark_key_staticRoot : ¬ ("staticRoot" ∉ mark_keys).
Proof. intros H. apply H. set_solver. Qed.

Lemma clear_marks_markStatic node : clear_marks (markStatic node) = clear_marks node.
Proof.
  induction node as [t|t|e IHc IHb] using ASTNode_induction; [done..|].
  rewrite markStatic_element.
  destruct (Optimizer.traversed isPlatformReservedTag e); simpl.
  - f_equal. f_equal.
    + rewrite <- list_fmap_compose. apply Forall_fmap_ext.
      eapply Forall_impl; [exact IHc|]. simpl. auto.
    + destruct (ifConditions e) as [[|first bs]|]; simpl in *; [done| |done].
      f_equal. f_equal. apply List.Forall_inv_tail in IHb.
      rewrite <- list_fmap_compose. apply Forall_fmap_ext.
      eapply Forall_impl; [exact IHb|]. simpl. intros c Hc. unfold set_block. simpl.
      by f_equal.
    + rewrite !filter_add_key; [done|apply not_mark_key_static..].
  - f_equal. f_equal. rewrite !filter_add_key; [done|apply not_mark_key_static..].
Qed.

Lemma clear_marks_markStaticRoots node f :
  clear_marks (markStaticRoots node f) = clear_marks node.
Proof.
  revert f. induction node as [t|t|e IHc IHb] using ASTNode_induction;
    intros f; [done..|].
  assert (Hk : filter (λ k, k ∉ mark_keys)
                      (add_key "staticRoot" (keys (mark_staticInFor e f)))
                    = filter (λ k, k ∉ mark_keys) (keys e)).
  { rewrite filter_add_key by apply not_mark_key_staticRoot.
    unfold mark_staticInFor. destruct (_ || _); [|done]. simpl.
    by rewrite filter_add_key by apply not_mark_key_staticInFor. }
  assert (Hf : ∀ x : Element ASTNode,
            (tag (mark_staticInFor x f), attrsMap (mark_staticInFor x f),
             parent (mark_staticInFor x f), children (mark_staticInFor x f),
             ifConditions (mark_staticInFor x f), pre (mark_staticInFor x f),
             hasBindings (mark_staticInFor x f), if_ (mark_staticInFor x f),
             for_ (mark_staticInFor x f), once (mark_staticInFor x f))
            = (tag x, attrsMap x, parent x, children x, ifConditions x, pre x,
               hasBindings x, if_ x, for_ x, once x)).
  { intros x. unfold mark_staticInFor. by destruct (_ || _). }
  injection (Hf e) as F1 F2 F3 F4 F5 F6 F7 F8 F9 F10.
  simpl. destruct (qualifies type (mark_staticInFor e f)); simpl.
  - rewrite Hk, F1, F2, F3, F4, F5, F6, F7, F8, F9, F10. done.
  - rewrite Hk, F1, F2, F3, F6, F7, F8, F9, F10. f_equal. f_equal.
    + rewrite <- list_fmap_compose. apply Forall_fmap_ext.
      eapply Forall_impl; [exact IHc|]. simpl. auto.
    + destruct (ifConditions e) as [[|first bs]|]; simpl in *; [done| |done].
      f_equal. f_equal. apply List.Forall_inv_tail in IHb.
      rewrite <- list_fmap_compose. apply Forall_fmap_ext.
      eapply Forall_impl; [exact IHb|]. simpl. intros c Hc. unfold set_block. simpl.
      by f_equal.
Qed.
End optimizer_marks.

(** X8: optimize writes the flags static, staticInFor and staticRoot and
    nothing else: tags, attributes, directives, and the order and number of
    children and conditional blocks are as they were. *)
Theorem optimize_only_marks makeMap isBuiltInTag root options :
  clear_marks <$> optimize makeMap isBuiltInTag root options = clear_marks <$> root.
Proof.
  destruct root as [root|]; [|done]. simpl. f_equal.
  by rewrite clear_marks_markStaticRoots, clear_marks_markStatic.
Qed.

Lemma markStatic_static_iff_witness :
  ∃ e',
    Optimizer.markStatic sample_isBuiltInTag sample_isStaticKey sample_isReservedTag
      (ASTElement (plain_element "div" [plain_text "a"; binding_text "{{ b }}"]))
      = ASTElement e' ∧
    children e' =
      map (Optimizer.markStatic sample_isBuiltInTag sample_isStaticKey sample_isReservedTag)
          (children (plain_element "div" [plain_text "a"; binding_text "{{ b }}"])) ∧
    later_blocks e' =
      map (λ c, set_block c
                  (Optimizer.markStatic sample_isBuiltInTag sample_isStaticKey
                     sample_isReservedTag (block c)))
          (later_blocks (plain_element "div" [plain_text "a"; binding_text "{{ b }}"])) ∧
    (static e' = Some true ↔
       Optimizer.isStatic sample_isBuiltInTag sample_isStaticKey sample_isReservedTag
         (ASTElement (plain_element "div" [plain_text "a"; binding_text "{{ b }}"])) = true ∧
       Forall (λ c, node_static c = Some true) (children e') ∧
       Forall (λ c, node_static (block c) = Some true) (later_blocks e')) ∧
    (static e' = Some true ∨ static e' = Some false).
Proof.
  apply (markStatic_static_iff sample_isBuiltInTag sample_isStaticKey sample_isReservedTag
           (plain_element "div" [plain_text "a"; binding_text "{{ b }}"])).
  reflexivity.
Defined.
End optimizer_passes.


(** ** More on the observer: refusals, reads, walk, and deletion *)

Section observer_more.
Variable env : Observer.Env.

(** X9: observe makes no Observer for a value that is no object, for a VNode,
    while observation is switched off (toggleObserving(false)), on the
    server, for an object that is neither a list nor a plain object, and for
    one that is not extensible (frozen, sealed): it returns undefined and
    changes nothing.  An object that carries an Observer already is not
    concerned: its Observer is returned in all these cases. *)
Theorem observe_refuses n v b w :
  (isObject v = false → observe env (S n) v b w = Ok None w) ∧
  (∀ r o, v = VObj r → objs w !! r = Some o →
     isVNode o = true → observe env (S n) v b w = Ok None w) ∧
  (∀ r o, v = VObj r → objs w !! r = Some o → hasOwn o ob_key = false →
     shouldObserve w = false ∨ serverRendering env = true ∨
     (isArray o || isPlainObject o) = false ∨ extensible o = false →
     observe env (S n) v b w = Ok None w) ∧
  (∀ r o w1, v = VObj r → objs w !! r = Some o → hasOwn o ob_key = false →
     toggleObserving false w = Ok tt w1 →
     observe env (S n) v b w1 = Ok None w1).
Proof.
  assert (Hoff : ∀ r o w0, objs w0 !! r = Some o → hasOwn o ob_key = false →
     shouldObserve w0 = false ∨ serverRendering env = true ∨
     (isArray o || isPlainObject o) = false ∨ extensible o = false →
     observe env (S n) (VObj r) b w0 = Ok None w0).
  { intros r o w0 Ho Hown Hcase. simpl. unfold bind at 1. unfold get_obj. rewrite Ho.
    destruct (isVNode o); [done|]. unfold ob_key in Hown. rewrite Hown.
    unfold bind at 1. unfold ret at 1. simpl. unfold bind at 1. unfold bind at 1.
    assert (shouldObserve w0 && negb (serverRendering env) &&
            (isArray o || isPlainObject o) && extensible o = false) as ->.
    { destruct Hcase as [-> | [-> | [-> | ->]]]; simpl;
        rewrite ?andb_false_r; done. }
    done. }
  split; [|split; [|split]].
  - by destruct v.
  - intros r o -> Ho HV. simpl. unfold bind, get_obj. by rewrite Ho, HV.
  - intros r o -> Ho Hown Hcase. by eapply Hoff.
  - intros r o w1 -> Ho Hown [= <-]. eapply Hoff; [exact Ho|done|by left].
Qed.

Lemma reactiveGetter_reads n r o k d cell w :
  objs w !! r = Some o →
  getOwnPropertyDescriptor o k = Some (reactive_accessor d) →
  cells w !! d = Some cell →
  cell_getter cell = None →
  (target w = None → get env (S (S n)) r k w = Ok (cell_val cell) w) ∧
  (∀ t, target w = Some t → cell_childOb cell = None →
     get env (S (S n)) r k w
       = Ok (cell_val cell) (set_events w (events w ++ [EvAddDep t d]))) ∧
  (∀ t ob inst r' o',
     target w = Some t → cell_childOb cell = Some ob →
     observers w !! ob = Some inst →
     cell_val cell = VObj r' → objs w !! r' = Some o' → isArray o' = false →
     get env (S (S n)) r k w
       = Ok (cell_val cell)
            (set_events w (events w ++ [EvAddDep t d; EvAddDep t (dep inst)]))).
Proof.
  intros Ho Hp Hc Hg.
  assert (Hget : get env (S (S n)) r k w = reactiveGetter env (S n) d w).
  { simpl. unfold bind at 1. erewrite find_property_own by eauto. done. }
  rewrite Hget. clear Hget.
  split; [|split].
  - intros Ht. simpl. unfold bind, get_cell, current_value, ret.
    rewrite Hc, Hg, Ht. done.
  - intros t Ht Hch. simpl. unfold bind, get_cell, current_value, ret, dep_depend, log.
    repeat (progress (rewrite ?Hc, ?Hg, ?Ht, ?Hch; simpl)). done.
  - intros t ob inst r' o' Ht Hch Hob Hv Ho' Harr. simpl.
    unfold bind, get_cell, current_value, ret, dep_depend, log, get_observer, get_obj.
    repeat (progress (rewrite ?Hc, ?Hg, ?Ht, ?Hch, ?Hob, ?Hv, ?Ho', ?Harr; simpl)).
    by rewrite <- (assoc_L (++)).
Qed.

(** X11: reading a reactive property whose closure has no earlier getter
    returns the closure's value.  Without an active Watcher nothing else
    happens; with one, the property's Dep is registered with it, and after it
    the Dep of the value's Observer when the value has one. *)
Theorem reactive_read n r o k d cell w :
  objs w !! r = Some o →
  getOwnPropertyDescriptor o k = Some (reactive_accessor d) →
  cells w !! d = Some cell →
  cell_getter cell = None →
  (target w = None → get env (S (S n)) r k w = Ok (cell_val cell) w) ∧
  (∀ t, target w = Some t → cell_childOb cell = None →
     get env (S (S n)) r k w
       = Ok (cell_val cell) (set_events w (events w ++ [EvAddDep t d]))) ∧
  (∀ t ob inst r' o',
     target w = Some t → cell_childOb cell = Some ob →
     observers w !! ob = Some inst →
     cell_val cell = VObj r' → objs w !! r' = Some o' → isArray o' = false →
     get env (S (S n)) r k w
       = Ok (cell_val cell)
            (set_events w (events w ++ [EvAddDep t d; EvAddDep t (dep inst)]))).
Proof. apply reactiveGetter_reads. Qed.

Lemma bind_ext_at {A B} (m : M A) (k k' : A → M B) w :
  (∀ a w1, m w = Ok a w1 → k a w1 = k' a w1) → bind m k w = bind m k' w.
Proof. intros H. unfold bind. destruct (m w); try done. by apply H. Qed.

(** The entry of [del] for an object that is no list, after the reads of
    [__ob__] and [_isVue]. *)
Lemma del_record n r o key w ob isVue :
  objs w !! r = Some o →
  isArray o = false →
  get env n r (KeyStr "__ob__") w = Ok ob w →
  get env n r (KeyStr "_isVue") w = Ok isVue w →
  del env n (VObj r) key w =
    bind (if to_boolean isVue then ret None else
          match ob with
          | VObserver i => bind (get_observer i) (λ inst, ret (Some inst))
          | _ => if to_boolean ob then stuck else ret None
          end)
      (λ inst,
         if to_boolean isVue ||
            match inst with Some i => negb (vmCount i =? 0) | None => false end
         then when (negb (production env)) (warn del_warning)
         else
           if negb (hasOwn o key) then ret tt else
           bind (delete_property r key)
             (λ _, match inst with
                   | None => ret tt
                   | Some i => dep_notify (dep i)
                   end)) w.
Proof.
  intros Ho Harr Hob HisVue. unfold del. simpl.
  rewrite andb_false_r. simpl.
  unfold bind at 1. simpl. unfold bind at 1. unfold get_obj at 1. rewrite Ho.
  rewrite Harr. cbn [andb]. unfold bind at 1. rewrite Hob. unfold bind at 1. rewrite HisVue.
  match goal with |- bind ?m0 _ w = _ => set (m := m0) end.
  assert (∀ inst w1, m w = Ok inst w1 → w1 = w) as Hm.
  { intros inst w1 E. unfold m in E.
    destruct (to_boolean isVue); [by injection E|].
    destruct ob; simpl in E; try (by injection E); try done.
    - destruct b; [done|by injection E].
    - by destruct x; try (by injection E).
    - destruct (negb _); [done|by injection E].
    - unfold bind, get_observer in E. destruct (observers w !! ob); [|done].
      by injection E. }
  apply bind_ext_at. intros inst w1 E. apply Hm in E as ->.
  destruct (to_boolean isVue || _); [done|].
  unfold bind at 1. unfold get_obj. by rewrite Ho.
Qed.

Lemma delete_property_record r o key w :
  objs w !! r = Some o →
  isArray o && isValidArrayIndex key = false →
  delete_property r key w =
    match props o !! key with
    | Some p =>
        if configurable p
        then Ok tt (set_objs w (<[r := set_props o (delete key (props o))]> (objs w)))
        else TypeError w
    | None => Ok tt w
    end.
Proof.
  intros Ho Hrec. unfold delete_property, bind, get_obj. rewrite Ho.
  unfold isArray, isValidArrayIndex in Hrec.
  destruct (kind o), key; try discriminate Hrec;
    destruct (props o !! _) as [p|]; try done; by destruct (configurable p).
Qed.

(** X15: del refuses to delete from a Vue instance and from root data (an
    Observer with vmCount > 0): nothing is deleted and nothing notified; the
    development build reports the warning. *)
Theorem del_root_refused n r o key w ob isVue :
  objs w !! r = Some o →
  isArray o = false →
  get env n r (KeyStr "__ob__") w = Ok ob w →
  get env n r (KeyStr "_isVue") w = Ok isVue w →
  to_boolean isVue = true ∨
    (∃ i inst, ob = VObserver i ∧ observers w !! i = Some inst ∧ vmCount inst ≠ 0) →
  del env n (VObj r) key w =
    Ok tt (if production env then w else set_events w (events w ++ [EvWarn del_warning])).
Proof.
  intros Ho Harr Hob HisVue Hroot.
  assert (Hrec : isArray o && isValidArrayIndex key = false) by (by rewrite Harr). rewrite (del_record n r o key w ob isVue) by done.
  assert (∀ inst : option ObserverInst,
            to_boolean isVue || match inst with
                                | Some i => negb (vmCount i =? 0)
                                | None => false
                                end = true →
            (if to_boolean isVue || match inst with
                                    | Some i => negb (vmCount i =? 0)
                                    | None => false
                                    end
             then when (negb (production env)) (warn del_warning)
             else if negb (hasOwn o key) then ret tt else
                  bind (delete_property r key)
                    (λ _, match inst with
                          | None => ret tt
                          | Some i => dep_notify (dep i)
                          end)) w
            = Ok tt (if production env then w
                     else set_events w (events w ++ [EvWarn del_warning]))) as Hwarn.
  { intros inst ->. unfold when, warn, log. by destruct (production env). }
  destruct Hroot as [Hv|(i & inst & -> & Hi & Hvm)].
  - rewrite Hv in *. unfold bind at 1. unfold ret at 1. by apply (Hwarn None).
  - destruct (to_boolean isVue) eqn:Hv.
    + unfold bind at 1. unfold ret at 1. by apply (Hwarn None).
    + unfold bind at 1. unfold bind at 1. unfold get_observer. rewrite Hi.
      unfold ret at 1. apply (Hwarn (Some inst)).
      simpl. by apply negb_true_iff, Nat.eqb_neq.
Qed.

(** X16: del of a key that is no own property of the target does nothing: no
    property is deleted and no Dep notified, on observed and on unobserved
    objects alike. *)
Theorem del_missing_key n r o key w ob isVue :
  objs w !! r = Some o →
  isArray o = false →
  get env n r (KeyStr "__ob__") w = Ok ob w →
  get env n r (KeyStr "_isVue") w = Ok isVue w →
  to_boolean isVue = false →
  to_boolean ob = false ∨
    (∃ i inst, ob = VObserver i ∧ observers w !! i = Some inst ∧ vmCount inst = 0) →
  hasOwn o key = false →
  del env n (VObj r) key w = Ok tt w.
Proof.
  intros Ho Harr Hob HisVue Hv Hcase Hown.
  assert (Hrec : isArray o && isValidArrayIndex key = false) by (by rewrite Harr).
  rewrite (del_record n r o key w ob isVue) by done. rewrite Hv.
  destruct Hcase as [Hfalse|(i & inst & -> & Hi & Hvm)].
  - assert (match ob with
            | VObserver i => bind (get_observer i) (λ inst, ret (Some inst))
            | _ => if to_boolean ob then stuck else ret None
            end w = Ok None w) as E.
    { destruct ob; try done; by rewrite Hfalse. }
    unfold bind at 1. rewrite E. simpl. by rewrite Hown.
  - unfold bind, get_observer, ret. rewrite Hi, Hvm. simpl. by rewrite Hown.
Qed.

(** X17: del of an own property deletes it; on an observed object that is no
    root data the Observer's Dep is then notified once, on an unobserved one
    nothing is notified.  An own property that is not configurable cannot be
    deleted: the strict-mode delete throws, and nothing is notified. *)
Theorem del_own_key n r o key w ob isVue p :
  objs w !! r = Some o →
  isArray o = false →
  get env n r (KeyStr "__ob__") w = Ok ob w →
  get env n r (KeyStr "_isVue") w = Ok isVue w →
  to_boolean isVue = false →
  props o !! key = Some p →
  (∀ i inst, ob = VObserver i → observers w !! i = Some inst → vmCount inst = 0 →
     del env n (VObj r) key w =
       if configurable p
       then Ok tt (set_events
                     (set_objs w (<[r := set_props o (delete key (props o))]> (objs w)))
                     (events w ++ [EvNotify (dep inst)]))
       else TypeError w) ∧
  (to_boolean ob = false →
     del env n (VObj r) key w =
       if configurable p
       then Ok tt (set_objs w (<[r := set_props o (delete key (props o))]> (objs w)))
       else TypeError w).
Proof.
  intros Ho Harr Hob HisVue Hv Hp.
  assert (Hrec : isArray o && isValidArrayIndex key = false) by (by rewrite Harr).
  assert (hasOwn o key = true) as Hown.
  { unfold hasOwn. rewrite gopd_record by done. rewrite Hp.
    by apply bool_decide_eq_true_2. }
  rewrite (del_record n r o key w ob isVue) by done. rewrite Hv. split.
  - intros i inst -> Hi Hvm. unfold bind at 1. unfold bind at 1.
    unfold get_observer. rewrite Hi. unfold ret at 1. rewrite Hvm. simpl.
    rewrite Hown. simpl. unfold bind.
    rewrite (delete_property_record r o key w) by done. rewrite Hp.
    by destruct (configurable p).
  - intros Hfalse.
    assert (match ob with
            | VObserver i => bind (get_observer i) (λ inst, ret (Some inst))
            | _ => if to_boolean ob then stuck else ret None
            end w = Ok None w) as E.
    { destruct ob; try done; by rewrite Hfalse. }
    unfold bind at 1. rewrite E. simpl. rewrite Hown. simpl. unfold bind.
    rewrite (delete_property_record r o key w) by done. rewrite Hp.
    by destruct (configurable p).
Qed.

(** X18: a target that is no object: set and del report it in a development
    build, in a warning that ends with the target, and go on.  set then
    throws a TypeError at [key in target] for every such target; del throws
    at [target.__ob__] for undefined and null, and returns without effect
    for a boolean or a number. *)
Theorem set_del_non_object_target n target key val w :
  isUndef target || isPrimitive target = true →
  let warned msg := if production env then w
                    else set_events w (events w ++ [EvWarnValue msg target]) in
  set env n target key val w = TypeError (warned set_target_warning) ∧
  (isUndef target = true →
     del env n target key w = TypeError (warned del_target_warning)) ∧
  ((∃ b, target = VBool b) ∨ (∃ x, target = VNum x) →
     del env n target key w = Ok tt (warned del_target_warning)).
Proof.
  intros Ht warned. unfold warned, set, del. rewrite Ht, andb_true_r.
  unfold bind, when, warn_value, log.
  split; [|split].
  - destruct target; try discriminate Ht; by destruct (production env).
  - intros Hu. destruct target; try discriminate Hu; by destruct (production env).
  - intros [[b ->]|[x ->]]; by destruct (production env).
Qed.
End observer_more.






Section walk.
Variable env : Observer.Env.





End walk.


(** ** Adding, reading, writing and deleting a property *)




Section property_life.
Variable env : Observer.Env.


Lemma read_reactive_plain n r o k d cell w :
  objs w !! r = Some o →
  getOwnPropertyDescriptor o k = Some (reactive_accessor d) →
  cells w !! d = Some cell →
  cell_getter cell = None → cell_childOb cell = None →
  get env (S (S n)) r k w =
    Ok (cell_val cell)
       (match target w with
        | Some t => set_events w (events w ++ [EvAddDep t d])
        | None => w
        end).
Proof.
  intros Ho Hp Hc Hg Hch.
  destruct (reactiveGetter_reads env n r o k d cell w Ho Hp Hc Hg) as (H1 & H2 & _).
  destruct (target w) as [t|] eqn:Ht; [by apply H2|by apply H1].
Qed.



(** X12: writing and reading a reactive property whose closure has no earlier
    accessors: after target[key] = v for a value v that is no object and
    differs from the current one, the property's Dep is notified and
    target[key] is v; a write of the current value changes nothing. *)
Theorem write_then_read n r o key c cell v w :
  objs w !! r = Some o →
  isArray o && isValidArrayIndex key = false →
  props o !! key = Some (reactive_accessor c) →
  cells w !! c = Some cell →
  cell_getter cell = None → cell_setter cell = None →
  c < uid w →
  isObject v = false →
  (same_value v (cell_val cell) = true →
     assign env (S (S n)) r key v w = Ok tt w) ∧
  (same_value v (cell_val cell) = false →
     ∃ w',
       assign env (S (S n)) r key v w = Ok tt w' ∧
       objs w' = objs w ∧
       events w' = events (custom_logged env cell w) ++ [EvNotify c] ∧
       get env (S (S n)) r key w' =
         Ok v (match target w with
               | Some t => set_events w' (events w' ++ [EvAddDep t c])
               | None => w'
               end)).
Proof.
  intros Ho Hrec Hp Hc Hg Hs Hlt Hobj.
  rewrite (assign_accessor env (S n) r o key v w _ _ _ _ Ho Hrec Hp).
  unfold call_setter. split.
  - intros Hsame. eapply reactiveSetter_same; [exact Hc| |exact Hsame].
    unfold current_value. by rewrite Hg.
  - intros Hdiff.
    assert (cells (custom_logged env cell w) = cells w ∧
            uid (custom_logged env cell w) = uid w ∧
            objs (custom_logged env cell w) = objs w ∧
            target (custom_logged env cell w) = target w) as (Ec & Eu & Eo & Et).
    { unfold custom_logged. destruct (cell_customSetter cell); [|done].
      by destruct (production env). }
    eexists. split.
    { eapply reactiveSetter_plain; try done.
      unfold reobserve. destruct (cell_shallow cell); [reflexivity|].
      by apply observe_non_object. }
    split; [simpl; done|]. split; [simpl; done|].
    rewrite (read_reactive_plain n r o key c
               (set_cell_childOb (set_cell_val cell v) None));
      [|simpl; rewrite Eo; exact Ho|by rewrite gopd_record|
       simpl; by rewrite lookup_insert_eq|done|done].
    simpl. by rewrite Et.
Qed.
End property_life.

(** ** The same on the sample states *)

Lemma reactive_read_witness :
  get sample_env 2 10 (KeyStr "a") sample_world = Ok (num 1) sample_world.
Proof.
  eapply (proj1 (reactive_read sample_env 0 10 _ (KeyStr "a") 1
                   (new_cell 10 (KeyStr "a") (num 1) None) sample_world _ _ _ _)).
  Unshelve.
  all: try (vm_compute; reflexivity).
Defined.

Lemma del_root_refused_witness :
  del sample_env 3 (VObj 12) (KeyStr "a") sample_world
    = Ok tt (set_events sample_world (events sample_world ++ [EvWarn del_warning])).
Proof.
  eapply (del_root_refused sample_env 3 12 _ (KeyStr "a") sample_world (VObserver 3) VUndef).
  - vm_compute. reflexivity.
  - reflexivity.
  - vm_compute. reflexivity.
  - vm_compute. reflexivity.
  - right. do 2 eexists. split; [reflexivity|]. split; [vm_compute; reflexivity|].
    vm_compute. lia.
Defined.

Lemma del_missing_key_witness :
  del sample_env 3 (VObj 10) (KeyStr "x") sample_world = Ok tt sample_world.
Proof.
  eapply (del_missing_key sample_env 3 10 _ (KeyStr "x") sample_world (VObserver 0) VUndef).
  - vm_compute. reflexivity.
  - reflexivity.
  - vm_compute. reflexivity.
  - vm_compute. reflexivity.
  - reflexivity.
  - right. do 2 eexists. split; [reflexivity|]. split; [vm_compute; reflexivity|].
    reflexivity.
  - vm_compute. reflexivity.
Defined.

Lemma del_own_key_witness :
  ∃ o inst,
    objs sample_world !! 10 = Some o ∧ observers sample_world !! 0 = Some inst ∧
    del sample_env 3 (VObj 10) (KeyStr "a") sample_world
      = Ok tt (set_events
                 (set_objs sample_world
                    (<[10 := set_props o (delete (KeyStr "a") (props o))]>
                       (objs sample_world)))
                 (events sample_world ++ [EvNotify (dep inst)])).
Proof.
  do 2 eexists. split; [vm_compute; reflexivity|]. split; [vm_compute; reflexivity|].
  eapply (proj1 (del_own_key sample_env 3 10 _ (KeyStr "a") sample_world (VObserver 0) VUndef
                   (reactive_accessor 1) _ _ _ _ _ _) 0 _ eq_refl _ _).
  Unshelve.
  all: try (vm_compute; reflexivity).
Defined.

Lemma set_del_non_object_target_witness :
  (set sample_env 3 VUndef (KeyStr "a") (num 1) initial_world
     = TypeError (set_events initial_world
                    (events initial_world ++ [EvWarnValue set_target_warning VUndef])) ∧
   del sample_env 3 VUndef (KeyStr "a") initial_world
     = TypeError (set_events initial_world
                    (events initial_world ++ [EvWarnValue del_target_warning VUndef]))) ∧
  (set sample_env 3 (num 7) (KeyStr "a") (num 1) initial_world
     = TypeError (set_events initial_world
                    (events initial_world ++ [EvWarnValue set_target_warning (num 7)])) ∧
   del sample_env 3 (num 7) (KeyStr "a") initial_world
     = Ok tt (set_events initial_world
                (events initial_world ++ [EvWarnValue del_target_warning (num 7)]))).
Proof.
  split.
  - destruct (set_del_non_object_target sample_env 3 VUndef (KeyStr "a") (num 1)
                initial_world eq_refl) as (Hset & Hdel & _).
    split; [exact Hset|exact (Hdel eq_refl)].
  - destruct (set_del_non_object_target sample_env 3 (num 7) (KeyStr "a") (num 1)
                initial_world eq_refl) as (Hset & _ & Hdel).
    split; [exact Hset|]. apply Hdel. right. by eexists.
Defined.




Lemma write_then_read_witness :
  (same_value (num 2) (cell_val (new_cell 10 (KeyStr "a") (num 1) None)) = true →
     assign sample_env 2 10 (KeyStr "a") (num 2) sample_world = Ok tt sample_world) ∧
  (same_value (num 2) (cell_val (new_cell 10 (KeyStr "a") (num 1) None)) = false →
     ∃ w',
       assign sample_env 2 10 (KeyStr "a") (num 2) sample_world = Ok tt w' ∧
       objs w' = objs sample_world ∧
       events w' =
         events (custom_logged sample_env (new_cell 10 (KeyStr "a") (num 1) None) sample_world)
           ++ [EvNotify 1] ∧
       get sample_env 2 10 (KeyStr "a") w' =
         Ok (num 2) (match target sample_world with
                     | Some t => set_events w' (events w' ++ [EvAddDep t 1])
                     | None => w'
                     end)).
Proof.
  eapply (write_then_read sample_env 0 10 _ (KeyStr "a") 1
            (new_cell 10 (KeyStr "a") (num 1) None) (num 2) sample_world).
  all: try (vm_compute; reflexivity).
  - vm_compute. lia.
Defined.

(** ** Event listeners: markers, invokers, and what an update registers *)

Ltac each_name H :=
  repeat (apply elem_of_cons in H as [-> | H]); [.. | by apply elem_of_nil in H].

Section listeners.
Import Listeners.

Lemma marker_back c s :
  (if charAt0_is c s then String c "" else "") +:+
  (if charAt0_is c s then slice1 s else s) = s.
Proof.
  destruct s as [|a s]; [done|]. simpl.
  destruct (Ascii.eqb a c) eqn:E; [|done].
  by apply Ascii.eqb_eq in E as ->.
Qed.

Lemma charAt0_marker c d s : charAt0_is c (String d s) = Ascii.eqb d c.
Proof. done. Qed.

(** X19: normalizeEvent takes the markers off in the order '&', '~', '!', each at
    most once: putting the markers it found back in front of the name it
    returns gives the input, for every input.  And a name that starts with
    none of the three characters is recovered, with its flags, from the name
    marked with any of them. *)
Theorem normalizeEvent_marked :
  (∀ s, marked_name (normalizeEvent s) = s) ∧
  (∀ e, charAt0_is amp (name e) = false → charAt0_is tilde (name e) = false →
        charAt0_is bang (name e) = false →
        normalizeEvent (marked_name e) = e).
Proof.
  split.
  - intros s. unfold normalizeEvent, marked_name. cbn [name once capture passive].
    by rewrite !marker_back.
  - intros [n o c p]. cbn [name once capture passive]. intros H1 H2 H3.
    unfold normalizeEvent, marked_name. cbn [name once capture passive].
    unfold amp, tilde, bang in *.
    assert (Happ : ∀ x, "" +:+ x = x) by done.
    destruct p, o, c; cbn [String.app]; rewrite ?Happ; simpl;
      rewrite ?Happ, ?H1, ?H2, ?H3; simpl; rewrite ?Happ, ?H1, ?H2, ?H3; simpl;
      rewrite ?Happ, ?H1, ?H2, ?H3; done.
Qed.

(** ** Properties of [updateListeners] *)

Lemma prop_notin (on : Listeners) n : n ∉ on.*1 → prop on n = VUndef.
Proof.
  induction on as [|[k v] on IH]; simpl; [done|]. intros H.
  apply not_elem_of_cons in H as [Hne H].
  destruct (String.eqb k n) eqn:E; [apply String.eqb_eq in E; congruence|auto].
Qed.

Lemma prop_assign_eq (on : Listeners) n v : n ∈ on.*1 → prop (assign on n v) n = v.
Proof.
  induction on as [|[k x] on IH]; simpl; [by intros H; apply elem_of_nil in H|].
  intros H. destruct (String.eqb k n) eqn:E; simpl; rewrite E; [done|].
  apply IH. apply elem_of_cons in H as [->|H]; [|done].
  by rewrite String.eqb_refl in E.
Qed.

Lemma prop_assign_ne (on : Listeners) n n' v : n ≠ n' → prop (assign on n v) n' = prop on n'.
Proof.
  intros Hne. induction on as [|[k x] on IH]; simpl; [done|].
  destruct (String.eqb k n) eqn:E; simpl.
  - apply String.eqb_eq in E as ->.
    by rewrite (proj2 (String.eqb_neq n n') Hne).
  - by rewrite IH.
Qed.

Lemma assign_keys (on : Listeners) n v : (assign on n v).*1 = on.*1.
Proof.
  induction on as [|[k x] on IH]; [done|].
  cbn [assign]. destruct (String.eqb k n); [done|].
  rewrite !fmap_cons. by rewrite IH.
Qed.

Lemma member_own inherited (o : Listeners) n :
  n ∈ o.*1 → member inherited o n = prop o n.
Proof. intros H. unfold member. by rewrite bool_decide_eq_true_2. Qed.

Lemma member_defined inherited (o : Listeners) n :
  isUndef (prop o n) = false → member inherited o n = prop o n.
Proof.
  intros H. apply member_own. destruct (decide (n ∈ o.*1)) as [|Hn]; [done|].
  by rewrite (prop_notin o n Hn) in H.
Qed.

Lemma member_nil inherited n : member inherited [] n = prop inherited n.
Proof.
  unfold member. rewrite bool_decide_eq_false_2; [done|]. apply not_elem_of_nil.
Qed.

Lemma remove_none inherited (on oldOn : Listeners) names s :
  (∀ n, n ∈ names → isUndef (prop on n) = false) →
  foldl (λ s n, remove_one inherited on oldOn n s) s names = s.
Proof.
  revert s. induction names as [|n names IH]; intros s H; simpl; [done|].
  unfold remove_one at 2.
  rewrite member_defined by (apply H, elem_of_cons; by left).
  rewrite H by (apply elem_of_cons; by left).
  apply IH. intros n' Hn'. apply H, elem_of_cons. by right.
Qed.

Section updateListeners_facts.
Variable production : bool.
Variable createOnceHandler : string → Val → bool → Val.
Variable inherited : Listeners.

Local Abbreviation update_one :=
  (Listeners.update_one false production createOnceHandler inherited).
Local Abbreviation update_all :=
  (Listeners.update_all false production createOnceHandler inherited).
Local Abbreviation updateListeners :=
  (Listeners.updateListeners false production createOnceHandler inherited).

(** X20: outside Weex: updateListeners with the listeners it had already (each
    handler defined and identical to the old one under the same name) makes
    no call and changes nothing. *)
Theorem updateListeners_same (on oldOn : Listeners) s :
  (∀ n, n ∈ on.*1 → isUndef (prop on n) = false ∧ prop oldOn n = prop on n) →
  (∀ n, n ∈ oldOn.*1 → isUndef (prop on n) = false) →
  updateListeners on oldOn s = Done on s.
Proof.
  intros Hon Hold.
  assert (∀ names, (∀ n, n ∈ names → n ∈ on.*1) → update_all oldOn names on s = Done on s)
    as Hall.
  { induction names as [|n names IH]; intros Hin; simpl; [done|].
    destruct (Hon n) as [Hdef Hsame]; [apply Hin, elem_of_cons; by left|].
    unfold Listeners.update_one.
    rewrite (member_defined inherited on n Hdef).
    rewrite (member_defined inherited oldOn n) by (by rewrite Hsame).
    simpl. rewrite Hsame, Hdef.
    rewrite bool_decide_eq_false_2 by (intros H; by apply H).
    apply IH. intros n' Hn'. apply Hin, elem_of_cons. by right. }
  unfold Listeners.updateListeners. rewrite Hall by done.
  by rewrite remove_none.
Qed.

Lemma swap_all (oldOn : Listeners) names : ∀ (on : Listeners) s,
  NoDup names →
  (∀ n, n ∈ names →
     ∃ r, prop oldOn n = VRef r ∧ isUndef (prop on n) = false ∧ prop on n ≠ VRef r) →
  (∀ n1 n2, n1 ∈ names → n2 ∈ names → prop oldOn n1 = prop oldOn n2 → n1 = n2) →
  ∃ on' s',
    update_all oldOn names on s = Done on' s' ∧
    on'.*1 = on.*1 ∧
    (∀ n, n ∉ names → prop on' n = prop on n) ∧
    (∀ n, n ∈ names → n ∈ on.*1 →
       prop on' n = prop oldOn n ∧ fns_of s' (prop oldOn n) = prop on n) ∧
    calls s' = calls s ∧ event_params s' = event_params s ∧
    (∀ r, (∀ n, n ∈ names → prop oldOn n ≠ VRef r) → heap s' !! r = heap s !! r) ∧
    (∀ v, array_elems s' v = array_elems s v).
Proof.
  induction names as [|n names IH]; intros on s Hnd Hswap Hinj.
  - exists on, s. split; [done|]. split; [done|]. split; [done|].
    split; [|done]. intros n Hn. by apply elem_of_nil in Hn.
  - apply NoDup_cons in Hnd as [Hn Hnd].
    destruct (Hswap n) as (r & Hold & Hdef & Hne); [apply elem_of_cons; by left|].
    set (o := default {| shape := SOther; fns := VUndef |} (heap s !! r)).
    set (on1 := assign on n (VRef r)).
    set (s1 := set_heap s (<[r := {| shape := shape o; fns := prop on n |}]> (heap s))).
    assert (update_one oldOn n on s = Done on1 s1) as Hone.
    { unfold Listeners.update_one.
      rewrite (member_defined inherited on n Hdef).
      rewrite (member_defined inherited oldOn n) by (by rewrite Hold).
      simpl. rewrite Hold, Hdef. simpl.
      by rewrite bool_decide_eq_true_2. }
    destruct (IH on1 s1 Hnd)
      as (on' & s' & Hrun & Hkeys & Hout & Hin & Hcalls & Hpar & Hheap & Harr).
    { intros n' Hn'. assert (n ≠ n') as Hnn by (intros ->; done).
      unfold on1. rewrite prop_assign_ne by done.
      apply Hswap, elem_of_cons. by right. }
    { intros n1 n2 H1 H2. apply Hinj; apply elem_of_cons; by right. }
    exists on', s'. split; [simpl; by rewrite Hone|].
    split; [by rewrite Hkeys; apply assign_keys|].
    split; [|split; [|split; [done|split; [done|split]]]].
    + intros n' Hn'. apply not_elem_of_cons in Hn' as [Hne' Hn'].
      rewrite Hout by done. unfold on1. by rewrite prop_assign_ne.
    + intros n' Hn' Hon. apply elem_of_cons in Hn' as [->|Hn'].
      * rewrite Hout by done. unfold on1. rewrite prop_assign_eq by done.
        split; [done|]. rewrite Hold. unfold fns_of. rewrite Hheap.
        -- unfold s1. simpl. by rewrite lookup_insert_eq.
        -- intros n' Hn' Heq. rewrite <- Hold in Heq.
           assert (n' = n); [|by subst].
           apply Hinj; [apply elem_of_cons; by right|apply elem_of_cons; by left|done].
      * assert (n ≠ n') as Hnn by (intros ->; done).
        destruct (Hin n' Hn') as [H1 H2]; [by unfold on1; rewrite assign_keys|].
        split; [done|]. rewrite H2. unfold on1. by rewrite prop_assign_ne.
    + intros r' Hr'. rewrite Hheap.
      * unfold s1. simpl. apply lookup_insert_ne. intros ->.
        apply (Hr' n); [apply elem_of_cons; by left|done].
      * intros n' Hn'. apply Hr', elem_of_cons. by right.
    + intros v. rewrite Harr. destruct v as [| | |a]; try done.
      unfold array_elems, s1. simpl.
      destruct (decide (a = r)) as [->|Har]; [|by rewrite lookup_insert_ne].
      rewrite lookup_insert_eq. unfold o. by destruct (heap s !! r) as [[]|].
Qed.

(** X21: outside Weex: when every listener is replaced by a different handler
    (the old ones being distinct objects), updateListeners adds nothing and
    removes nothing.  It keeps the old handler objects in [on] and sets the
    [fns] of each to the new handler, so that a later call of the invoker
    that was registered invokes the new handler. *)
Theorem updateListeners_swap (on oldOn : Listeners) s :
  NoDup on.*1 →
  (∀ n, n ∈ oldOn.*1 → n ∈ on.*1) →
  (∀ n, n ∈ on.*1 →
     ∃ r, prop oldOn n = VRef r ∧ isUndef (prop on n) = false ∧ prop on n ≠ VRef r) →
  (∀ n1 n2, n1 ∈ on.*1 → n2 ∈ on.*1 → prop oldOn n1 = prop oldOn n2 → n1 = n2) →
  ∃ on' s',
    updateListeners on oldOn s = Done on' s' ∧
    on'.*1 = on.*1 ∧
    calls s' = calls s ∧
    (∀ n, n ∈ on.*1 →
       prop on' n = prop oldOn n ∧ fns_of s' (prop oldOn n) = prop on n) ∧
    (∀ invoke n r,
       n ∈ on.*1 → prop oldOn n = VRef r →
       invoker invoke r s' =
         match array_elems s (prop on n) with
         | Some handlers => invoke_all invoke handlers s'
         | None => ([prop on n], invoke (prop on n) s')
         end).
Proof.
  intros Hnd Hsub Hswap Hinj.
  destruct (swap_all oldOn on.*1 on s Hnd Hswap Hinj)
    as (on' & s' & Hrun & Hkeys & Hout & Hin & Hcalls & Hpar & Hheap & Harr).
  exists on', s'. split.
  { unfold Listeners.updateListeners. rewrite Hrun. f_equal.
    apply remove_none. intros n Hn.
    destruct (Hswap n (Hsub n Hn)) as (r & Hold & _).
    destruct (Hin n (Hsub n Hn) (Hsub n Hn)) as [-> _]. by rewrite Hold. }
  split; [done|]. split; [done|]. split; [intros n Hn; by apply Hin|].
  intros invoke n r Hn Hold. destruct (Hin n Hn Hn) as [_ Hf].
  unfold invoker. by rewrite <- Hold, Hf, Harr.
Qed.

Local Abbreviation registered := (Listeners.registered createOnceHandler).
#[local] Arguments Listeners.normalizeEvent : simpl never.

Lemma mount_all names : ∀ (on : Listeners) s,
  NoDup names →
  (∀ n, n ∈ names → n ∈ on.*1) →
  (∀ n, n ∈ names → n ∉ inherited.*1) →
  (∀ n, n ∈ names →
     isUndef (prop on n) = false ∧ fns_of s (prop on n) = VUndef ∧
     ∀ r, prop on n = VRef r → r ∈ dom (heap s)) →
  ∃ refs on' s',
    update_all [] names on s = Done on' s' ∧
    length refs = length names ∧ NoDup refs ∧
    (∀ r, r ∈ refs → r ∉ dom (heap s)) ∧
    on'.*1 = on.*1 ∧
    (∀ n, n ∉ names → prop on' n = prop on n) ∧
    (∀ i n r, names !! i = Some n → refs !! i = Some r →
       prop on' n = registered n r ∧
       heap s' !! r = Some {| shape := SInvoker; fns := prop on n |}) ∧
    calls s' = calls s ++
      zip_with (λ n r, Add (name (normalizeEvent n)) (registered n r)
                         (capture (normalizeEvent n)) (passive (normalizeEvent n))
                         (default VUndef (event_params s !! n))) names refs ∧
    (∀ r, r ∈ dom (heap s) → heap s' !! r = heap s !! r) ∧
    event_params s' = event_params s.
Proof.
  induction names as [|n names IH]; intros on s Hnd Hsub Hown Hnew.
  - exists [], on, s. split; [done|]. split; [done|]. split; [constructor|].
    split; [intros r Hr; by apply elem_of_nil in Hr|].
    split; [done|]. split; [done|]. split; [done|].
    split; [by rewrite app_nil_r|]. done.
  - apply NoDup_cons in Hnd as [Hn Hnd].
    destruct (Hnew n) as (Hdef & Hfns & Hdom); [apply elem_of_cons; by left|].
    assert (n ∈ on.*1) as Hnon by (apply Hsub, elem_of_cons; by left).
    set (r := fresh (dom (heap s))).
    assert (r ∉ dom (heap s)) as Hfresh by apply is_fresh.
    set (s1 := set_heap s (<[r := {| shape := SInvoker; fns := prop on n |}]> (heap s))).
    set (on1 := assign on n (VRef r)).
    set (on2 := if once (normalizeEvent n) then assign on1 n (registered n r) else on1).
    set (s2 := log (Add (name (normalizeEvent n)) (registered n r)
                      (capture (normalizeEvent n)) (passive (normalizeEvent n))
                      (default VUndef (event_params s !! n))) s1).
    assert (update_one [] n on s = Done on2 s2) as Hone.
    { unfold on2, s2, Listeners.registered, Listeners.update_one.
      remember (normalizeEvent n) as e eqn:He. clear He.
      rewrite (member_own inherited on n Hnon), member_nil.
      rewrite (prop_notin inherited n) by (apply Hown, elem_of_cons; by left).
      simpl. rewrite Hdef. simpl. rewrite Hfns. simpl.
      fold r. fold s1. fold on1. by destruct (once e). }
    assert (∀ n', n ≠ n' → prop on2 n' = prop on n') as Hother.
    { intros n' Hne. unfold on2, on1.
      destruct (once (normalizeEvent n)); by rewrite ?prop_assign_ne. }
    assert (prop on2 n = registered n r) as Hself.
    { unfold on2, on1. unfold Listeners.registered.
      destruct (once (normalizeEvent n)).
      - rewrite prop_assign_eq; [done|]. by rewrite assign_keys.
      - by rewrite prop_assign_eq. }
    assert (on2.*1 = on.*1) as Hkeys2.
    { unfold on2, on1. destruct (once (normalizeEvent n)); by rewrite ?assign_keys. }
    assert (dom (heap s2) = {[r]} ∪ dom (heap s)) as Hdom2.
    { unfold s2, s1. simpl. by rewrite dom_insert_L. }
    destruct (IH on2 s2 Hnd) as (refs & on' & s' & Hrun & Hlen & Hndr & Hfr & Hkeys & Hout &
                                 Hreg & Hcalls & Hheap & Hpar).
    { intros n' Hn'. rewrite Hkeys2. apply Hsub, elem_of_cons. by right. }
    { intros n' Hn'. apply Hown, elem_of_cons. by right. }
    { intros n' Hn'. assert (n ≠ n') as Hne by (intros ->; done).
      destruct (Hnew n') as (Hdef' & Hfns' & Hdom'); [apply elem_of_cons; by right|].
      rewrite Hother by done. split; [done|]. split.
      - destruct (prop on n') as [| | |r'] eqn:E; try done.
        unfold fns_of, s2, s1. simpl. rewrite lookup_insert_ne; [exact Hfns'|].
        intros <-. by apply Hfresh, Hdom'.
      - intros r' Hr'. rewrite Hdom2. apply elem_of_union. right. by apply Hdom'. }
    exists (r :: refs), on', s'. split; [simpl; by rewrite Hone|].
    split; [simpl; by rewrite Hlen|].
    split.
    { apply NoDup_cons. split; [|done]. intros Hr. apply (Hfr r Hr).
      rewrite Hdom2. apply elem_of_union. left. by apply elem_of_singleton. }
    split.
    { intros r' Hr'. apply elem_of_cons in Hr' as [->|Hr']; [done|].
      intros Hd. apply (Hfr r' Hr'). rewrite Hdom2. apply elem_of_union. by right. }
    split; [by rewrite Hkeys|].
    split.
    { intros n' Hn'. apply not_elem_of_cons in Hn' as [Hne Hn'].
      rewrite Hout by done. by apply Hother. }
    split.
    { intros [|i] n' r'; simpl.
      - intros [= <-] [= <-]. rewrite Hout by done. split; [done|].
        rewrite Hheap.
        + unfold s2, s1. simpl. by rewrite lookup_insert_eq.
        + rewrite Hdom2. apply elem_of_union. left. by apply elem_of_singleton.
      - intros Hi Hr. destruct (Hreg i n' r' Hi Hr) as [H1 H2]. split; [done|].
        rewrite H2. do 2 f_equal. apply Hother. intros ->.
        apply Hn. by eapply list_elem_of_lookup_2. }
    split.
    { rewrite Hcalls. unfold s2, s1. simpl. by rewrite <- (assoc_L (++)). }
    split; [|by rewrite Hpar].
    intros r' Hr'. rewrite Hheap.
    + unfold s2, s1. simpl. apply lookup_insert_ne. by intros <-.
    + rewrite Hdom2. apply elem_of_union. by right.
Qed.

(** X22: outside Weex: with no old listeners, and no handler under a name that
    the empty [oldOn] inherits (such as [toString]), every handler (defined,
    without a [fns] property of its own) is wrapped in a new invoker whose
    [fns] is the handler; when the name carries the once marker the invoker
    is wrapped again by createOnceHandler.  What was made is stored in [on]
    and added once, under the normalized name and with the flags of the
    markers, in the order of [on].  Nothing is removed and no existing
    object changes. *)
Theorem updateListeners_mount (on : Listeners) s :
  NoDup on.*1 →
  (∀ n, n ∈ on.*1 → n ∉ inherited.*1) →
  (∀ n, n ∈ on.*1 →
     isUndef (prop on n) = false ∧ fns_of s (prop on n) = VUndef ∧
     ∀ r, prop on n = VRef r → r ∈ dom (heap s)) →
  ∃ refs on' s',
    updateListeners on [] s = Done on' s' ∧
    length refs = length on ∧ NoDup refs ∧
    (∀ r, r ∈ refs → r ∉ dom (heap s)) ∧
    on'.*1 = on.*1 ∧
    (∀ i n r, on.*1 !! i = Some n → refs !! i = Some r →
       prop on' n = registered n r ∧
       heap s' !! r = Some {| shape := SInvoker; fns := prop on n |}) ∧
    calls s' = calls s ++
      zip_with (λ n r, Add (name (normalizeEvent n)) (registered n r)
                         (capture (normalizeEvent n)) (passive (normalizeEvent n))
                         (default VUndef (event_params s !! n))) on.*1 refs ∧
    (∀ r, r ∈ dom (heap s) → heap s' !! r = heap s !! r).
Proof.
  intros Hnd Hown Hnew.
  destruct (mount_all on.*1 on s Hnd (λ n H, H) Hown Hnew)
    as (refs & on' & s' & Hrun & Hlen & Hndr & Hfr & Hkeys & Hout & Hreg & Hcalls & Hheap & Hpar).
  exists refs, on', s'. split.
  { unfold Listeners.updateListeners. by rewrite Hrun. }
  split; [by rewrite Hlen, length_fmap|]. done.
Qed.
End updateListeners_facts.

(** X23: with no listeners left, updateListeners removes the old listeners, in
    the order of the old object, each under its normalized name and with
    its capture flag, and does nothing else.  An old listener is left in
    place when the empty [on] inherits a defined value under its name (such
    as [toString]). *)
Theorem updateListeners_unmount weex production createOnceHandler inherited oldOn s :
  updateListeners weex production createOnceHandler inherited [] oldOn s =
    Done [] {| heap := heap s; event_params := event_params s;
               calls := calls s ++
                 map (λ n, Remove (name (normalizeEvent n)) (prop oldOn n)
                             (capture (normalizeEvent n)))
                   (List.filter (λ n, isUndef (prop inherited n)) oldOn.*1) |}.
Proof.
  unfold updateListeners. simpl. f_equal.
  assert (∀ names s,
            (∀ n, n ∈ names → n ∈ oldOn.*1) →
            foldl (λ s n, remove_one inherited [] oldOn n s) s names =
            {| heap := heap s; event_params := event_params s;
               calls := calls s ++
                 map (λ n, Remove (name (normalizeEvent n)) (prop oldOn n)
                             (capture (normalizeEvent n)))
                   (List.filter (λ n, isUndef (prop inherited n)) names) |}) as H.
  { induction names as [|n names IH]; intros s0 Hsub; simpl.
    - rewrite app_nil_r. by destruct s0.
    - rewrite IH by (intros n' Hn'; apply Hsub, elem_of_cons; by right).
      unfold remove_one. rewrite member_nil.
      rewrite member_own by (apply Hsub, elem_of_cons; by left).
      destruct (isUndef (prop inherited n)); simpl; [|done].
      by rewrite <- (assoc_L (++)). }
  by apply H.
Qed.

Section invoker_facts.
Variable invoke : Val → State → Outcome Val.


End invoker_facts.

Lemma updateListeners_same_witness :
  updateListeners false false sample_createOnceHandler sample_inherited
    sample_oldOn sample_oldOn sample_state
  = Done sample_oldOn sample_state.
Proof.
  apply (updateListeners_same false sample_createOnceHandler sample_inherited
           sample_oldOn sample_oldOn sample_state).
  - intros n Hn. each_name Hn; by vm_compute.
  - intros n Hn. each_name Hn; by vm_compute.
Defined.

Lemma updateListeners_swap_witness :
  ∃ on' s',
    updateListeners false false sample_createOnceHandler sample_inherited
      sample_on2 sample_oldOn sample_state
      = Done on' s' ∧
    on'.*1 = sample_on2.*1 ∧
    calls s' = calls sample_state ∧
    (∀ n, n ∈ sample_on2.*1 →
       prop on' n = prop sample_oldOn n ∧
       fns_of s' (prop sample_oldOn n) = prop sample_on2 n) ∧
    (∀ invoke n r,
       n ∈ sample_on2.*1 → prop sample_oldOn n = VRef r →
       invoker invoke r s' =
         match array_elems sample_state (prop sample_on2 n) with
         | Some handlers => invoke_all invoke handlers s'
         | None => ([prop sample_on2 n], invoke (prop sample_on2 n) s')
         end).
Proof.
  apply (updateListeners_swap false sample_createOnceHandler sample_inherited
           sample_on2 sample_oldOn sample_state).
  - apply (bool_decide_unpack _). by vm_compute.
  - intros n Hn. each_name Hn; apply (bool_decide_unpack _); by vm_compute.
  - intros n Hn. each_name Hn; eexists; (split; [by vm_compute|]); by split.
  - intros n1 n2 H1 H2. each_name H1; each_name H2; by vm_compute.
Defined.

Lemma updateListeners_mount_witness :
  ∃ refs on' s',
    updateListeners false false sample_createOnceHandler sample_inherited
      sample_on [] sample_state
      = Done on' s' ∧
    length refs = length sample_on ∧ NoDup refs ∧
    (∀ r, r ∈ refs → r ∉ dom (heap sample_state)) ∧
    on'.*1 = sample_on.*1 ∧
    (∀ i n r, sample_on.*1 !! i = Some n → refs !! i = Some r →
       prop on' n = registered sample_createOnceHandler n r ∧
       heap s' !! r = Some {| shape := SInvoker; fns := prop sample_on n |}) ∧
    calls s' = calls sample_state ++
      zip_with (λ n r, Add (name (normalizeEvent n)) (registered sample_createOnceHandler n r)
                         (capture (normalizeEvent n)) (passive (normalizeEvent n))
                         (default VUndef (event_params sample_state !! n)))
        sample_on.*1 refs ∧
    (∀ r, r ∈ dom (heap sample_state) → heap s' !! r = heap sample_state !! r).
Proof.
  apply (updateListeners_mount false sample_createOnceHandler sample_inherited
           sample_on sample_state).
  - apply (bool_decide_unpack _). by vm_compute.
  - intros n Hn. each_name Hn; apply (bool_decide_unpack _); by vm_compute.
  - intros n Hn.
    each_name Hn; (split; [by vm_compute|]); (split; [by vm_compute|]);
      intros r [= <-]; apply (bool_decide_unpack _); by vm_compute.
Defined.

(** A handler named like an inherited property: with an empty [oldOn] the
    old value is the inherited function, so nothing is added; the inherited
    function gets the handler as its [fns] and takes the handler's place. *)
Lemma mount_inherited_name_not_added :
  ∃ s',
    updateListeners false false sample_createOnceHandler sample_inherited
      [("toString", VRef 0)] [] sample_state
      = Done [("toString", VRef 6)] s' ∧
    calls s' = [] ∧ fns_of s' (VRef 6) = VRef 0.
Proof. eexists. split; [vm_compute; reflexivity|]. split; vm_compute; reflexivity. Qed.

(** And an old listener under such a name is not removed. *)
Lemma unmount_inherited_name_kept :
  ∃ s',
    updateListeners false false sample_createOnceHandler sample_inherited
      [] [("toString", VRef 3); ("click", VRef 4)] sample_state
      = Done [] s' ∧
    calls s' = [Remove "click" (VRef 4) false].
Proof. eexists. split; vm_compute; reflexivity. Qed.

End listeners.

(** ** Namespaces of a vnode tree *)

Section namespaces.
Import CreateElement.

Lemma map_ext_Forall' {A B} (f g : A → B) l :
  Forall (λ x, f x = g x) l → map f l = map g l.
Proof. induction 1 as [|x l Hx _ IH]; simpl; [done|]. by rewrite Hx, IH. Qed.

Lemma Forall_forallb_mp {A} (P : A → Prop) (p : A → bool) (Q : A → Prop) l :
  Forall P l → forallb p l = true → (∀ x, P x → p x = true → Q x) → Forall Q l.
Proof.
  induction 1 as [|x l Hx _ IH]; simpl; intros Hp HQ; [constructor|].
  apply andb_true_iff in Hp as [Hpx Hp]. constructor; [by apply HQ | by apply IH].
Qed.

(** X25: applyNS is idempotent: a second call with the same namespace and the
    same [force] leaves the tree as the first call made it. *)
Theorem applyNS_idempotent v ns0 force :
  applyNS (applyNS v ns0 force) ns0 force = applyNS v ns0 force.
Proof.
  revert ns0 force. induction v as [t n cs IH] using VNode_induction.
  intros ns0 force. simpl. f_equal. destruct cs as [l|]; [|done]. simpl in *.
  f_equal. rewrite map_map. apply map_ext_Forall'.
  eapply Forall_impl; [exact IH|]. intros c Hc. simpl in Hc.
  set (ns1 := if bool_decide (t = Some "foreignObject") then None else ns0).
  set (force1 := if bool_decide (t = Some "foreignObject") then true else force).
  destruct (descends c force1) eqn:E.
  - destruct (descends (applyNS c ns1 force1) force1); [apply Hc | done].
  - by rewrite E.
Qed.

(** X26: applyNS changes namespaces only: the tags and the children of every
    vnode stay, no vnode is added or dropped. *)
Theorem applyNS_only_ns v ns0 force :
  erase (applyNS v ns0 force) = erase v.
Proof.
  revert ns0 force. induction v as [t n cs IH] using VNode_induction.
  intros ns0 force. simpl. f_equal. destruct cs as [l|]; [|done]. simpl in *.
  f_equal. rewrite map_map. apply map_ext_Forall'.
  eapply Forall_impl; [exact IH|]. intros c Hc. simpl in Hc.
  destruct (descends c _); [apply Hc | done].
Qed.

(** X27: when every vnode below the root is an element without a namespace,
    applyNS gives the namespace to the whole tree, and undefined to what is
    below a foreignObject; [force] makes no difference. *)
Theorem applyNS_new_tree v ns0 force :
  below new_element v = true →
  applyNS v ns0 force = spread ns0 v.
Proof.
  revert ns0 force. induction v as [t n cs IH] using VNode_induction.
  intros ns0 force Hb. simpl in *. f_equal. destruct cs as [l|]; [|done]. simpl in *.
  f_equal. apply map_ext_Forall'.
  eapply Forall_forallb_mp; [exact IH | exact Hb |]. intros c Hc Hp. simpl in *.
  apply andb_true_iff in Hp as [Hnew Hbelow].
  unfold new_element in Hnew. apply andb_true_iff in Hnew as [Htag Hns].
  unfold descends. rewrite Htag, Hns. simpl. by apply Hc.
Qed.

(** X28: below a foreignObject, or with [force], existing namespaces are
    overwritten: when every vnode below the root is an element other than
    [svg], the result is the same as for a tree without namespaces. *)
Theorem applyNS_forced v ns0 force :
  below plain_element v = true →
  force || tag_is v "foreignObject" = true →
  applyNS v ns0 force = spread ns0 v.
Proof.
  revert ns0 force. induction v as [t n cs IH] using VNode_induction.
  intros ns0 force Hb Hf. simpl in *. f_equal. destruct cs as [l|]; [|done]. simpl in *.
  f_equal. apply map_ext_Forall'.
  eapply Forall_forallb_mp; [exact IH | exact Hb |]. intros c Hc Hp. simpl in *.
  apply andb_true_iff in Hp as [Hnew Hbelow].
  unfold plain_element in Hnew. apply andb_true_iff in Hnew as [Htag Hsvg].
  assert ((if bool_decide (t = Some "foreignObject") then true else force) = true) as ->.
  { unfold tag_is in Hf. simpl in Hf. destruct (bool_decide (t = _)); [done|].
    by rewrite orb_false_r in Hf. }
  unfold descends. rewrite Htag, Hsvg, orb_true_r. simpl. by apply Hc.
Qed.

End namespaces.

Lemma applyNS_new_tree_witness :
  CreateElement.applyNS CreateElement.sample_svg (Some "svg") false
  = CreateElement.spread (Some "svg") CreateElement.sample_svg.
Proof.
  apply (applyNS_new_tree CreateElement.sample_svg (Some "svg") false).
  vm_compute. reflexivity.
Defined.

Lemma applyNS_forced_witness :
  CreateElement.applyNS CreateElement.sample_foreign (Some "svg") false
  = CreateElement.spread (Some "svg") CreateElement.sample_foreign.
Proof.
  apply (applyNS_forced CreateElement.sample_foreign (Some "svg") false).
  - vm_compute. reflexivity.
  - vm_compute. reflexivity.
Defined.
